(** * sesam.py: output verification, entity filtering, config status and
      the scheduler run loop

    A shallow embedding of the parts of [sesam.py] that decide the
    behaviour of [filter_entity], [verify] (the ["json"] endpoint),
    [load_test_specs], [status], [start_scheduler], [get_scheduler_status]
    and [run], followed by the theorems about them. The last sections of
    Part I embed more of the file ([get_pipe_type] and the lists of pipes
    by type, [find_xml_header_settings], the end of
    [get_node_and_jwt_token], the baseline files of a test spec, [verify]
    and [update] with their loops, [remove_all_datasets] and [wipe]),
    [status] over the bytes of the archives (module [Bytes]) and the
    scheduler functions with requests for the system that can fail
    (module [Faulty]); Part III holds what is proved of them and of the
    functions above.

    Conventions.
    - Python strings are [string]: sequences of 8-bit characters.
    - A decoded JSON document is a [json] value; a Python [dict] keeps its
      insertion order, so an object is an association list.
    - A Python [float] is carried by the text [str] prints for it (the
      shortest decimal that reads back to the same float); [str(v)],
      [v.endswith(".0")], [int(v)] and [json.dumps] only look at that text.
    - Code that can raise returns [exc]; code that also reads or changes
      the file system or the node threads a state. *)

From stdpp Require Import base option list gmap strings sorting.
From Stdlib Require Import ZArith QArith Lqa Ascii String DecimalString OrderedTypeEx.

Set Warnings "-register-all".

Open Scope string_scope.

(* ================================================================== *)
(** * Part I: definitions                                               *)
(* ================================================================== *)

(** ** Exceptions *)

Inductive exn : Type :=
| TypeError
| KeyError (key : string)
| AssertionError (msg : string)
| RuntimeError (msg : string)
| FileNotFoundError (path : string)
| ValueError
| JSONDecodeError
| HTTPError
(** not a Python exception: the input is outside what is modelled *)
| NotModelled (what : string).

Inductive exc (A : Type) : Type :=
| Ok (a : A)
| Raise (e : exn).
Arguments Ok {A} a.
Arguments Raise {A} e.

#[global] Instance exc_ret : MRet exc := fun A a => Ok a.
#[global] Instance exc_bind : MBind exc := fun A B f m =>
  match m with
  | Ok a => f a
  | Raise e => Raise e
  end.
#[global] Instance exc_fmap : FMap exc := fun A B f m =>
  match m with
  | Ok a => Ok (f a)
  | Raise e => Raise e
  end.

(** ** JSON values, as [json.load] and [resp.json()] return them *)

Inductive json : Type :=
| JNull
| JBool (b : bool)
| JInt (n : Z)
| JFloat (text : string)
| JStr (s : string)
| JList (items : list json)
| JDict (items : list (string * json)).

Definition is_dict (v : json) : bool :=
  match v with JDict _ => true | _ => false end.

(** [d.get(key)] and [d[key] = value] on an insertion-ordered dict. *)
Fixpoint dict_get (key : string) (d : list (string * json)) : option json :=
  match d with
  | [] => None
  | (k, v) :: rest => if String.eqb k key then Some v else dict_get key rest
  end.

Fixpoint dict_set (key : string) (value : json) (d : list (string * json))
  : list (string * json) :=
  match d with
  | [] => [(key, value)]
  | (k, v) :: rest =>
      if String.eqb k key then (k, value) :: rest
      else (k, v) :: dict_set key value rest
  end.

(** [d.update(other)] *)
Definition dict_update (d other : list (string * json)) : list (string * json) :=
  fold_left (fun acc kv => dict_set kv.1 kv.2 acc) other d.

(** ** String helpers *)

Definition startswith (s pre : string) : bool := String.prefix pre s.

Definition endswith (s suf : string) : bool :=
  String.eqb (String.substring (String.length s - String.length suf)
                               (String.length suf) s) suf
  && (String.length suf <=? String.length s)%nat.

(** [s[:-n]] for [n > 0] *)
Definition drop_last (n : nat) (s : string) : string :=
  String.substring 0 (String.length s - n) s.

(** [s.replace(old, new)] for a non-empty [old]; [skip] counts the
    characters of a match still to be passed over. *)
Fixpoint replace_from (old new : string) (skip : nat) (s : string) : string :=
  match s with
  | EmptyString => EmptyString
  | String c rest =>
      match skip with
      | S k => replace_from old new k rest
      | O =>
          if String.prefix old s
          then new ++ replace_from old new (String.length old - 1) rest
          else String c (replace_from old new 0 rest)
      end
  end.

Definition replace (s old new : string) : string := replace_from old new 0 s.

(** [s.split("/")[-1]]: what follows the last slash ([acc] is the
    segment read so far). *)
Fixpoint last_segment_from (acc : string) (s : string) : string :=
  match s with
  | EmptyString => acc
  | String c rest =>
      if Ascii.eqb c "/" then last_segment_from EmptyString rest
      else last_segment_from (acc ++ String c EmptyString) rest
  end.

Definition last_segment (s : string) : string := last_segment_from EmptyString s.

(** ** [fnmatch.fnmatch] on a POSIX system

    [fnmatch(name, pat)] normalises both arguments with
    [os.path.normcase] (the identity on POSIX, a [TypeError] for a
    pattern that is not a string), translates the pattern and matches the
    whole name. [*] matches any run of characters, [?] one character,
    [[seq]] one character of [seq], [[!seq]] one character not in it; a
    [[] without a closing bracket is a literal. *)

Module Fnmatch.

Inductive token : Type :=
| Star
| AnyChar
| Lit (c : ascii)
| Class (negated : bool) (ranges : list (ascii * ascii)).

(** Items of a bracket expression read left to right: [lo-hi] is a
    range, anything else a single character. *)
Fixpoint class_ranges (s : list ascii) : list (ascii * ascii) :=
  match s with
  | [] => []
  | lo :: r =>
      match r with
      | dash :: hi :: r' =>
          if Ascii.eqb dash "-" then (lo, hi) :: class_ranges r'
          else (lo, lo) :: class_ranges r
      | _ => (lo, lo) :: class_ranges r
      end
  end.

(** Scan to the closing bracket: the body before it and what follows. *)
Fixpoint until_bracket (s : list ascii) : option (list ascii * list ascii) :=
  match s with
  | [] => None
  | c :: r =>
      if Ascii.eqb c "]" then Some ([], r)
      else '(body, after) ← until_bracket r; Some (c :: body, after)
  end.

(** After an opening bracket: an optional [!], then an optional []]
    that belongs to the set, then the scan. *)
Definition bracket (s : list ascii) : option (token * list ascii) :=
  let '(negated, s1) :=
    match s with
    | c :: r => if Ascii.eqb c "!" then (true, r) else (false, s)
    | [] => (false, s)
    end in
  let '(first, s2) :=
    match s1 with
    | c :: r => if Ascii.eqb c "]" then ([c], r) else ([], s1)
    | [] => ([], s1)
    end in
  '(body, after) ← until_bracket s2;
  Some (Class negated (class_ranges (first ++ body)), after).

Fixpoint translate (fuel : nat) (pat : list ascii) : list token :=
  match fuel, pat with
  | S fuel', c :: rest =>
      if Ascii.eqb c "*" then Star :: translate fuel' rest
      else if Ascii.eqb c "?" then AnyChar :: translate fuel' rest
      else if Ascii.eqb c "[" then
        match bracket rest with
        | Some (cls, after) => cls :: translate fuel' after
        | None => Lit c :: translate fuel' rest
        end
      else Lit c :: translate fuel' rest
  | _, _ => []
  end.

Definition in_range (c : ascii) (r : ascii * ascii) : bool :=
  (N_of_ascii r.1 <=? N_of_ascii c)%N && (N_of_ascii c <=? N_of_ascii r.2)%N.

Definition token_accepts (t : token) (c : ascii) : bool :=
  match t with
  | Star | AnyChar => true
  | Lit d => Ascii.eqb c d
  | Class negated ranges => xorb negated (existsb (in_range c) ranges)
  end.

Fixpoint matches (toks : list token) : list ascii → bool :=
  match toks with
  | [] => fun s => match s with [] => true | _ => false end
  | Star :: toks' =>
      fix star (s : list ascii) : bool :=
        matches toks' s
        || match s with [] => false | _ :: s' => star s' end
  | t :: toks' =>
      fun s =>
        match s with
        | [] => false
        | c :: s' => token_accepts t c && matches toks' s'
        end
  end.

Definition fnmatchcase (name pat : string) : bool :=
  let p := list_ascii_of_string pat in
  matches (translate (List.length p) p) (list_ascii_of_string name).

(** The pattern comes out of a decoded JSON list and may be anything:
    [normcase] raises [TypeError] when it is not a string. *)
Definition fnmatch (name : string) (pat : json) : exc bool :=
  match pat with
  | JStr p => Ok (fnmatchcase name p)
  | _ => Raise TypeError
  end.

End Fnmatch.

(** ** [class TestSpec] *)

Record TestSpec : Type := {
  _spec : list (string * json);
  _spec_file : string
}.

Definition TestSpec_file (t : TestSpec) : option json := dict_get "file" (_spec t).
Definition TestSpec_name (t : TestSpec) : option json := dict_get "name" (_spec t).
Definition TestSpec_endpoint (t : TestSpec) : option json := dict_get "endpoint" (_spec t).
Definition TestSpec_pipe (t : TestSpec) : option json := dict_get "pipe" (_spec t).
Definition TestSpec_blacklist (t : TestSpec) : option json := dict_get "blacklist" (_spec t).

(** [self._spec.get("ignore", False) is True] *)
Definition TestSpec_ignore (t : TestSpec) : bool :=
  match dict_get "ignore" (_spec t) with
  | Some (JBool true) => true
  | _ => false
  end.

(** [for pattern in blacklist: if fnmatch(prop_path, pattern): return True] *)
Fixpoint any_pattern_matches (prop_path : string) (patterns : list json) : exc bool :=
  match patterns with
  | [] => Ok false
  | pattern :: rest =>
      hit ← Fnmatch.fnmatch prop_path pattern;
      if (hit : bool) then Ok true else any_pattern_matches prop_path rest
  end.

Definition is_path_blacklisted (t : TestSpec) (path : list string) : exc bool :=
  match TestSpec_blacklist t with
  | Some (JList (p :: ps)) =>
      let prop_path := replace (String.concat "" path) "\." "." in
      any_pattern_matches prop_path (p :: ps)
  | _ => Ok false
  end.

(** ** [SesamCmdClient.filter_entity]

    [result] starts as a deep copy of [item]; the loop visits every key
    of [item] once and either leaves the copied entry, pops it, or
    overwrites it in place with the filtered value, so the entries that
    stay keep their order. The recursive call is made with [parent_path],
    as in the source. *)

Fixpoint filter_item (test_spec : TestSpec) (parent_path : list string)
  (item : json) {struct item} : exc json :=
  match item with
  | JDict entries =>
      JDict <$>
        (fix each (entries : list (string * json)) : exc (list (string * json)) :=
           match entries with
           | [] => Ok []
           | (key, value) :: rest =>
               let path := (parent_path ++ [key])%list in
               if startswith key "_" then
                 if String.eqb key "_id"
                    || (String.eqb key "_deleted"
                        && match value with JBool true => true | _ => false end)
                 then cons (key, value) <$> each rest
                 else each rest
               else
                 blacklisted ← is_path_blacklisted test_spec path;
                 if (blacklisted : bool) then each rest
                 else
                   value' ← filter_item test_spec parent_path value;
                   cons (key, value') <$> each rest
           end) entries
  | JList items =>
      JList <$>
        (fix each (items : list json) : exc (list json) :=
           match items with
           | [] => Ok []
           | list_item :: rest =>
               r ← filter_item test_spec parent_path list_item;
               cons r <$> each rest
           end) items
  | _ => Ok item
  end.

Definition filter_entity (entity : json) (test_spec : TestSpec) : exc json :=
  filter_item test_spec [] entity.

(** The two loops of [filter_item] under names of their own. *)
Definition keeps_underscore_key (key : string) (value : json) : bool :=
  String.eqb key "_id"
  || (String.eqb key "_deleted"
      && match value with JBool true => true | _ => false end).

Fixpoint filter_entries (test_spec : TestSpec) (parent_path : list string)
  (entries : list (string * json)) : exc (list (string * json)) :=
  match entries with
  | [] => Ok []
  | (key, value) :: rest =>
      let path := (parent_path ++ [key])%list in
      if startswith key "_" then
        if keeps_underscore_key key value
        then cons (key, value) <$> filter_entries test_spec parent_path rest
        else filter_entries test_spec parent_path rest
      else
        blacklisted ← is_path_blacklisted test_spec path;
        if (blacklisted : bool) then filter_entries test_spec parent_path rest
        else
          value' ← filter_item test_spec parent_path value;
          cons (key, value') <$> filter_entries test_spec parent_path rest
  end.

Fixpoint filter_items (test_spec : TestSpec) (parent_path : list string)
  (items : list json) : exc (list json) :=
  match items with
  | [] => Ok []
  | list_item :: rest =>
      r ← filter_item test_spec parent_path list_item;
      cons r <$> filter_items test_spec parent_path rest
  end.

(** ** [SesamNode._fix_decimal_to_ints]

    [resp.json()] yields no [Decimal], so the [isinstance] test is the
    test for a float. [int(value)] of a float printed in positional
    notation is the integer before the decimal point. *)

Definition is_digit (c : ascii) : bool :=
  (48 <=? N_of_ascii c)%N && (N_of_ascii c <=? 57)%N.

Fixpoint leading_digits (acc : Z) (s : string) : Z :=
  match s with
  | String c rest =>
      if is_digit c
      then leading_digits (10 * acc + Z.of_N (N_of_ascii c - 48)) rest
      else acc
  | EmptyString => acc
  end.

Definition int_of_float (text : string) : Z :=
  match text with
  | String c rest =>
      if Ascii.eqb c "-" then (- leading_digits 0 rest)%Z
      else leading_digits 0 text
  | EmptyString => 0%Z
  end.

Fixpoint _fix_decimal_to_ints (value : json) : json :=
  match value with
  | JDict entries =>
      JDict (map (fun kv => (kv.1, _fix_decimal_to_ints kv.2)) entries)
  | JList items => JList (map _fix_decimal_to_ints items)
  | JFloat v =>
      if negb (String.eqb v "") && endswith v ".0"
      then JInt (int_of_float v)
      else value
  | _ => value
  end.

(** Does a float whose text ends in [.0] occur anywhere in [value]? *)
Fixpoint has_float_dot0 (value : json) : bool :=
  match value with
  | JDict entries => existsb (fun kv => has_float_dot0 kv.2) entries
  | JList items => existsb has_float_dot0 items
  | JFloat v => negb (String.eqb v "") && endswith v ".0"
  | _ => false
  end.

(** [get_pipe_entities]: the decoded response body, normalised. *)
Definition get_pipe_entities (resp_json : json) : json :=
  _fix_decimal_to_ints resp_json.

(** ** [sorted]

    Python's sort is stable and only asks [<]. Inserting each element
    from the right in front of the first element that is not smaller
    gives the same list as any stable sort. *)

Section py_sorted.
Context {A : Type} (lt : A → A → bool).

Fixpoint insert_sorted (x : A) (l : list A) : list A :=
  match l with
  | [] => [x]
  | y :: rest => if lt y x then y :: insert_sorted x rest else x :: l
  end.

Fixpoint py_sorted (l : list A) : list A :=
  match l with
  | [] => []
  | x :: rest => insert_sorted x (py_sorted rest)
  end.

(** [a] may stand before [b] in ascending order. *)
Definition not_after (a b : A) : Prop := lt b a = false.
End py_sorted.

Definition key_lt {A : Type} (a b : string * A) : bool := String.ltb a.1 b.1.

(** ** [json.dumps(obj, indent=2, ensure_ascii=False, sort_keys=True)] *)

Module Dumps.

Definition dquote : string := String "034"%char EmptyString.
Definition newline : string := String "010"%char EmptyString.

Definition hex_digit (n : N) : ascii :=
  if (n <? 10)%N then ascii_of_N (48 + n) else ascii_of_N (87 + n).

(** [ESCAPE_DCT] of [json.encoder] *)
Definition escape_char (c : ascii) : string :=
  let n := N_of_ascii c in
  if (n =? 34)%N then "\" ++ dquote
  else if (n =? 92)%N then "\\"
  else if (n =? 10)%N then "\n"
  else if (n =? 13)%N then "\r"
  else if (n =? 9)%N then "\t"
  else if (n =? 8)%N then "\b"
  else if (n =? 12)%N then "\f"
  else if (n <? 32)%N
       then "\u00" ++ String (hex_digit (n / 16)) (String (hex_digit (n mod 16)) "")
  else String c "".

Fixpoint escape (s : string) : string :=
  match s with
  | EmptyString => EmptyString
  | String c rest => escape_char c ++ escape rest
  end.

Definition encode_str (s : string) : string := dquote ++ escape s ++ dquote.

Definition encode_int (n : Z) : string := NilZero.string_of_int (Z.to_int n).

(** [floatstr]: the three non-finite values have names of their own. *)
Definition encode_float (text : string) : string :=
  if String.eqb text "nan" then "NaN"
  else if String.eqb text "inf" then "Infinity"
  else if String.eqb text "-inf" then "-Infinity"
  else text.

Fixpoint spaces (n : nat) : string :=
  match n with
  | O => EmptyString
  | S k => String " " (spaces k)
  end.

Definition newline_indent (level : nat) : string := newline ++ spaces (2 * level).

Definition join (sep : string) (parts : list string) : string := String.concat sep parts.

(** [level] is [_current_indent_level]. The entries of a dict are
    rendered and then put in key order ([sorted(dct.items())]). *)
Fixpoint encode (level : nat) (o : json) : string :=
  match o with
  | JNull => "null"
  | JBool true => "true"
  | JBool false => "false"
  | JInt n => encode_int n
  | JFloat text => encode_float text
  | JStr s => encode_str s
  | JList [] => "[]"
  | JList items =>
      "[" ++ newline_indent (S level)
          ++ join ("," ++ newline_indent (S level)) (map (encode (S level)) items)
          ++ newline_indent level ++ "]"
  | JDict [] => "{}"
  | JDict entries =>
      let rendered := map (fun kv => (kv.1, encode (S level) kv.2)) entries in
      "{" ++ newline_indent (S level)
          ++ join ("," ++ newline_indent (S level))
               (map (fun kv => encode_str kv.1 ++ ": " ++ kv.2)
                    (py_sorted key_lt rendered))
          ++ newline_indent level ++ "}"
  end.

Definition dumps (o : json) : string := encode 0 o.

End Dumps.

(** ** Logging

    The logger is a list of records, oldest first. A message keeps the
    values that are formatted into the text. The text
    [get_diff_string(a, b, a_filename, b_filename)] returns is kept as
    its four arguments. *)

Inductive level : Type := TRACE | DEBUG | INFO | WARNING | ERROR.

Record diff_string : Type := {
  diff_a : string;
  diff_b : string;
  diff_a_filename : option json;
  diff_b_filename : string
}.

Definition get_diff_string (a b : string) (a_filename : option json)
  (b_filename : string) : diff_string :=
  {| diff_a := a; diff_b := b;
     diff_a_filename := a_filename; diff_b_filename := b_filename |}.

Inductive message : Type :=
(* verify *)
| LengthMismatch (spec_file : string) (expected got : nat)
| ContentMismatch (file : option json)
| ExpectedOutput (o : json)
| GotOutput (o : json)
| ExpectedOutputJson (text : string)
| GotOutputJson (text : string)
| Diff (d : diff_string)
(* load_test_specs *)
| ProcessingSpecFile (filename : string)
| PipeIdForSpec (filename : string) (pipe_id : string)
| RemovingOutputFile (output_filename : string)
| IgnoredButExists (pipe_id : string) (filename : string)
| NonExistingPipe (pipe_id : string) (filename : string)
| UpdatingPipe (pipe_id : string)
| CreatingEmptySpec (pipe_id : string)
(* status *)
| NotFoundLocally (remote_file : string)
| NotFoundInSesam (local_file : string)
| FileDiffers (local_file : string)
| NotInSync
| UpToDate
(* scheduler *)
| Text (text : string)
| ExceptionInfo (e : exn).   (* [logger.exception(e)] *)

Definition log_record : Type := level * message.

(** ** The ["json"] branch of [SesamCmdClient.verify] for one test spec *)

(** [len(o)] *)
Definition py_len (o : json) : exc nat :=
  match o with
  | JList items => Ok (List.length items)
  | JDict entries => Ok (List.length entries)
  | JStr s => Ok (String.length s)
  | _ => Raise TypeError
  end.

(** [for e in o] *)
Definition py_iter (o : json) : exc (list json) :=
  match o with
  | JList items => Ok items
  | JDict entries => Ok (map (fun kv => JStr kv.1) entries)
  | JStr s => Ok (map (fun c => JStr (String c "")) (list_ascii_of_string s))
  | _ => Raise TypeError
  end.

(** [e['_id']] *)
Definition get_id (e : json) : exc json :=
  match e with
  | JDict entries =>
      match dict_get "_id" entries with
      | Some v => Ok v
      | None => Raise (KeyError "_id")
      end
  | _ => Raise TypeError
  end.

(** The identity of an entity that is a dict with a string under [_id]. *)
Definition id_of (e : json) : option string :=
  match e with
  | JDict entries =>
      match dict_get "_id" entries with
      | Some (JStr s) => Some s
      | _ => None
      end
  | _ => None
  end.

(** A list of entities with the key it is sorted by. *)
Definition keyed_by_id (l : list json) : list (string * json) :=
  map (fun e => (default "" (id_of e), e)) l.

(** No pattern of the blacklist is anything but a string. *)
Definition blacklist_of_strings (t : TestSpec) : Prop :=
  match TestSpec_blacklist t with
  | Some (JList patterns) => Forall (fun p => ∃ s, p = JStr s) patterns
  | _ => True
  end.

Definition str_key (ke : json * json) : exc (string * json) :=
  match ke.1 with
  | JStr s => Ok (s, ke.2)
  | _ => Raise (NotModelled "sorted: an identity that is not a string")
  end.

(** [sorted(l, key=lambda e: e['_id'])]. The keys are computed first, as
    [list.sort] does; a list of fewer than two elements is never
    compared. Identities are strings on the platform: the model orders
    string keys and stops with [NotModelled] on any other. *)
Definition sorted_by_id (l : list json) : exc (list json) :=
  keyed ← mapM (fun e => k ← get_id e; Ok (k, e)) l;
  match keyed with
  | [] | [_] => Ok l
  | _ =>
      skeyed ← mapM str_key keyed;
      Ok (map snd (py_sorted key_lt skeyed))
  end.

(** What one pass through the branch leaves behind: the records logged
    and whether the spec was appended to [failed_tests]. *)
Record verify_result : Type := {
  logged : list log_record;
  failed : bool
}.

Definition verify_json (test_spec : TestSpec) (expected_output : json)
  (resp_json : json) : exc verify_result :=
  entities ← py_iter (get_pipe_entities resp_json);
  filtered ← mapM (fun e => filter_entity e test_spec) entities;
  current_output ← sorted_by_id filtered;
  len_expected ← py_len expected_output;
  if negb (List.length current_output =? len_expected)%nat then
    let diff := get_diff_string (Dumps.dumps expected_output)
                                (Dumps.dumps (JList current_output))
                                (TestSpec_file test_spec) "current-output.json" in
    Ok {| logged := [(ERROR, LengthMismatch (_spec_file test_spec)
                               len_expected (List.length current_output));
                     (INFO, ExpectedOutput expected_output);
                     (INFO, GotOutput (JList current_output));
                     (INFO, Diff diff)];
          failed := true |}
  else
    let expected_json := Dumps.dumps expected_output in
    let current_json := Dumps.dumps (JList current_output) in
    if negb (String.eqb expected_json current_json) then
      let diff := get_diff_string expected_json current_json
                                  (TestSpec_file test_spec) "current-output.json" in
      Ok {| logged := [(ERROR, ContentMismatch (TestSpec_file test_spec));
                       (INFO, ExpectedOutput expected_output);
                       (DEBUG, ExpectedOutputJson expected_json);
                       (INFO, GotOutput (JList current_output));
                       (DEBUG, GotOutputJson current_json);
                       (INFO, Diff diff)];
            failed := true |}
    else Ok {| logged := []; failed := false |}.

(** ** Programs that read and change a state

    [prog S A] threads a state of type [S], ends normally or by raising,
    and answers [None] when a loop ran out of the steps it was given. No
    handler catches that. *)

Definition prog (S A : Type) : Type := S → option (exc A * S).

#[global] Instance prog_ret {S} : MRet (prog S) :=
  fun A a s => Some (Ok a, s).
#[global] Instance prog_bind {S} : MBind (prog S) := fun A B f m s =>
  match m s with
  | Some (Ok a, s') => f a s'
  | Some (Raise e, s') => Some (Raise e, s')
  | None => None
  end.

Definition raise {S A} (e : exn) : prog S A := fun s => Some (Raise e, s).
Definition lift {S A} (r : exc A) : prog S A := fun s => Some (r, s).
Definition gets {S A} (f : S → A) : prog S A := fun s => Some (Ok (f s), s).
Definition modify {S} (f : S → S) : prog S () := fun s => Some (Ok (), f s).
Definition out_of_steps {S A} : prog S A := fun _ => None.
Definition skip {S} : prog S () := mret ().

(** [try: body except BaseException as e: handler(e)] *)
Definition try_except {S A} (body : prog S A) (handler : exn → prog S A)
  : prog S A := fun s =>
  match body s with
  | Some (Raise e, s') => handler e s'
  | r => r
  end.

(** [try: body finally: final]: [final] runs either way and what it
    raises replaces the outcome of [body]. *)
Definition try_finally {S A} (body : prog S A) (final : prog S ())
  : prog S A := fun s =>
  match body s with
  | Some (r, s') =>
      match final s' with
      | Some (Ok _, s'') => Some (r, s'')
      | Some (Raise e, s'') => Some (Raise e, s'')
      | None => None
      end
  | None => None
  end.

Class Logger (S : Type) : Type := emit : log_record → S → S.

Definition log {S} `{Logger S} (lvl : level) (msg : message) : prog S () :=
  modify (emit (lvl, msg)).

(** [for x in xs: acc = body(acc, x)] *)
Fixpoint for_each {S A B} (body : B → A → prog S B) (xs : list A) (acc : B)
  : prog S B :=
  match xs with
  | [] => mret acc
  | x :: rest => acc' ← body acc x; for_each body rest acc'
  end.

(** ** The working directory *)

Inductive file_data : Type :=
| JsonDoc (doc : json)   (* a file [json.load] decodes to [doc] *)
| RawData (data : string).

Record disk : Type := {
  files : gmap string file_data;
  disk_log : list log_record
}.

#[global] Instance disk_logger : Logger disk := fun r d =>
  {| files := files d; disk_log := (disk_log d ++ [r])%list |}.

Definition isfile (path : string) : prog disk bool :=
  gets (fun d => bool_decide (is_Some (files d !! path))).

Definition os_remove (path : string) : prog disk () := fun d =>
  match files d !! path with
  | Some _ => Some (Ok (), {| files := delete path (files d); disk_log := disk_log d |})
  | None => Some (Raise (FileNotFoundError path), d)
  end.

Definition write_file (path : string) (data : file_data) : prog disk () :=
  modify (fun d => {| files := <[path := data]> (files d); disk_log := disk_log d |}).

(** [glob.glob("expected/*.test.json")]: the files of the directory whose
    name is not hidden and matches; the order is that of the listing. *)
Definition in_expected_dir (path : string) : option string :=
  if startswith path "expected/"
  then Some (String.substring 9 (String.length path - 9) path)
  else None.

Definition is_test_spec_path (path : string) : bool :=
  match in_expected_dir path with
  | Some name =>
      negb (startswith name ".")
      && bool_decide (String.index 0 "/" name = None)
      && Fnmatch.fnmatchcase name "*.test.json"
  | None => false
  end.

Definition glob_test_specs : prog disk (list string) :=
  gets (fun d => List.filter is_test_spec_path (map fst (map_to_list (files d)))).

(** [TestSpec.__init__]: the entries derived from the file name, then
    [self._spec.update(spec_dict)]. *)
Definition TestSpec_of (filename : string) (spec_dict : list (string * json))
  : TestSpec :=
  let name := drop_last (String.length ".test.json") filename in
  let pipe :=
    if bool_decide (String.index 0 "/" name = None) then name
    else last_segment name in
  let spec0 := [("name", JStr name);
                ("file", JStr (name ++ ".json"));
                ("endpoint", JStr "json");
                ("pipe", JStr pipe)] in
  {| _spec := dict_update spec0 spec_dict; _spec_file := filename |}.

Definition TestSpec_init (filename : string) : prog disk TestSpec :=
  content ← gets (fun d => files d !! filename);
  match content with
  | None => raise (FileNotFoundError filename)
  | Some (RawData _) => raise JSONDecodeError
  | Some (JsonDoc (JDict spec_dict)) => mret (TestSpec_of filename spec_dict)
  | Some (JsonDoc _) => raise (AssertionError "Test spec not a json object")
  end.

(** ** [SesamCmdClient.load_test_specs]

    [existing_output_pipes] is the list of the dict's keys (each pipe is
    stored under its id). The pipe and file entries of a spec are strings
    unless a spec file overrides them with something else, which is not
    modelled. *)

Definition as_str {S} (what : string) (v : option json) : prog S string :=
  match v with
  | Some (JStr s) => mret s
  | _ => raise (NotModelled what)
  end.

Definition append_spec (test_specs : gmap string (list TestSpec))
  (pipe_id : string) (test_spec : TestSpec) : gmap string (list TestSpec) :=
  <[pipe_id := (default [] (test_specs !! pipe_id) ++ [test_spec])%list]> test_specs.

Definition load_spec_file (existing_output_pipes : list string) (update : bool)
  (test_specs : gmap string (list TestSpec)) (filename : string)
  : prog disk (gmap string (list TestSpec)) :=
  log DEBUG (ProcessingSpecFile filename);;
  test_spec ← TestSpec_init filename;
  pipe_id ← as_str "a pipe that is not a string" (TestSpec_pipe test_spec);
  log TRACE (PipeIdForSpec filename pipe_id);;
  if TestSpec_ignore test_spec then
    output_filename ← as_str "a file that is not a string" (TestSpec_file test_spec);
    there ← isfile ("expected/" ++ output_filename);
    (if (there : bool) then
       if update then
         log DEBUG (RemovingOutputFile output_filename);;
         os_remove output_filename
       else log WARNING (IgnoredButExists pipe_id filename)
     else skip);;
    mret (append_spec test_specs pipe_id test_spec)
  else if negb (bool_decide (pipe_id ∈ existing_output_pipes)) then
    log ERROR (NonExistingPipe pipe_id filename);;
    mret test_specs
  else mret (append_spec test_specs pipe_id test_spec).

Definition create_empty_spec (test_specs : gmap string (list TestSpec))
  (pipe_id : string) : prog disk (gmap string (list TestSpec)) :=
  log DEBUG (UpdatingPipe pipe_id);;
  match test_specs !! pipe_id with
  | Some _ => mret test_specs
  | None =>
      log WARNING (CreatingEmptySpec pipe_id);;
      let filename := "expected/" ++ pipe_id ++ ".test.json" in
      write_file filename (JsonDoc (JDict []));;
      test_spec ← TestSpec_init filename;
      mret (<[pipe_id := [test_spec]]> test_specs)
  end.

Definition load_test_specs (existing_output_pipes : list string) (update : bool)
  : prog disk (gmap string (list TestSpec)) :=
  filenames ← glob_test_specs;
  test_specs ← for_each (load_spec_file existing_output_pipes update) filenames ∅;
  if update
  then for_each create_empty_spec existing_output_pipes test_specs
  else mret test_specs.

(** ** [SesamCmdClient.status], from the two archives on

    An archive is the list of its members, name and decoded text, in
    archive order; [read] answers with the last member of that name.
    (The module [Bytes] further down keeps the bytes of the members and
    decodes them.) *)

Definition namelist (archive : list (string * string)) : list string :=
  map fst archive.

Fixpoint zip_read (archive : list (string * string)) (name : string) : exc string :=
  match archive with
  | [] => Raise (KeyError name)
  | (n, data) :: rest =>
      match zip_read rest name with
      | Ok later => Ok later
      | Raise e => if String.eqb n name then Ok data else Raise e
      end
  end.

Definition str_in (x : string) (l : list string) : bool :=
  existsb (String.eqb x) l.



(** The state of the two loops: what was logged and [diff_found]. *)
Definition status_remote_file (local_files : list string)
  (st : list log_record * bool) (remote_file : string) : list log_record * bool :=
  if negb (str_in remote_file local_files)
  then ((st.1 ++ [(INFO, NotFoundLocally remote_file)])%list, true)
  else st.

Definition status_local_file (local_config remote_config : list (string * string))
  (remote_files : list string)
  (st : list log_record * bool) (local_file : string)
  : exc (list log_record * bool) :=
  if negb (str_in local_file remote_files)
  then Ok ((st.1 ++ [(INFO, NotFoundInSesam local_file)])%list, true)
  else
    local_file_data ← zip_read local_config local_file;
    remote_file_data ← zip_read remote_config local_file;
    if negb (String.eqb local_file_data remote_file_data) then
      let diff := get_diff_string local_file_data remote_file_data
                    (Some (JStr local_file)) local_file in
      Ok ((st.1 ++ [(INFO, FileDiffers local_file); (INFO, Diff diff)])%list, true)
    else Ok st.

Fixpoint status_local_files (local_config remote_config : list (string * string))
  (remote_files : list string) (st : list log_record * bool)
  (local_files : list string) : exc (list log_record * bool) :=
  match local_files with
  | [] => Ok st
  | local_file :: rest =>
      st' ← status_local_file local_config remote_config remote_files st local_file;
      status_local_files local_config remote_config remote_files st' rest
  end.

Definition status (local_config remote_config : list (string * string))
  : exc (list log_record * bool) :=
  let remote_files := py_sorted String.ltb (namelist remote_config) in
  let local_files := py_sorted String.ltb (namelist local_config) in
  let st1 := fold_left (status_remote_file local_files) remote_files ([], false) in
  '(records, diff_found) ←
    status_local_files local_config remote_config remote_files st1 local_files;
  if (diff_found : bool) then Ok ((records ++ [(INFO, NotInSync)])%list, true)
  else Ok ((records ++ [(INFO, UpToDate)])%list, false).

(** ** The node and the scheduler microservice

    What the node answers is not decided by this program. [replies] gives
    the answer to the k-th request of each kind:
    - [config_matches k]: the k-th read of the posted system returns a
      system whose [config["original"]] equals what was posted (a read
      that raises counts as no match: the source passes over it);
    - [reports_running k]: the k-th read of the system status is a dict
      with [running] true (a read that raises counts as not running);
    - [proxy_reply k]: the decoded body of the k-th GET on the
      microservice proxy, or what the request raises;
    - [log_reply k]: the text of the k-th read of the system log, or what
      the request raises;
    - [start_reply]: the POST of ["start"] is accepted or raises.
    The node itself keeps whether a system is registered under
    [scheduler_id]; reading, adding and deleting that system do not
    raise (in the module [Faulty] further down they can). Seconds are
    rationals. *)

Module Args.
Record t : Type := {
  custom_scheduler : bool;
  dont_remove_scheduler : bool;
  print_scheduler_log : bool;
  extra_verbose : bool;
  scheduler_poll_frequency : Z
}.
End Args.

Record replies : Type := {
  config_matches : nat → bool;
  reports_running : nat → bool;
  proxy_reply : nat → exc json;
  log_reply : nat → exc string;
  start_reply : exc ()
}.

Record node : Type := {
  system_exists : bool;
  config_gets : nat;
  status_gets : nat;
  proxy_gets : nat;
  log_gets : nat;
  deletes : nat;           (* calls of [system.delete()] *)
  slept : Q;               (* seconds spent in [time.sleep] *)
  node_log : list log_record
}.

Definition set_system_exists (b : bool) (n : node) : node :=
  {| system_exists := b; config_gets := config_gets n;
     status_gets := status_gets n; proxy_gets := proxy_gets n;
     log_gets := log_gets n; deletes := deletes n; slept := slept n;
     node_log := node_log n |}.

Definition count_config_get (n : node) : node :=
  {| system_exists := system_exists n; config_gets := S (config_gets n);
     status_gets := status_gets n; proxy_gets := proxy_gets n;
     log_gets := log_gets n; deletes := deletes n; slept := slept n;
     node_log := node_log n |}.

Definition count_status_get (n : node) : node :=
  {| system_exists := system_exists n; config_gets := config_gets n;
     status_gets := S (status_gets n); proxy_gets := proxy_gets n;
     log_gets := log_gets n; deletes := deletes n; slept := slept n;
     node_log := node_log n |}.

Definition count_proxy_get (n : node) : node :=
  {| system_exists := system_exists n; config_gets := config_gets n;
     status_gets := status_gets n; proxy_gets := S (proxy_gets n);
     log_gets := log_gets n; deletes := deletes n; slept := slept n;
     node_log := node_log n |}.

Definition count_log_get (n : node) : node :=
  {| system_exists := system_exists n; config_gets := config_gets n;
     status_gets := status_gets n; proxy_gets := proxy_gets n;
     log_gets := S (log_gets n); deletes := deletes n; slept := slept n;
     node_log := node_log n |}.

Definition count_delete (n : node) : node :=
  {| system_exists := false; config_gets := config_gets n;
     status_gets := status_gets n; proxy_gets := proxy_gets n;
     log_gets := log_gets n; deletes := S (deletes n); slept := slept n;
     node_log := node_log n |}.

Definition add_slept (secs : Q) (n : node) : node :=
  {| system_exists := system_exists n; config_gets := config_gets n;
     status_gets := status_gets n; proxy_gets := proxy_gets n;
     log_gets := log_gets n; deletes := deletes n;
     slept := (slept n + secs)%Q; node_log := node_log n |}.

#[global] Instance node_logger : Logger node := fun r n =>
  {| system_exists := system_exists n; config_gets := config_gets n;
     status_gets := status_gets n; proxy_gets := proxy_gets n;
     log_gets := log_gets n; deletes := deletes n; slept := slept n;
     node_log := (node_log n ++ [r])%list |}.

Definition Qpositive (q : Q) : bool := negb (Qle_bool q 0).

(** [time.sleep(secs)] *)
Definition sleep (secs : Q) : prog node () :=
  if Qle_bool 0 secs then modify (add_slept secs) else raise ValueError.

Definition json_is_str (v : json) (s : string) : bool :=
  match v with
  | JStr t => String.eqb t s
  | _ => false
  end.

(** [s.split(sep)] for a one-character separator *)
Fixpoint split_from (sep : ascii) (acc : string) (s : string) : list string :=
  match s with
  | EmptyString => [acc]
  | String c rest =>
      if Ascii.eqb c sep then acc :: split_from sep EmptyString rest
      else split_from sep (acc ++ String c EmptyString) rest
  end.

Definition split (s : string) (sep : ascii) : list string :=
  split_from sep EmptyString s.

Section scheduler.
Context (args : Args.t) (env : replies).

(** *** [SesamNode] *)

Definition get_system : prog node bool := gets system_exists.

Definition remove_system : prog node () :=
  log TRACE (Text "Remove system");;
  system ← get_system;
  if (system : bool) then modify count_delete
  else log WARNING (Text "Could not remove system as it doesn't exist").

Definition get_system_log : prog node string :=
  k ← gets log_gets;
  modify count_log_get;;
  lift (log_reply env k).

(** The [while timeout > 0] loop of [add_system] *)
Fixpoint verify_posted (steps : nat) (timeout : Q) : prog node bool :=
  if Qpositive timeout then
    match steps with
    | O => out_of_steps
    | S steps' =>
        k ← gets config_gets;
        modify count_config_get;;
        if config_matches env k then
          log DEBUG (Text "Posted system verified OK!");;
          mret true
        else
          sleep 5;;
          verify_posted steps' (timeout - 5)%Q
    end
  else
    log DEBUG (Text "Failed to verify posted system!");;
    mret false.

Definition add_system (steps : nat) (verify : bool) (timeout : Q)
  : prog node bool :=
  log TRACE (Text "Add system");;
  modify (set_system_exists true);;
  if negb verify then mret true
  else
    log DEBUG (Text "Verifying posted system..");;
    verify_posted steps timeout.

(** The [while timeout > 0] loop of [wait_for_microservice] *)
Fixpoint wait_running (steps : nat) (timeout : Q) : prog node bool :=
  if Qpositive timeout then
    match steps with
    | O => out_of_steps
    | S steps' =>
        k ← gets status_gets;
        modify count_status_get;;
        if reports_running env k then mret true
        else
          sleep 5;;
          wait_running steps' (timeout - 5)%Q
    end
  else mret false.

Definition wait_for_microservice (steps : nat) (timeout : Q)
  : prog node bool :=
  system ← get_system;
  if negb system
  then raise (AssertionError "Microservice system doesn't exist")
  else wait_running steps timeout.

Definition microservice_get_proxy_request : prog node json :=
  system ← get_system;
  if negb system
  then raise (AssertionError "Microservice system doesn't exist")
  else
    k ← gets proxy_gets;
    modify count_proxy_get;;
    lift (proxy_reply env k).

(** [microservice_post_proxy_request(scheduler_id, "start", ...)] *)
Definition microservice_post_proxy_request : prog node () :=
  system ← get_system;
  if negb system
  then raise (AssertionError "Microservice system doesn't exist")
  else lift (start_reply env).

(** *** [SesamCmdClient.get_scheduler_status] *)

Definition get_scheduler_status : prog node json :=
  returned ←
    try_except
      (status_json ← microservice_get_proxy_request;
       match status_json with
       | JDict entries =>
           match dict_get "state" entries with
           | Some state => mret (Some state)
           | None => raise (KeyError "state")
           end
       | _ =>
           log DEBUG (Text "The scheduler status endpoint returned a non-json reply!");;
           mret None
       end)
      (fun e =>
         log ERROR (Text "Failed to get scheduler status");;
         raise e);
  match returned with
  | Some state => mret state
  | None => mret (JStr "unknown")
  end.

(** *** [SesamCmdClient.print_scheduler_log] *)

Definition print_scheduler_log (since : option string)
  : prog node (option string) :=
  try_except
    (log_output ← get_system_log;
     for_each
       (fun (last_since : option string) (line : string) =>
          let log_line := split line " " in
          log INFO (Text (String.concat " " (tail log_line)));;
          mret (head log_line))
       (List.filter (fun e => negb (String.eqb e "")) (split log_output "010"))
       None)
    (fun e =>
       log WARNING (Text "Failed to get scheduler log..");;
       mret since).

(** *** [SesamCmdClient.start_scheduler] *)

(** The [while sleep_interval > 0] loop; it returns [timeout]. *)
Fixpoint await_init (steps : nat) (sleep_interval timeout : Q)
  : prog node Q :=
  if Qpositive sleep_interval then
    match steps with
    | O => out_of_steps
    | S steps' =>
        break ←
          try_except
            (status ← get_scheduler_status;
             mret (json_is_str status "init"))
            (fun e => mret false);
        if (break : bool) then mret timeout
        else
          sleep sleep_interval;;
          await_init steps' sleep_interval (timeout - sleep_interval)%Q
    end
  else mret timeout.

(** The [try] block. Its first statements, which put a fresh agent in
    place of the one that may be there, are [provision]. *)
Definition provision (steps : nat) : prog node () :=
  system ← get_system;
  (if (system : bool) then
     log DEBUG (Text "Removing existing scheduler system...");;
     remove_system
   else skip);;
  if negb (Args.custom_scheduler args) then
    log DEBUG (Text "Adding scheduler microservice");;
    added ← add_system steps true 300;
    if negb added then
      log ERROR (Text "Scheduler config failed to load!");;
      raise (RuntimeError "Failed to initialise scheduler")
    else skip
  else skip.

Definition start_scheduler_try (steps : nat) (timeout : Q) : prog node () :=
  provision steps;;
  up ← wait_for_microservice steps timeout;
  (if negb up
   then raise (RuntimeError "Timed out waiting for scheduler to load")
   else skip);;
  let sleep_interval :=
    (inject_Z (Args.scheduler_poll_frequency args) / 1000)%Q in
  timeout ← await_init steps sleep_interval timeout;
  (if Qle_bool sleep_interval 0 then
     log ERROR (Text "Scheduler failed to initialise");;
     raise (RuntimeError "Failed to initialise scheduler")
   else skip);;
  log DEBUG (Text "Starting the scheduler...");;
  microservice_post_proxy_request;;
  log DEBUG (Text "Scheduler started").

(** The [except BaseException as e] block *)
Definition start_scheduler_except (e : exn) : prog node () :=
  log ERROR (Text "Failed to start the scheduler microservice");;
  scheduler_log ← get_system_log;
  log DEBUG (Text ("Scheduler log: " ++ scheduler_log));;
  (if Args.extra_verbose args then log ERROR (ExceptionInfo e) else skip);;
  if negb (Args.dont_remove_scheduler args) then
    try_except
      (log DEBUG (Text "Removing scheduler microservice");;
       remove_system)
      (fun e2 =>
         log ERROR (Text "Failed to remove scheduler microservice");;
         if Args.extra_verbose args then log ERROR (ExceptionInfo e2)
         else skip)
  else log DEBUG (Text "Leaving scheduler microservice in sesam").

Definition start_scheduler (steps : nat) (timeout : Q) : prog node () :=
  try_except (start_scheduler_try steps timeout) start_scheduler_except.

(** *** [SesamCmdClient.run] *)

(** How the [while True] loop is left: by [break] or by [return]. *)
Inductive loop_exit : Type := Break | Return.

Fixpoint poll_scheduler (steps : nat) (since : option string)
  : prog node loop_exit :=
  match steps with
  | O => out_of_steps
  | S steps' =>
      since ←
        (if Args.print_scheduler_log args then print_scheduler_log since
         else mret since);
      status ← get_scheduler_status;
      if json_is_str status "success" then
        log DEBUG (Text "Scheduler finished successfully");;
        mret Break
      else if json_is_str status "failed" then
        log ERROR (Text "Scheduler finished with failure");;
        mret Return
      else
        sleep (inject_Z (Args.scheduler_poll_frequency args) / 1000)%Q;;
        poll_scheduler steps' since
  end.

Definition run (steps : nat) : prog node () :=
  log INFO (Text "Executing scheduler...");;
  start_scheduler steps 300;;
  exit ←
    try_finally
      (try_except
         (poll_scheduler steps None)
         (fun e =>
            log ERROR (Text "Failed to run scheduler");;
            raise e))
      (if negb (Args.dont_remove_scheduler args) then remove_system else skip);
  match exit with
  | Break => log INFO (Text "Successfully ran all pipes to completion")
  | Return => skip
  end.

End scheduler.

(** The node after [remove_system]. *)
Definition removed (n : node) : node :=
  let n' := emit (TRACE, Text "Remove system") n in
  if system_exists n then count_delete n'
  else emit (WARNING, Text "Could not remove system as it doesn't exist") n'.

(** A reply of the status endpoint with the given state. *)
Definition state_reply (state : string) : exc json :=
  Ok (JDict [("state", JStr state)]).

(** [n'] has the registration and the count of status requests of [n]. *)
Definition same_polling (n n' : node) : Prop :=
  system_exists n' = system_exists n ∧ proxy_gets n' = proxy_gets n.

Definition fresh_node : node :=
  {| system_exists := false; config_gets := 0; status_gets := 0;
     proxy_gets := 0; log_gets := 0; deletes := 0; slept := 0;
     node_log := [] |}.

(** ** The scenarios of the specification *)

Module Scenario.

(** A test spec [expected/p.test.json] with the given entries. *)
Definition spec (entries : list (string * json)) : TestSpec :=
  TestSpec_of "expected/p.test.json" entries.

Definition entity (id : string) (fields : list (string * json)) : json :=
  JDict (("_id", JStr id) :: fields).

(** Blacklist scenario *)
Definition blacklist_spec : TestSpec := spec [("blacklist", JList [JStr "meta.*"])].
Definition blacklist_record : json :=
  entity "x" [("meta", JDict [("ts", JInt 123)]); ("val", JInt 1)].

(** Records [a] and [b] of the comparison scenarios *)
Definition a : json := entity "a" [].
Definition b : json := entity "b" [].

(** A record whose field [v] holds the given number *)
Definition with_v (v : json) : json := entity "a" [("v", v)].

(** Ignore scenario: the spec file [expected/foo.test.json] says
    [ignore] and the baseline [expected/foo.json] exists. In
    [ignore_disk] the spec leaves the file entry to its default, in
    [ignore_disk_named] it names the baseline relative to the expected
    directory. *)
Definition ignore_disk : disk :=
  {| files := {[ "expected/foo.test.json" := JsonDoc (JDict [("ignore", JBool true)]);
                 "expected/foo.json" := JsonDoc (JList []) ]};
     disk_log := [] |}.

Definition ignore_disk_named : disk :=
  {| files := {[ "expected/foo.test.json" :=
                   JsonDoc (JDict [("ignore", JBool true); ("file", JStr "foo.json")]);
                 "expected/foo.json" := JsonDoc (JList []) ]};
     disk_log := [] |}.

(** Scheduler scenarios: the default arguments, a node that stores
    the posted configuration and starts the microservice at once, and
    the status endpoint answering [states] in turn and [rest] ever
    after. *)
Definition args : Args.t :=
  {| Args.custom_scheduler := false; Args.dont_remove_scheduler := false;
     Args.print_scheduler_log := false; Args.extra_verbose := false;
     Args.scheduler_poll_frequency := 5000 |}.

Definition answering (answers : list (exc json)) (rest : exc json) : replies :=
  {| config_matches := fun _ => true;
     reports_running := fun _ => true;
     proxy_reply := fun k => nth k answers rest;
     log_reply := fun _ => Ok "";
     start_reply := Ok () |}.

Definition statuses (states : list string) (rest : string) : replies :=
  answering (map state_reply states) (state_reply rest).

(** A node on which the microservice is registered *)
Definition registered : node := set_system_exists true fresh_node.

(** A node whose microservice never reports that it runs *)
Definition never_running : replies :=
  {| config_matches := fun _ => true;
     reports_running := fun _ => false;
     proxy_reply := fun _ => state_reply "init";
     log_reply := fun _ => Ok "";
     start_reply := Ok () |}.

(** Config-sync scenario *)
Definition local_config : list (string * string) :=
  [("a.json", "{}"); ("b.json", "{}")].
Definition remote_config : list (string * string) :=
  [("b.json", "{}"); ("c.json", "{}")].

End Scenario.

(** ** What the entity filter leaves

    [filtered_keys test_spec parent_path value]: of the keys of [value]
    that start with an underscore only [_id] and a [_deleted] that is
    True are there; for every other key [is_path_blacklisted] answers
    False on [parent_path + [key]], and its value is of the same kind;
    the items of a list are of that kind. *)

Fixpoint filtered_keys (test_spec : TestSpec) (parent_path : list string)
  (value : json) : bool :=
  match value with
  | JDict entries =>
      forallb
        (fun kv =>
           if startswith kv.1 "_" then keeps_underscore_key kv.1 kv.2
           else
             match is_path_blacklisted test_spec (parent_path ++ [kv.1])%list with
             | Ok false => filtered_keys test_spec parent_path kv.2
             | _ => false
             end)
        entries
  | JList items => forallb (filtered_keys test_spec parent_path) items
  | _ => true
  end.

(** [value] is neither a dict nor a list. *)
Definition is_scalar (value : json) : bool :=
  match value with
  | JDict _ | JList _ => false
  | _ => true
  end.

(** ** Values that differ in the order of their keys only

    A Python dict has each key once; [same_but_key_order v v'] says that
    [v'] is [v] with the entries of its dicts, at any depth, in another
    order. *)

Inductive same_but_key_order : json → json → Prop :=
| same_scalar v :
    is_scalar v = true → same_but_key_order v v
| same_list items items' :
    Forall2 same_but_key_order items items' →
    same_but_key_order (JList items) (JList items')
| same_dict entries entries' entries'' :
    Forall2 (fun kv kv' => kv.1 = kv'.1 ∧ same_but_key_order kv.2 kv'.2)
      entries entries' →
    entries' ≡ₚ entries'' →
    NoDup (map fst entries) →
    same_but_key_order (JDict entries) (JDict entries'').

(** ** More of Python's strings

    [s.find(sub)], [s[lo:hi]] (an index below zero counts from the end,
    and both are cut to the ends of [s]) and [s.split(sep)] for a
    separator of any length. *)

Definition py_find (s sub : string) : Z :=
  match String.index 0 sub s with
  | Some i => Z.of_nat i
  | None => (-1)%Z
  end.

Definition slice_index (len : nat) (i : Z) : nat :=
  Z.to_nat (Z.min (Z.of_nat len)
              (if (i <? 0)%Z then Z.max 0 (Z.of_nat len + i) else i)).

Definition py_slice (s : string) (lo hi : Z) : string :=
  let l := slice_index (String.length s) lo in
  let h := slice_index (String.length s) hi in
  String.substring l (h - l) s.

(** [s[lo:]] *)
Definition py_slice_from (s : string) (lo : Z) : string :=
  py_slice s lo (Z.of_nat (String.length s)).

Fixpoint split_str_from (sep : string) (skip : nat) (acc : string) (s : string)
  : list string :=
  match s with
  | EmptyString => [acc]
  | String c rest =>
      match skip with
      | S k => split_str_from sep k acc rest
      | O =>
          if String.prefix sep s
          then acc :: split_str_from sep (String.length sep - 1) EmptyString rest
          else split_str_from sep 0 (acc ++ String c EmptyString) rest
      end
  end.

Definition split_str (s sep : string) : list string :=
  split_str_from sep 0 EmptyString s.

(** [str(data, encoding="utf-8")] raises [UnicodeDecodeError], which is a
    [ValueError], unless [data] is well-formed UTF-8. [due] continuation
    bytes are still to come, the next of them between [lo] and [hi]. *)
Fixpoint utf8_from (due : nat) (lo hi : N) (data : string) : bool :=
  match data with
  | EmptyString => match due with O => true | S _ => false end
  | String c rest =>
      let b := N_of_ascii c in
      match due with
      | S k => (lo <=? b)%N && (b <=? hi)%N && utf8_from k 128 191 rest
      | O =>
          if (b <? 128)%N then utf8_from 0 128 191 rest
          else if (194 <=? b)%N && (b <=? 223)%N then utf8_from 1 128 191 rest
          else if (b =? 224)%N then utf8_from 2 160 191 rest
          else if (b =? 237)%N then utf8_from 2 128 159 rest
          else if (225 <=? b)%N && (b <=? 239)%N then utf8_from 2 128 191 rest
          else if (b =? 240)%N then utf8_from 3 144 191 rest
          else if (241 <=? b)%N && (b <=? 243)%N then utf8_from 3 128 191 rest
          else if (b =? 244)%N then utf8_from 3 128 143 rest
          else false
      end
  end.

Definition utf8_valid (data : string) : bool := utf8_from 0 128 191 data.

(** ** [SesamCmdClient.find_xml_header_settings] *)

Definition squote : string := "'".

(** [arg[1:endix]] with [endix = arg[1:].find(quote)] *)
Definition quoted_standalone (arg quote : string) : string :=
  let endix := py_find (py_slice_from arg 1) quote in
  py_slice arg 1 endix.

Definition find_xml_header_settings (xml_data : string)
  : exc (bool * option string) :=
  let '(xml_declaration, standalone) :=
    if startswith xml_data "<?xml " then
      let end_decl := py_find xml_data "?>" in
      if (end_decl >? -1)%Z then
        let xmldecl := py_slice xml_data 0 end_decl in
        match split_str xmldecl "standalone=" with
        | _ :: arg :: _ =>
            if startswith arg Dumps.dquote
            then (true, Some (quoted_standalone arg Dumps.dquote))
            else if startswith arg squote
            then (true, Some (quoted_standalone arg squote))
            else (true, None)
        | _ => (true, None)
        end
      else (true, None)
    else (false, None) in
  match standalone with
  | Some data =>
      if utf8_valid data then Ok (xml_declaration, Some data)
      else Raise ValueError
  | None => Ok (xml_declaration, None)
  end.

(** ** [SesamCmdClient._coalesce] and the end of
    [get_node_and_jwt_token]

    The node url and the token are looked for on the command line, in
    the environment and in [.syncconfig], in that order. [None] as the
    result: the call raises [AttributeError], a method of [None] having
    been asked for. *)

Fixpoint _coalesce {A : Type} (items : list (option A)) : option A :=
  match items with
  | [] => None
  | Some item :: _ => Some item
  | None :: rest => _coalesce rest
  end.

Definition jwt_token_of (jwt_token : option string) : option string :=
  let jwt_token :=
    match jwt_token with
    | Some s =>
        if negb (String.eqb s "") && startswith s Dumps.dquote
           && String.eqb (py_slice_from s (-1)) Dumps.dquote
        then Some (py_slice s 1 (-1))
        else Some s
    | None => None
    end in
  s ← jwt_token;
  let s := if startswith s "bearer " then replace s "bearer " "" else s in
  let s := if startswith s "Bearer " then replace s "Bearer " "" else s in
  Some s.

Definition node_url_of (node_url : option string) : option string :=
  s ← node_url;
  let s := replace s Dumps.dquote "" in
  let s := if negb (startswith s "http") then "https://" ++ s else s in
  let s := if negb (String.eqb (py_slice_from s (-4)) "/api") then s ++ "/api" else s in
  Some s.

Definition get_node_and_jwt_token (nodes jwts : list (option string))
  : option (string * string) :=
  let node_url := _coalesce nodes in
  let jwt_token := _coalesce jwts in
  jwt_token ← jwt_token_of jwt_token;
  node_url ← node_url_of node_url;
  Some (node_url, jwt_token).

(** ** Pipes and [SesamNode.get_pipe_type]

    A pipe as [sesamclient] hands it over: its id and its [config], a
    dict. [None] as the result: the call raises ([KeyError] for a config
    without [effective], [AttributeError] where a [get] is asked of
    something that is not a dict). *)

Module Pipe.
Record t : Type := {
  id : string;
  config : list (string * json)
}.
End Pipe.

(** [bool(v)] *)
Definition py_truthy (v : json) : bool :=
  match v with
  | JNull => false
  | JBool b => b
  | JInt n => negb (n =? 0)%Z
  | JFloat text => negb (String.eqb text "0.0" || String.eqb text "-0.0")
  | JStr s => negb (String.eqb s "")
  | JList items => match items with [] => false | _ :: _ => true end
  | JDict entries => match entries with [] => false | _ :: _ => true end
  end.

(** [o.get(key, dflt)] *)
Definition py_get (o : json) (key : string) (dflt : json) : option json :=
  match o with
  | JDict entries => Some (default dflt (dict_get key entries))
  | _ => None
  end.

Definition ends_with_endpoint (sink_type : json) : bool :=
  match sink_type with
  | JStr s => endswith s "_endpoint"
  | _ => false
  end.

Definition get_pipe_type (pipe : Pipe.t) : option string :=
  effective ← dict_get "effective" (Pipe.config pipe);
  source_config ← py_get effective "source" (JDict []);
  sink_config ← py_get effective "sink" (JDict []);
  source_type ← py_get source_config "type" (JStr "");
  sink_type ← py_get sink_config "type" (JStr "");
  if json_is_str source_type "embedded" then Some "input"
  else if ends_with_endpoint sink_type then Some "endpoint"
  else
    source_dataset ← py_get source_config "dataset" JNull;
    source_datasets ←
      (if py_truthy source_dataset then Some source_dataset
       else py_get source_config "datasets" JNull);
    both ←
      (if py_truthy source_datasets then py_get sink_config "dataset" JNull
       else Some source_datasets);
    if py_truthy both then Some "internal"
    else
      sink_dataset ← py_get sink_config "dataset" JNull;
      if negb (py_truthy sink_dataset) then Some "output"
      else Some "internal".

(** [[p for p in pipes if self.get_pipe_type(p) == pipe_type]] *)
Fixpoint pipes_of_type (pipe_type : string) (pipes : list Pipe.t)
  : option (list Pipe.t) :=
  match pipes with
  | [] => Some []
  | p :: rest =>
      t ← get_pipe_type p;
      found ← pipes_of_type pipe_type rest;
      Some (if String.eqb t pipe_type then p :: found else found)
  end.

Definition get_output_pipes := pipes_of_type "output".
Definition get_input_pipes := pipes_of_type "input".
Definition get_endpoint_pipes := pipes_of_type "endpoint".
Definition get_internal_pipes := pipes_of_type "internal".

(** ** The baseline of a test spec: [expected_data],
    [expected_entities] and [update_expected_data]

    The three of them look for the file in [expected/] unless its name
    starts there already. Reading is a function of the files. What
    [update_expected_data] is given is kept as the file the bytes make:
    a document for bytes that [json.load] decodes, the bytes themselves
    otherwise. *)

Definition expected_filename (filename : string) : string :=
  if negb (startswith filename "expected/") then "expected/" ++ filename
  else filename.

(** The file a spec names; the entry is a string unless the spec file
    overrides it with something else, which is not modelled. *)
Definition baseline_of (t : TestSpec) : exc string :=
  match TestSpec_file t with
  | Some (JStr filename) => Ok (expected_filename filename)
  | _ => Raise (NotModelled "a file that is not a string")
  end.

Definition read_data (fs : gmap string file_data) (t : TestSpec) : exc string :=
  filename ← baseline_of t;
  match fs !! filename with
  | None => Raise (FileNotFoundError filename)
  | Some (RawData data) => Ok data
  | Some (JsonDoc _) => Raise (NotModelled "the bytes of a file kept as its document")
  end.

Definition read_entities (fs : gmap string file_data) (t : TestSpec) : exc json :=
  filename ← baseline_of t;
  match fs !! filename with
  | None => Raise (FileNotFoundError filename)
  | Some (JsonDoc doc) => Ok doc
  | Some (RawData _) => Raise JSONDecodeError
  end.

Definition expected_data (t : TestSpec) : prog disk string :=
  fs ← gets files; lift (read_data fs t).

Definition expected_entities (t : TestSpec) : prog disk json :=
  fs ← gets files; lift (read_entities fs t).

Definition update_expected_data (t : TestSpec) (data : file_data) : prog disk () :=
  filename ← lift (baseline_of t);
  there ← isfile filename;
  (if negb there
   then log DEBUG (Text ("Creating new expected data file '" ++ filename ++ "'"))
   else skip);;
  write_file filename data.

(** ** [SesamCmdClient.verify] and [SesamCmdClient.update], for the
    test specs of the ["json"] endpoint

    [pipes] is what the node answers to [get_pipes], [entities pipe_id]
    the decoded body of the entities of a pipe, or what the request
    raises. [output_pipes] is a dict keyed by pipe id: the loops go
    through its keys in the order of their first insertion. The
    comparison of XML and of raw bytes is not modelled. *)

(** [json.load] of what [json.dumps(..., sort_keys=True)] wrote: the
    same value, the entries of every dict in key order. *)
Fixpoint sort_keys (value : json) : json :=
  match value with
  | JDict entries =>
      JDict (py_sorted key_lt (map (fun kv => (kv.1, sort_keys kv.2)) entries))
  | JList items => JList (map sort_keys items)
  | _ => value
  end.

Definition str_of_nat (n : nat) : string := NilZero.string_of_uint (Nat.to_uint n).

Definition add_key (keys : list string) (key : string) : list string :=
  if bool_decide (key ∈ keys) then keys else (keys ++ [key])%list.

Definition dict_keys (ids : list string) : list string := fold_left add_key ids [].

Definition is_json_endpoint (t : TestSpec) : bool :=
  match TestSpec_endpoint t with
  | Some endpoint => json_is_str endpoint "json"
  | None => false
  end.

Section verify.
Context (pipes : list Pipe.t) (entities : string → exc json).

Definition output_pipe_ids : prog disk (list string) :=
  match get_output_pipes pipes with
  | Some output =>
      match get_endpoint_pipes pipes with
      | Some endpoint => mret (dict_keys (map Pipe.id (output ++ endpoint)))
      | None => raise (NotModelled "a pipe whose type cannot be told")
      end
  | None => raise (NotModelled "a pipe whose type cannot be told")
  end.

(** [sorted([self.filter_entity(e, test_spec) for e in
    self.sesam_node.get_pipe_entities(pipe)], key=lambda e: e['_id'])] *)
Definition current_output_of (test_spec : TestSpec) (pipe_id : string)
  : exc (list json) :=
  resp_json ← entities pipe_id;
  fetched ← py_iter (get_pipe_entities resp_json);
  filtered ← mapM (fun e => filter_entity e test_spec) fetched;
  sorted_by_id filtered.

(** The comparison of one test spec, as a function of the files. *)
Definition spec_result (fs : gmap string file_data) (pipe_id : string)
  (test_spec : TestSpec) : exc verify_result :=
  expected_output ← read_entities fs test_spec;
  resp_json ← entities pipe_id;
  verify_json test_spec expected_output resp_json.

(** The spec is skipped or it is a json spec: the specs that
    [verify_spec] below handles as the source does. *)
Definition is_json_or_ignored (test_spec : TestSpec) : bool :=
  TestSpec_ignore test_spec || is_json_endpoint test_spec.

(** The comparison is skipped or made without raising; it is made and
    finds a difference. *)
Definition spec_runs (fs : gmap string file_data) (pipe_id : string)
  (test_spec : TestSpec) : bool :=
  TestSpec_ignore test_spec
  || match spec_result fs pipe_id test_spec with
     | Ok _ => true
     | Raise _ => false
     end.

Definition spec_fails (fs : gmap string file_data) (pipe_id : string)
  (test_spec : TestSpec) : bool :=
  negb (TestSpec_ignore test_spec)
  && match spec_result fs pipe_id test_spec with
     | Ok result => failed result
     | Raise _ => false
     end.

(** The spec is within what is embedded: it is skipped, or it is a
    json spec and its comparison does not come to a value whose
    handling is left out (identities that are not strings, a file entry
    that is not a string). *)
Definition spec_embedded (fs : gmap string file_data) (pipe_id : string)
  (test_spec : TestSpec) : bool :=
  TestSpec_ignore test_spec
  || (is_json_endpoint test_spec
      && match spec_result fs pipe_id test_spec with
         | Raise (NotModelled _) => false
         | _ => true
         end).

Definition verify_spec (pipe_id : string) (failed_tests : list TestSpec)
  (test_spec : TestSpec) : prog disk (list TestSpec) :=
  if TestSpec_ignore test_spec then
    log DEBUG (Text "Skipping test spec because it was marked as 'ignore'");;
    mret failed_tests
  else if is_json_endpoint test_spec then
    expected_output ← expected_entities test_spec;
    resp_json ← lift (entities pipe_id);
    result ← lift (verify_json test_spec expected_output resp_json);
    for_each (fun _ record => modify (emit record)) (logged result) ();;
    mret (if failed result then (failed_tests ++ [test_spec])%list else failed_tests)
  else raise (NotModelled "an endpoint other than json").

Definition verify_pipe (test_specs : gmap string (list TestSpec))
  (failed_tests : list TestSpec) (pipe_id : string) : prog disk (list TestSpec) :=
  log DEBUG (Text ("Verifying pipe '" ++ pipe_id ++ "'.."));;
  match test_specs !! pipe_id with
  | Some specs => for_each (verify_spec pipe_id) specs failed_tests
  | None => mret failed_tests
  end.

Definition pipe_str (t : TestSpec) : string :=
  match TestSpec_pipe t with
  | Some (JStr pipe_id) => pipe_id
  | _ => ""
  end.

Definition verify : prog disk () :=
  log INFO (Text "Verifying that expected output matches current output...");;
  output_pipes ← output_pipe_ids;
  test_specs ← load_test_specs output_pipes false;
  if bool_decide (test_specs = ∅)
  then raise (AssertionError "Found no tests (*.test.json) to run")
  else
    failed_tests ← for_each (verify_pipe test_specs) output_pipes [];
    match failed_tests with
    | _ :: _ =>
        log ERROR (Text ("Failed " ++ str_of_nat (List.length failed_tests) ++ " of "
                         ++ str_of_nat (size test_specs) ++ " tests!"));;
        log ERROR (Text "Failed pipe id (spec file):");;
        for_each
          (fun _ failed_test_spec =>
             log ERROR (Text (pipe_str failed_test_spec ++ " ("
                              ++ _spec_file failed_test_spec ++ ")")))
          failed_tests ();;
        raise (RuntimeError "Verify failed")
    | [] =>
        log INFO (Text ("All tests passed! Ran " ++ str_of_nat (size test_specs)
                        ++ " tests."))
    end.

Definition update_spec (pipe_id : string) (i : nat) (test_spec : TestSpec)
  : prog disk nat :=
  if TestSpec_ignore test_spec then
    log DEBUG (Text "Skipping test spec because it was marked as 'ignore'");;
    mret i
  else
    log DEBUG (Text ("Updating spec for pipe '" ++ pipe_id ++ "'.."));;
    current_output ←
      (if is_json_endpoint test_spec then
         current_output ← lift (current_output_of test_spec pipe_id);
         mret (JsonDoc (sort_keys (JList current_output)))
       else raise (NotModelled "an endpoint other than json"));
    update_expected_data test_spec current_output;;
    mret (S i).

Definition update_pipe (test_specs : gmap string (list TestSpec))
  (i : nat) (pipe_id : string) : prog disk nat :=
  match test_specs !! pipe_id with
  | Some specs =>
      log DEBUG (Text ("Updating pipe '" ++ pipe_id ++ "'.."));;
      for_each (update_spec pipe_id) specs i
  | None => mret i
  end.

Definition update : prog disk () :=
  log INFO (Text "Updating expected output from current output...");;
  output_pipes ← output_pipe_ids;
  test_specs ← load_test_specs output_pipes true;
  if bool_decide (test_specs = ∅)
  then raise (AssertionError "Found no tests (*.test.json) to update")
  else
    i ← for_each (update_pipe test_specs) output_pipes 0%nat;
    log INFO (Text (str_of_nat i ++ " tests updated!")).

End verify.

(** A verification scenario: the output pipes [p] and [q], each with a
    spec file that holds an empty object, and a baseline for each. *)

Module VerifyScenario.

Definition output_pipe (pipe_id : string) : Pipe.t :=
  {| Pipe.id := pipe_id;
     Pipe.config :=
       [("effective",
         JDict [("source", JDict [("type", JStr "dataset"); ("dataset", JStr "in")]);
                ("sink", JDict [("type", JStr "dataset")])])] |}.

Definition pipes : list Pipe.t := [output_pipe "p"; output_pipe "q"].

Definition baselines (expected_p expected_q : json) : disk :=
  {| files := {[ "expected/p.test.json" := JsonDoc (JDict []);
                 "expected/p.json" := JsonDoc expected_p;
                 "expected/q.test.json" := JsonDoc (JDict []);
                 "expected/q.json" := JsonDoc expected_q ]};
     disk_log := [] |}.

Definition test_specs : gmap string (list TestSpec) :=
  {[ "p" := [TestSpec_of "expected/p.test.json" []];
     "q" := [TestSpec_of "expected/q.test.json" []] ]}.

(** Both pipes hold the record [a]. *)
Definition entities (pipe_id : string) : exc json := Ok (JList [Scenario.a]).

End VerifyScenario.

(** ** [SesamNode.remove_all_datasets] and [SesamCmdClient.wipe]

    The node as [wipe] sees it: the ids of its datasets, and whether
    its config and its environment variables have been put to nothing.
    [wipe_replies] says which of the requests the node accepts; a
    request that raises changes nothing. *)

Record wipe_replies : Type := {
  put_config_reply : exc ();
  put_env_reply : exc ();
  delete_reply : string → exc ()
}.

Record store : Type := {
  datasets : list string;
  config_wiped : bool;
  env_wiped : bool;
  store_log : list log_record
}.

#[global] Instance store_logger : Logger store := fun r s =>
  {| datasets := datasets s; config_wiped := config_wiped s;
     env_wiped := env_wiped s; store_log := (store_log s ++ [r])%list |}.

Definition set_config_wiped (s : store) : store :=
  {| datasets := datasets s; config_wiped := true;
     env_wiped := env_wiped s; store_log := store_log s |}.

Definition set_env_wiped (s : store) : store :=
  {| datasets := datasets s; config_wiped := config_wiped s;
     env_wiped := true; store_log := store_log s |}.

Definition drop_dataset (dataset_id : string) (s : store) : store :=
  {| datasets := List.filter (fun d => negb (String.eqb d dataset_id)) (datasets s);
     config_wiped := config_wiped s;
     env_wiped := env_wiped s; store_log := store_log s |}.

Section wipe.
Context (env : wipe_replies).

(** [put_config([], force=True)] *)
Definition put_config : prog store () :=
  log TRACE (Text "PUT config");;
  lift (put_config_reply env);;
  modify set_config_wiped.

(** [put_env({})] *)
Definition put_env : prog store () :=
  log TRACE (Text "PUT env vars");;
  lift (put_env_reply env);;
  modify set_env_wiped.

(** [dataset.delete()] *)
Definition delete_dataset (dataset_id : string) : prog store () :=
  lift (delete_reply env dataset_id);;
  modify (drop_dataset dataset_id).

Definition remove_dataset (_ : ()) (dataset_id : string) : prog store () :=
  if negb (startswith dataset_id "system:") then
    try_except
      (delete_dataset dataset_id;;
       log DEBUG (Text ("Dataset '" ++ dataset_id ++ "' deleted")))
      (fun e =>
         log ERROR (Text ("Failed to delete dataset '" ++ dataset_id ++ "'"));;
         raise e)
  else skip.

Definition remove_all_datasets : prog store () :=
  log TRACE (Text "Remove alle datasets");;
  found ← gets datasets;
  for_each remove_dataset found ().

Definition wipe : prog store () :=
  log INFO (Text "Wiping node...");;
  try_except
    (put_config;; log INFO (Text "Removed pipes and systems"))
    (fun e => log ERROR (Text "Failed to wipe config");; raise e);;
  try_except
    (put_env;; log INFO (Text "Removed environment variables"))
    (fun e => log ERROR (Text "Failed to wipe environment variables");; raise e);;
  try_except
    (remove_all_datasets;; log INFO (Text "Removed datasets"))
    (fun e => log ERROR (Text "Failed to delete datasets");; raise e);;
  log INFO (Text "Successfully wiped node!").

End wipe.


(** ** [SesamCmdClient.status] over the bytes of the archives

    In [status] above an archive holds each member as decoded text.
    [ZipFile.read] returns bytes, and the loop over the local files
    decodes what it reads with [str(..., encoding="utf-8")], which
    raises a UnicodeDecodeError (a [ValueError]) on bytes that are not
    well-formed UTF-8. In this module an archive holds the bytes of its
    members. Two decoded texts are equal exactly when their bytes are,
    so a decoded text is kept as its bytes. *)

Module Bytes.

(** [str(data, encoding="utf-8")] *)
Definition decode_utf8 (data : string) : exc string :=
  if utf8_valid data then Ok data else Raise ValueError.

Definition status_local_file (local_config remote_config : list (string * string))
  (remote_files : list string)
  (st : list log_record * bool) (local_file : string)
  : exc (list log_record * bool) :=
  if negb (str_in local_file remote_files)
  then Ok ((st.1 ++ [(INFO, NotFoundInSesam local_file)])%list, true)
  else
    local_bytes ← zip_read local_config local_file;
    local_file_data ← decode_utf8 local_bytes;
    remote_bytes ← zip_read remote_config local_file;
    remote_file_data ← decode_utf8 remote_bytes;
    if negb (String.eqb local_file_data remote_file_data) then
      let diff := get_diff_string local_file_data remote_file_data
                    (Some (JStr local_file)) local_file in
      Ok ((st.1 ++ [(INFO, FileDiffers local_file); (INFO, Diff diff)])%list, true)
    else Ok st.

Fixpoint status_local_files (local_config remote_config : list (string * string))
  (remote_files : list string) (st : list log_record * bool)
  (local_files : list string) : exc (list log_record * bool) :=
  match local_files with
  | [] => Ok st
  | local_file :: rest =>
      st' ← status_local_file local_config remote_config remote_files st local_file;
      status_local_files local_config remote_config remote_files st' rest
  end.

Definition status (local_config remote_config : list (string * string))
  : exc (list log_record * bool) :=
  let remote_files := py_sorted String.ltb (namelist remote_config) in
  let local_files := py_sorted String.ltb (namelist local_config) in
  let st1 := fold_left (status_remote_file local_files) remote_files ([], false) in
  '(records, diff_found) ←
    status_local_files local_config remote_config remote_files st1 local_files;
  if (diff_found : bool) then Ok ((records ++ [(INFO, NotInSync)])%list, true)
  else Ok ((records ++ [(INFO, UpToDate)])%list, false).

End Bytes.

(** ** The scheduler when the requests for the system can fail

    In the section on the node above, reading, adding and deleting the
    scheduler system do not raise. In the source they are requests of
    the sesam client ([api_connection.get_system], [add_systems],
    [system.delete]), and the source expects them to fail: the handler
    of [start_scheduler] wraps the removal in a [try], the [finally] of
    [run] does not. The programs of this module are the same functions
    of the source with these three requests fallible.

    [system_replies] gives, for the node as it is when the request is
    made, the reply: the request is answered, or it raises. (A record
    is logged between any two requests of the same kind, so no two of
    them are made on the same node.) A request that raises leaves the
    node as it is; an answered [get_system] tells whether the system is
    registered. *)

Module Faulty.

Record system_replies : Type := {
  get_system_reply : node → exc ();
  add_systems_reply : node → exc ();
  delete_system_reply : node → exc ()
}.

(** The node answers every request for the system. *)
Definition reliable : system_replies :=
  {| get_system_reply := fun _ => Ok ();
     add_systems_reply := fun _ => Ok ();
     delete_system_reply := fun _ => Ok () |}.

(** The node answers every request but [system.delete()]. *)
Definition delete_refused : system_replies :=
  {| get_system_reply := fun _ => Ok ();
     add_systems_reply := fun _ => Ok ();
     delete_system_reply := fun _ => Raise HTTPError |}.

Section scheduler.
Context (args : Args.t) (env : replies) (faults : system_replies).

(** *** [SesamNode] *)

(** [api_connection.get_system(system_id)]: [true] for a system,
    [false] for [None] *)
Definition api_get_system : prog node bool :=
  n ← gets (fun n : node => n);
  lift (get_system_reply faults n);;
  gets system_exists.

(** [api_connection.add_systems([config])] *)
Definition api_add_systems : prog node () :=
  n ← gets (fun n : node => n);
  lift (add_systems_reply faults n);;
  modify (set_system_exists true).

(** [system.delete()] *)
Definition system_delete : prog node () :=
  n ← gets (fun n : node => n);
  lift (delete_system_reply faults n);;
  modify count_delete.

Definition get_system : prog node bool :=
  log TRACE (Text "Get system");;
  api_get_system.

Definition remove_system : prog node () :=
  log TRACE (Text "Remove system");;
  system ← api_get_system;
  if (system : bool) then system_delete
  else log WARNING (Text "Could not remove system as it doesn't exist").

(** The [while timeout > 0] loop of [add_system]. [system.config] of
    [None] raises (an AttributeError, [TypeError] here), which the
    [except] passes over like an error of the request; [config_matches]
    speaks of the reads that return a system. *)
Fixpoint verify_posted (steps : nat) (timeout : Q) : prog node bool :=
  if Qpositive timeout then
    match steps with
    | O => out_of_steps
    | S steps' =>
        verified ←
          try_except
            (system ← get_system;
             if negb system then raise TypeError
             else
               k ← gets config_gets;
               modify count_config_get;;
               if config_matches env k then
                 log DEBUG (Text "Posted system verified OK!");;
                 mret true
               else mret false)
            (fun e => mret false);
        if (verified : bool) then mret true
        else
          sleep 5;;
          verify_posted steps' (timeout - 5)%Q
    end
  else
    log DEBUG (Text "Failed to verify posted system!");;
    mret false.

Definition add_system (steps : nat) (verify : bool) (timeout : Q)
  : prog node bool :=
  log TRACE (Text "Add system");;
  api_add_systems;;
  if negb verify then mret true
  else
    log DEBUG (Text "Verifying posted system..");;
    verify_posted steps timeout.

Definition wait_for_microservice (steps : nat) (timeout : Q)
  : prog node bool :=
  system ← get_system;
  if negb system
  then raise (AssertionError "Microservice system doesn't exist")
  else wait_running env steps timeout.

Definition microservice_get_proxy_request : prog node json :=
  system ← get_system;
  if negb system
  then raise (AssertionError "Microservice system doesn't exist")
  else
    k ← gets proxy_gets;
    modify count_proxy_get;;
    lift (proxy_reply env k).

(** [microservice_post_proxy_request(scheduler_id, "start", ...)] *)
Definition microservice_post_proxy_request : prog node () :=
  system ← get_system;
  if negb system
  then raise (AssertionError "Microservice system doesn't exist")
  else lift (start_reply env).

(** *** [SesamCmdClient.get_scheduler_status] *)

Definition get_scheduler_status : prog node json :=
  returned ←
    try_except
      (status_json ← microservice_get_proxy_request;
       match status_json with
       | JDict entries =>
           match dict_get "state" entries with
           | Some state => mret (Some state)
           | None => raise (KeyError "state")
           end
       | _ =>
           log DEBUG (Text "The scheduler status endpoint returned a non-json reply!");;
           mret None
       end)
      (fun e =>
         log ERROR (Text "Failed to get scheduler status");;
         raise e);
  match returned with
  | Some state => mret state
  | None => mret (JStr "unknown")
  end.

(** *** [SesamCmdClient.start_scheduler] *)

(** The [while sleep_interval > 0] loop; it returns [timeout]. *)
Fixpoint await_init (steps : nat) (sleep_interval timeout : Q)
  : prog node Q :=
  if Qpositive sleep_interval then
    match steps with
    | O => out_of_steps
    | S steps' =>
        break ←
          try_except
            (status ← get_scheduler_status;
             mret (json_is_str status "init"))
            (fun e => mret false);
        if (break : bool) then mret timeout
        else
          sleep sleep_interval;;
          await_init steps' sleep_interval (timeout - sleep_interval)%Q
    end
  else mret timeout.

Definition provision (steps : nat) : prog node () :=
  system ← get_system;
  (if (system : bool) then
     log DEBUG (Text "Removing existing scheduler system...");;
     remove_system
   else skip);;
  if negb (Args.custom_scheduler args) then
    log DEBUG (Text "Adding scheduler microservice");;
    added ← add_system steps true 300;
    if negb added then
      log ERROR (Text "Scheduler config failed to load!");;
      raise (RuntimeError "Failed to initialise scheduler")
    else skip
  else skip.

(** The [try] block *)
Definition start_scheduler_try (steps : nat) (timeout : Q) : prog node () :=
  provision steps;;
  up ← wait_for_microservice steps timeout;
  (if negb up
   then raise (RuntimeError "Timed out waiting for scheduler to load")
   else skip);;
  let sleep_interval :=
    (inject_Z (Args.scheduler_poll_frequency args) / 1000)%Q in
  timeout ← await_init steps sleep_interval timeout;
  (if Qle_bool sleep_interval 0 then
     log ERROR (Text "Scheduler failed to initialise");;
     raise (RuntimeError "Failed to initialise scheduler")
   else skip);;
  log DEBUG (Text "Starting the scheduler...");;
  microservice_post_proxy_request;;
  log DEBUG (Text "Scheduler started").

(** The [except BaseException as e] block *)
Definition start_scheduler_except (e : exn) : prog node () :=
  log ERROR (Text "Failed to start the scheduler microservice");;
  scheduler_log ← get_system_log env;
  log DEBUG (Text ("Scheduler log: " ++ scheduler_log));;
  (if Args.extra_verbose args then log ERROR (ExceptionInfo e) else skip);;
  if negb (Args.dont_remove_scheduler args) then
    try_except
      (log DEBUG (Text "Removing scheduler microservice");;
       remove_system)
      (fun e2 =>
         log ERROR (Text "Failed to remove scheduler microservice");;
         if Args.extra_verbose args then log ERROR (ExceptionInfo e2)
         else skip)
  else log DEBUG (Text "Leaving scheduler microservice in sesam").

Definition start_scheduler (steps : nat) (timeout : Q) : prog node () :=
  try_except (start_scheduler_try steps timeout) start_scheduler_except.

(** *** [SesamCmdClient.run] *)

Fixpoint poll_scheduler (steps : nat) (since : option string)
  : prog node loop_exit :=
  match steps with
  | O => out_of_steps
  | S steps' =>
      since ←
        (if Args.print_scheduler_log args then print_scheduler_log env since
         else mret since);
      status ← get_scheduler_status;
      if json_is_str status "success" then
        log DEBUG (Text "Scheduler finished successfully");;
        mret Break
      else if json_is_str status "failed" then
        log ERROR (Text "Scheduler finished with failure");;
        mret Return
      else
        sleep (inject_Z (Args.scheduler_poll_frequency args) / 1000)%Q;;
        poll_scheduler steps' since
  end.

(** The [finally] block *)
Definition run_finally : prog node () :=
  if negb (Args.dont_remove_scheduler args) then remove_system else skip.

Definition run (steps : nat) : prog node () :=
  log INFO (Text "Executing scheduler...");;
  start_scheduler steps 300;;
  exit ←
    try_finally
      (try_except
         (poll_scheduler steps None)
         (fun e =>
            log ERROR (Text "Failed to run scheduler");;
            raise e))
      run_finally;
  match exit with
  | Break => log INFO (Text "Successfully ran all pipes to completion")
  | Return => skip
  end.

End scheduler.

End Faulty.
(* ================================================================== *)
(** * Part II: theorems                                                 *)
(* ================================================================== *)

(** ** Tactics and basic facts *)

Ltac exc_simpl :=
  repeat (cbn [mbind exc_bind fmap exc_fmap mret exc_ret] in *).

Lemma json_induction (P : json → Prop) :
  P JNull →
  (∀ b, P (JBool b)) →
  (∀ n, P (JInt n)) →
  (∀ text, P (JFloat text)) →
  (∀ s, P (JStr s)) →
  (∀ items, Forall P items → P (JList items)) →
  (∀ entries, Forall (fun kv => P kv.2) entries → P (JDict entries)) →
  ∀ v, P v.
Proof.
  intros HNull HBool HInt HFloat HStr HList HDict.
  fix IH 1. intros [ | b | n | text | s | items | entries ].
  - exact HNull.
  - apply HBool.
  - apply HInt.
  - apply HFloat.
  - apply HStr.
  - apply HList. induction items as [ | x items IHitems ];
      constructor; [ apply IH | exact IHitems ].
  - apply HDict. induction entries as [ | [k x] entries IHentries ];
      constructor; [ apply IH | exact IHentries ].
Qed.

Lemma filter_item_dict test_spec parent_path entries :
  filter_item test_spec parent_path (JDict entries)
  = JDict <$> filter_entries test_spec parent_path entries.
Proof.
  cbn [filter_item]. f_equal.
  induction entries as [ | [key value] rest IH ]; [ reflexivity | ].
  cbn [filter_entries]. unfold keeps_underscore_key. rewrite <- IH. reflexivity.
Qed.

Lemma filter_item_list test_spec parent_path items :
  filter_item test_spec parent_path (JList items)
  = JList <$> filter_items test_spec parent_path items.
Proof.
  cbn [filter_item]. f_equal.
  induction items as [ | x rest IH ]; [ reflexivity | ].
  cbn [filter_items]. rewrite <- IH. reflexivity.
Qed.

(** ** Order of strings *)

Lemma ltb_Lt a b : String.ltb a b = true ↔ String.compare a b = Lt.
Proof. unfold String.ltb. destruct (String.compare a b); split; congruence. Qed.

Lemma ltb_trans a b c :
  String.ltb a b = true → String.ltb b c = true → String.ltb a c = true.
Proof.
  rewrite !ltb_Lt. intros Hab Hbc.
  apply String_as_OT.cmp_lt. apply String_as_OT.cmp_lt in Hab, Hbc.
  exact (String_as_OT.lt_trans _ _ _ Hab Hbc).
Qed.

Lemma ltb_asym a b : String.ltb a b = true → String.ltb b a = false.
Proof.
  unfold String.ltb. rewrite (String.compare_antisym a b).
  destruct (String.compare b a); cbn; congruence.
Qed.

Lemma ltb_antisym a b :
  String.ltb a b = false → String.ltb b a = false → a = b.
Proof.
  unfold String.ltb. intros Hab Hba. apply String.compare_eq_iff.
  rewrite (String.compare_antisym a b) in Hab.
  rewrite (String.compare_antisym a b).
  destruct (String.compare b a); cbn in *; congruence.
Qed.

Lemma ltb_le_trans a b c :
  String.ltb b a = false → String.ltb c b = false → String.ltb c a = false.
Proof.
  intros Hba Hcb. destruct (String.ltb c a) eqn:Hca; [ | reflexivity ].
  destruct (String.ltb a b) eqn:Hab.
  - rewrite (ltb_trans c a b Hca Hab) in Hcb. discriminate.
  - rewrite (ltb_antisym a b Hab Hba) in Hca. congruence.
Qed.

(** ** [py_sorted] *)

Section py_sorted_facts.
Context {A : Type} (lt : A → A → bool).
Hypothesis lt_asym : ∀ a b, lt a b = true → lt b a = false.
Hypothesis le_trans : ∀ a b c, lt b a = false → lt c b = false → lt c a = false.

Lemma insert_sorted_perm x l : insert_sorted lt x l ≡ₚ x :: l.
Proof.
  induction l as [ | y rest IH ]; cbn; [ reflexivity | ].
  destruct (lt y x); [ | reflexivity ].
  rewrite IH. apply Permutation_swap.
Qed.

Lemma py_sorted_perm l : py_sorted lt l ≡ₚ l.
Proof.
  induction l as [ | x rest IH ]; cbn; [ reflexivity | ].
  rewrite insert_sorted_perm, IH. reflexivity.
Qed.

Lemma insert_sorted_sorted x l :
  StronglySorted (not_after lt) l → StronglySorted (not_after lt) (insert_sorted lt x l).
Proof.
  induction 1 as [ | y rest Hrest IH Hy ]; cbn.
  - repeat constructor.
  - destruct (lt y x) eqn:Hyx.
    + constructor; [ exact IH | ].
      rewrite insert_sorted_perm. constructor; [ | exact Hy ].
      apply lt_asym, Hyx.
    + constructor; [ constructor; assumption | ].
      constructor; [ exact Hyx | ].
      eapply Forall_impl; [ exact Hy | ].
      intros z Hz. exact (le_trans x y z Hyx Hz).
Qed.

Lemma py_sorted_sorted l : StronglySorted (not_after lt) (py_sorted lt l).
Proof.
  induction l as [ | x rest IH ]; cbn; [ constructor | ].
  apply insert_sorted_sorted, IH.
Qed.

Lemma py_sorted_unique l l' :
  l ≡ₚ l' →
  (∀ x y, x ∈ l → y ∈ l → not_after lt x y → not_after lt y x → x = y) →
  py_sorted lt l = py_sorted lt l'.
Proof.
  intros Hperm Huniq.
  apply (StronglySorted_unique_strong (not_after lt)).
  - intros x y Hx Hy. apply Huniq.
    + rewrite <- (py_sorted_perm l). exact Hx.
    + rewrite Hperm, <- (py_sorted_perm l'). exact Hy.
  - apply py_sorted_sorted.
  - apply py_sorted_sorted.
  - rewrite !py_sorted_perm. exact Hperm.
Qed.
End py_sorted_facts.

(** ** The entity filter *)

Section filter_facts.
Context (test_spec : TestSpec) (parent_path : list string).

Lemma filter_entries_idempotent entries out :
  Forall (fun kv => ∀ y, filter_item test_spec parent_path kv.2 = Ok y →
                         filter_item test_spec parent_path y = Ok y) entries →
  filter_entries test_spec parent_path entries = Ok out →
  filter_entries test_spec parent_path out = Ok out.
Proof.
  intros Hall. revert out.
  induction Hall as [ | [key value] rest Hhead Hrest IH ]; intros out Hout.
  - cbn in Hout. injection Hout as <-. reflexivity.
  - cbn [filter_entries] in Hout.
    destruct (startswith key "_") eqn:Hunder.
    + destruct (keeps_underscore_key key value) eqn:Hkeep.
      * destruct (filter_entries test_spec parent_path rest) as [ out' | ] eqn:Hrec;
          exc_simpl; [ | discriminate ].
        injection Hout as <-. cbn [filter_entries].
        rewrite Hunder, Hkeep, (IH out' eq_refl). reflexivity.
      * auto.
    + destruct (is_path_blacklisted test_spec (parent_path ++ [key])) as [ [ | ] | ] eqn:Hblack;
        exc_simpl; [ auto | | discriminate ].
      destruct (filter_item test_spec parent_path value) as [ value' | ] eqn:Hvalue;
        exc_simpl; [ | discriminate ].
      destruct (filter_entries test_spec parent_path rest) as [ out' | ] eqn:Hrec;
        exc_simpl; [ | discriminate ].
      injection Hout as <-. cbn [filter_entries].
      rewrite Hunder, Hblack. exc_simpl.
      rewrite (Hhead value' Hvalue). exc_simpl.
      rewrite (IH out' eq_refl). reflexivity.
Qed.

Lemma filter_items_idempotent items out :
  Forall (fun x => ∀ y, filter_item test_spec parent_path x = Ok y →
                        filter_item test_spec parent_path y = Ok y) items →
  filter_items test_spec parent_path items = Ok out →
  filter_items test_spec parent_path out = Ok out.
Proof.
  intros Hall. revert out.
  induction Hall as [ | x rest Hhead Hrest IH ]; intros out Hout.
  - cbn in Hout. injection Hout as <-. reflexivity.
  - cbn [filter_items] in Hout.
    destruct (filter_item test_spec parent_path x) as [ x' | ] eqn:Hx;
      exc_simpl; [ | discriminate ].
    destruct (filter_items test_spec parent_path rest) as [ out' | ] eqn:Hrec;
      exc_simpl; [ | discriminate ].
    injection Hout as <-. cbn [filter_items].
    rewrite (Hhead x' eq_refl). exc_simpl.
    rewrite (IH out' eq_refl). reflexivity.
Qed.

Lemma filter_item_idempotent item y :
  filter_item test_spec parent_path item = Ok y →
  filter_item test_spec parent_path y = Ok y.
Proof.
  revert y. induction item as [ | b | n | text | s | items IH | entries IH ]
    using json_induction; intros y Hy;
    try (cbn in Hy; injection Hy as <-; reflexivity).
  - rewrite filter_item_list in Hy.
    destruct (filter_items test_spec parent_path items) as [ out | ] eqn:Hout;
      exc_simpl; [ | discriminate ].
    injection Hy as <-. rewrite filter_item_list.
    rewrite (filter_items_idempotent items out IH Hout). reflexivity.
  - rewrite filter_item_dict in Hy.
    destruct (filter_entries test_spec parent_path entries) as [ out | ] eqn:Hout;
      exc_simpl; [ | discriminate ].
    injection Hy as <-. rewrite filter_item_dict.
    rewrite (filter_entries_idempotent entries out IH Hout). reflexivity.
Qed.

End filter_facts.

(** C5. Filtering is idempotent: filtering the filtered record, with the
    same test spec, gives the filtered record again; when the first
    filtering raises, so do both sides. *)
Theorem filter_entity_idempotent (test_spec : TestSpec) (x : json) :
  (filter_entity x test_spec ≫= fun y => filter_entity y test_spec)
  = filter_entity x test_spec.
Proof.
  unfold filter_entity.
  destruct (filter_item test_spec [] x) as [ y | e ] eqn:Hx; exc_simpl.
  - apply (filter_item_idempotent test_spec [] x y Hx).
  - reflexivity.
Qed.
(** ** [mapM] in [exc] *)

Lemma mapM_cons {A B} (f : A → exc B) x l :
  mapM f (x :: l) = (y ← f x; k ← mapM f l; Ok (y :: k)).
Proof. reflexivity. Qed.

Lemma mapM_Ok {A B} (f : A → exc B) l k :
  mapM f l = Ok k → Forall2 (fun x y => f x = Ok y) l k.
Proof.
  revert k. induction l as [ | x l IH ]; intros k Hk.
  - cbn in Hk. injection Hk as <-. constructor.
  - rewrite mapM_cons in Hk.
    destruct (f x) as [ y | ] eqn:Hx; exc_simpl; [ | discriminate ].
    destruct (mapM f l) as [ k' | ]; exc_simpl; [ | discriminate ].
    injection Hk as <-. constructor; auto.
Qed.

Lemma mapM_total {A B} (f : A → exc B) (g : A → B) l :
  Forall (fun x => f x = Ok (g x)) l → mapM f l = Ok (map g l).
Proof.
  induction 1 as [ | x l Hx Hl IH ]; [ reflexivity | ].
  rewrite mapM_cons, Hx. exc_simpl. rewrite IH. reflexivity.
Qed.

Lemma mapM_raise {A B} (f : A → exc B) (e0 : exn) l e :
  (∀ x e, f x = Raise e → e = e0) → mapM f l = Raise e → e = e0.
Proof.
  intros Hraise. induction l as [ | x l IH ]; [ discriminate | ].
  rewrite mapM_cons. destruct (f x) as [ y | ex ] eqn:Hx; exc_simpl.
  - destruct (mapM f l); exc_simpl; [ discriminate | ].
    intros [= <-]. apply IH. reflexivity.
  - intros [= <-]. exact (Hraise x ex Hx).
Qed.

(** When [f] can raise one exception only, the outcome of the loop over
    a permuted list is the permuted outcome. *)
Lemma mapM_perm {A B} (f : A → exc B) (e0 : exn) l l' :
  (∀ x e, f x = Raise e → e = e0) →
  l ≡ₚ l' →
  match mapM f l, mapM f l' with
  | Ok k, Ok k' => k ≡ₚ k'
  | Raise e, Raise e' => e = e'
  | _, _ => False
  end.
Proof.
  intros Hraise.
  induction 1 as [ | x l l' Hperm IH | x y l | l l' l'' H1 IH1 H2 IH2 ].
  - cbn. reflexivity.
  - rewrite !mapM_cons.
    destruct (f x) as [ fx | e ] eqn:Hx; exc_simpl; [ | reflexivity ].
    destruct (mapM f l), (mapM f l'); exc_simpl; try easy.
    constructor. exact IH.
  - rewrite !mapM_cons.
    destruct (f x) as [ fx | ex ] eqn:Hx, (f y) as [ fy | ey ] eqn:Hy; exc_simpl;
      try reflexivity.
    + destruct (mapM f l); exc_simpl; [ apply Permutation_swap | reflexivity ].
    + rewrite (Hraise x ex Hx), (Hraise y ey Hy). reflexivity.
  - destruct (mapM f l), (mapM f l'), (mapM f l''); try easy.
    + etransitivity; eassumption.
    + congruence.
Qed.

(** ** Identities survive normalisation and filtering *)

Lemma dict_get_fix entries :
  dict_get "_id" (map (fun kv => (kv.1, _fix_decimal_to_ints kv.2)) entries)
  = _fix_decimal_to_ints <$> dict_get "_id" entries.
Proof.
  induction entries as [ | [k v] rest IH ]; [ reflexivity | ].
  cbn [map dict_get fst snd]. destruct (String.eqb k "_id"); [ reflexivity | exact IH ].
Qed.

Lemma id_of_fix e : id_of (_fix_decimal_to_ints e) = id_of e.
Proof.
  destruct e as [ | b | n | text | s | items | entries ]; try reflexivity.
  - cbn. destruct (negb (String.eqb text "") && endswith text ".0"); reflexivity.
  - cbn [_fix_decimal_to_ints id_of]. rewrite dict_get_fix.
    destruct (dict_get "_id" entries) as [ [ | b | n | text | s | items | entries' ] | ];
      try reflexivity.
    cbn. destruct (negb (String.eqb text "") && endswith text ".0"); reflexivity.
Qed.

Lemma filter_entries_id test_spec parent_path entries out :
  filter_entries test_spec parent_path entries = Ok out →
  dict_get "_id" out = dict_get "_id" entries.
Proof.
  revert out. induction entries as [ | [key value] rest IH ]; intros out Hout.
  - cbn in Hout. injection Hout as <-. reflexivity.
  - cbn [filter_entries] in Hout. cbn [dict_get].
    destruct (String.eqb key "_id") eqn:Hid.
    + apply String.eqb_eq in Hid. subst key.
      cbn in Hout.
      destruct (filter_entries test_spec parent_path rest); exc_simpl; [ | discriminate ].
      injection Hout as <-. reflexivity.
    + destruct (startswith key "_").
      * destruct (keeps_underscore_key key value).
        -- destruct (filter_entries test_spec parent_path rest) as [ out' | ];
             exc_simpl; [ | discriminate ].
           injection Hout as <-. cbn [dict_get]. rewrite Hid. auto.
        -- auto.
      * destruct (is_path_blacklisted test_spec (parent_path ++ [key])) as [ [ | ] | ];
          exc_simpl; [ auto | | discriminate ].
        destruct (filter_item test_spec parent_path value); exc_simpl; [ | discriminate ].
        destruct (filter_entries test_spec parent_path rest) as [ out' | ];
          exc_simpl; [ | discriminate ].
        injection Hout as <-. cbn [dict_get]. rewrite Hid. auto.
Qed.

Lemma filter_entity_id test_spec e e' :
  filter_entity e test_spec = Ok e' → id_of e' = id_of e.
Proof.
  unfold filter_entity.
  destruct e as [ | b | n | text | s | items | entries ];
    try (cbn; intros [= <-]; reflexivity).
  - rewrite filter_item_list.
    destruct (filter_items test_spec [] items); exc_simpl; intros [= <-]; reflexivity.
  - rewrite filter_item_dict.
    destruct (filter_entries test_spec [] entries) as [ out | ] eqn:Hout;
      exc_simpl; intros [= <-].
    cbn [id_of]. rewrite (filter_entries_id _ _ _ _ Hout). reflexivity.
Qed.

(** The filter raises [TypeError] and nothing else. *)
Lemma any_pattern_matches_raise prop_path patterns e :
  any_pattern_matches prop_path patterns = Raise e → e = TypeError.
Proof.
  induction patterns as [ | p rest IH ]; [ discriminate | ].
  cbn [any_pattern_matches].
  destruct p; cbn; try (intros [= <-]; reflexivity).
  destruct (Fnmatch.fnmatchcase prop_path s); [ discriminate | exact IH ].
Qed.

Lemma is_path_blacklisted_raise test_spec path e :
  is_path_blacklisted test_spec path = Raise e → e = TypeError.
Proof.
  unfold is_path_blacklisted.
  destruct (TestSpec_blacklist test_spec) as [ [ | | | | | [ | p ps ] | ] | ];
    try discriminate.
  apply any_pattern_matches_raise.
Qed.

Lemma filter_items_raise test_spec parent_path items :
  Forall (fun x => ∀ e, filter_item test_spec parent_path x = Raise e →
                        e = TypeError) items →
  ∀ e, filter_items test_spec parent_path items = Raise e → e = TypeError.
Proof.
  induction 1 as [ | x rest Hx Hrest IH ]; intros e; [ discriminate | ].
  cbn [filter_items].
  destruct (filter_item test_spec parent_path x) as [ x' | ex ] eqn:Hfx;
    exc_simpl.
  - destruct (filter_items test_spec parent_path rest) eqn:Hfrest; exc_simpl;
      [ discriminate | ].
    intros [= <-]. exact (IH _ eq_refl).
  - intros [= <-]. exact (Hx _ eq_refl).
Qed.

Lemma filter_entries_raise test_spec parent_path entries :
  Forall (fun kv => ∀ e, filter_item test_spec parent_path kv.2 = Raise e →
                         e = TypeError) entries →
  ∀ e, filter_entries test_spec parent_path entries = Raise e → e = TypeError.
Proof.
  induction 1 as [ | [key value] rest Hx Hrest IH ]; intros e;
    [ discriminate | ].
  cbn [filter_entries]. cbn [snd] in Hx.
  destruct (startswith key "_").
  - destruct (keeps_underscore_key key value); [ | apply IH ].
    destruct (filter_entries test_spec parent_path rest) eqn:Hfrest; exc_simpl;
      [ discriminate | ].
    intros [= <-]. exact (IH _ eq_refl).
  - destruct (is_path_blacklisted test_spec (parent_path ++ [key]))
      as [ [ | ] | eb ] eqn:Hb; exc_simpl.
    + apply IH.
    + destruct (filter_item test_spec parent_path value) as [ v' | ev ] eqn:Hv;
        exc_simpl.
      * destruct (filter_entries test_spec parent_path rest) eqn:Hfrest;
          exc_simpl; [ discriminate | ].
        intros [= <-]. exact (IH _ eq_refl).
      * intros [= <-]. exact (Hx _ eq_refl).
    + intros [= <-]. exact (is_path_blacklisted_raise _ _ _ Hb).
Qed.

Lemma filter_item_raise test_spec parent_path item e :
  filter_item test_spec parent_path item = Raise e → e = TypeError.
Proof.
  revert e. induction item as [ | b | n | text | s | items IH | entries IH ]
    using json_induction; intros e; try discriminate.
  - rewrite filter_item_list.
    destruct (filter_items test_spec parent_path items) eqn:Hitems; exc_simpl;
      [ discriminate | ].
    intros [= <-]. exact (filter_items_raise _ _ _ IH _ Hitems).
  - rewrite filter_item_dict.
    destruct (filter_entries test_spec parent_path entries) eqn:Hentries;
      exc_simpl; [ discriminate | ].
    intros [= <-]. exact (filter_entries_raise _ _ _ IH _ Hentries).
Qed.

(** ** Sorting by identity *)

Lemma key_lt_asym {A} (a b : string * A) : key_lt a b = true → key_lt b a = false.
Proof. apply ltb_asym. Qed.

Lemma key_lt_le_trans {A} (a b c : string * A) :
  key_lt b a = false → key_lt c b = false → key_lt c a = false.
Proof. apply ltb_le_trans. Qed.

Lemma NoDup_map_inj {A B} (f : A → B) (l : list A) x y :
  NoDup (map f l) → x ∈ l → y ∈ l → f x = f y → x = y.
Proof.
  induction l as [ | z l IH ]; intros Hnd Hx Hy Hxy.
  - inversion Hx.
  - cbn in Hnd. apply NoDup_cons in Hnd as [Hz Hnd].
    apply elem_of_cons in Hx as [-> | Hx], Hy as [-> | Hy]; auto.
    + exfalso. apply Hz. rewrite Hxy. apply list_elem_of_fmap_2. exact Hy.
    + exfalso. apply Hz. rewrite <- Hxy. apply list_elem_of_fmap_2. exact Hx.
Qed.

Lemma sorted_by_id_strings l :
  Forall (fun e => is_Some (id_of e)) l →
  sorted_by_id l
  = Ok (match l with
        | [] | [_] => l
        | _ => map snd (py_sorted key_lt (keyed_by_id l))
        end).
Proof.
  intros Hids. unfold sorted_by_id.
  rewrite (mapM_total _ (fun e => (JStr (default "" (id_of e)), e))).
  2:{ eapply Forall_impl; [ exact Hids | ].
      intros e [s Hs]. unfold id_of in Hs. unfold get_id.
      destruct e as [ | | | | | | entries ]; try discriminate.
      destruct (dict_get "_id" entries) as [ [ | | | | s' | | ] | ] eqn:Hget;
        try discriminate.
      cbn. unfold id_of. rewrite Hget. reflexivity. }
  exc_simpl.
  destruct l as [ | x [ | y rest ] ]; try reflexivity.
  cbn [map].
  rewrite (mapM_total str_key (fun ke => (default "" (id_of ke.2), ke.2))).
  2:{ repeat constructor. apply Forall_forall. intros ke Hke.
      apply list_elem_of_fmap in Hke as (e & -> & _). reflexivity. }
  exc_simpl. unfold keyed_by_id. cbn [map fst snd].
  rewrite map_map. reflexivity.
Qed.

Lemma sorted_by_id_perm l l' :
  l ≡ₚ l' →
  Forall (fun e => is_Some (id_of e)) l →
  NoDup (map id_of l) →
  sorted_by_id l = sorted_by_id l'.
Proof.
  intros Hperm Hids Hnodup.
  rewrite (sorted_by_id_strings l Hids).
  rewrite (sorted_by_id_strings l') by (rewrite <- Hperm; exact Hids).
  f_equal.
  destruct l as [ | x [ | y rest ] ].
  - apply Permutation_nil_l in Hperm. subst l'. reflexivity.
  - apply Permutation_singleton_l in Hperm. subst l'. reflexivity.
  - destruct l' as [ | x' [ | y' rest' ] ];
      try (apply Permutation_length in Hperm; discriminate).
    f_equal. apply py_sorted_unique.
    + intros a b. apply key_lt_asym.
    + intros a b c. apply key_lt_le_trans.
    + unfold keyed_by_id. apply Permutation_map. exact Hperm.
    + intros p q Hp Hq Hpq Hqp.
      apply list_elem_of_fmap in Hp as (e1 & -> & He1), Hq as (e2 & -> & He2).
      assert (Hkey : default "" (id_of e1) = default "" (id_of e2)).
      { apply ltb_antisym; assumption. }
      assert (e1 = e2); [ | congruence ].
      apply (NoDup_map_inj id_of _ e1 e2 Hnodup He1 He2).
      rewrite Forall_forall in Hids.
      destruct (Hids e1 He1) as [s1 Hs1], (Hids e2 He2) as [s2 Hs2].
      rewrite Hs1, Hs2 in *. cbn in Hkey. congruence.
Qed.

(** The current output is in ascending order of identity. *)
Lemma sorted_by_id_ascending l out :
  Forall (fun e => is_Some (id_of e)) l →
  sorted_by_id l = Ok out →
  StronglySorted (not_after key_lt) (keyed_by_id out) ∧ out ≡ₚ l.
Proof.
  intros Hids. rewrite (sorted_by_id_strings l Hids). intros [= <-].
  destruct l as [ | x [ | y rest ] ].
  - split; [ constructor | reflexivity ].
  - split; [ repeat constructor | reflexivity ].
  - set (l := x :: y :: rest) in *.
    assert (Hkeyed : keyed_by_id (map snd (py_sorted key_lt (keyed_by_id l)))
                     = py_sorted key_lt (keyed_by_id l)).
    { assert (Hall : Forall (fun p => p = (default "" (id_of p.2), p.2))
                            (py_sorted key_lt (keyed_by_id l))).
      { rewrite (py_sorted_perm key_lt). apply Forall_forall. intros p Hp.
        apply list_elem_of_fmap in Hp as (e & -> & _). reflexivity. }
      induction Hall as [ | p ps Hp Hps IH ]; [ reflexivity | ].
      cbn. rewrite <- Hp. f_equal. exact IH. }
    split.
    + rewrite Hkeyed. apply py_sorted_sorted.
      * intros a b. apply key_lt_asym.
      * intros a b c. apply key_lt_le_trans.
    + rewrite (py_sorted_perm key_lt). unfold keyed_by_id.
      rewrite map_map. cbn. rewrite map_id. reflexivity.
Qed.


(** C1. The blacklist scenario on the code: every key is looked up
    under its own name (the path handed down is never extended and is
    joined without dots), so ["meta.*"] matches neither [meta] nor [ts]
    and the record comes back whole; the bare name ["ts"] is what drops
    the nested key. *)
Theorem blacklist_scenario_keeps_meta :
  filter_entity Scenario.blacklist_record Scenario.blacklist_spec
  = Ok Scenario.blacklist_record
  ∧ filter_entity Scenario.blacklist_record Scenario.blacklist_spec
    ≠ Ok (Scenario.entity "x" [("val", JInt 1)])
  ∧ is_path_blacklisted Scenario.blacklist_spec ["meta"; "ts"] = Ok false
  ∧ filter_entity Scenario.blacklist_record
      (Scenario.spec [("blacklist", JList [JStr "ts"])])
    = Ok (Scenario.entity "x" [("meta", JDict []); ("val", JInt 1)]).
Proof.
  split; [ vm_compute; reflexivity | ].
  split; [ vm_compute; discriminate | ].
  split; vm_compute; reflexivity.
Qed.

(** ** The filter returns when the blacklist holds strings *)

Lemma any_pattern_matches_total prop_path patterns :
  Forall (fun p => ∃ s, p = JStr s) patterns →
  ∃ b, any_pattern_matches prop_path patterns = Ok b.
Proof.
  induction 1 as [ | p rest [s ->] Hrest IH ]; [ eexists; reflexivity | ].
  cbn. destruct (Fnmatch.fnmatchcase prop_path s); [ eexists; reflexivity | exact IH ].
Qed.

Lemma is_path_blacklisted_total test_spec path :
  blacklist_of_strings test_spec → ∃ b, is_path_blacklisted test_spec path = Ok b.
Proof.
  unfold blacklist_of_strings, is_path_blacklisted.
  destruct (TestSpec_blacklist test_spec) as [ [ | | | | | [ | p ps ] | ] | ];
    try (intros _; eexists; reflexivity).
  apply any_pattern_matches_total.
Qed.

Lemma filter_item_total test_spec parent_path item :
  blacklist_of_strings test_spec →
  ∃ y, filter_item test_spec parent_path item = Ok y.
Proof.
  intros Hstrings.
  induction item as [ | b | n | text | s | items IH | entries IH ]
    using json_induction; try (eexists; reflexivity).
  - rewrite filter_item_list.
    enough (∃ out, filter_items test_spec parent_path items = Ok out) as [out ->]
      by (eexists; reflexivity).
    induction IH as [ | x rest [x' Hx] Hrest [out Hout] ]; [ eexists; reflexivity | ].
    cbn [filter_items]. rewrite Hx, Hout. eexists; reflexivity.
  - rewrite filter_item_dict.
    enough (∃ out, filter_entries test_spec parent_path entries = Ok out) as [out ->]
      by (eexists; reflexivity).
    induction IH as [ | [key value] rest [v' Hv] Hrest [out Hout] ];
      [ eexists; reflexivity | ].
    cbn [filter_entries]. cbn [snd] in Hv.
    destruct (is_path_blacklisted_total test_spec (parent_path ++ [key]) Hstrings)
      as [b Hb].
    rewrite Hb, Hv, Hout. exc_simpl.
    destruct (startswith key "_"), (keeps_underscore_key key value), b;
      eexists; reflexivity.
Qed.

Lemma mapM_exists {A B} (f : A → exc B) l :
  (∀ x, ∃ y, f x = Ok y) → ∃ k, mapM f l = Ok k.
Proof.
  intros Hf. induction l as [ | x l [k Hk] ]; [ eexists; reflexivity | ].
  destruct (Hf x) as [y Hy]. rewrite mapM_cons, Hy, Hk. eexists; reflexivity.
Qed.

(** What [verify_json] leaves of the fetched records before it compares:
    as many records, with the same identities in the same places. *)
Lemma filtered_ids test_spec fetched filtered :
  mapM (fun e => filter_entity e test_spec) (map _fix_decimal_to_ints fetched)
  = Ok filtered →
  map id_of filtered = map id_of fetched.
Proof.
  intros Hk. apply mapM_Ok in Hk.
  remember (map _fix_decimal_to_ints fetched) as fixed eqn:Hfixed.
  revert fetched Hfixed.
  induction Hk as [ | x y xs ys Hxy Hrest IH ]; intros fetched Hfixed.
  - destruct fetched; [ reflexivity | discriminate ].
  - destruct fetched as [ | e es ]; [ discriminate | ].
    cbn in Hfixed. injection Hfixed as -> ->.
    cbn. rewrite (filter_entity_id _ _ _ Hxy), id_of_fix.
    f_equal. apply IH. reflexivity.
Qed.

Lemma filtered_have_ids test_spec fetched filtered :
  mapM (fun e => filter_entity e test_spec) (map _fix_decimal_to_ints fetched)
  = Ok filtered →
  Forall (fun e => is_Some (id_of e)) fetched →
  Forall (fun e => is_Some (id_of e)) filtered.
Proof.
  intros Hk Hids. apply filtered_ids in Hk.
  apply Forall_forall. intros e He.
  assert (Hin : id_of e ∈ map id_of fetched)
    by (rewrite <- Hk; apply list_elem_of_fmap_2; exact He).
  apply list_elem_of_fmap in Hin as (e0 & -> & He0).
  rewrite Forall_forall in Hids. exact (Hids e0 He0).
Qed.

(** ** Structured comparison *)

(** C2 (amended). The current records are put in ascending order of
    identity before they are compared; the expected records are taken
    in the order of the baseline. So the order in which records with
    distinct string identities are fetched does not change what the
    comparison logs and decides. *)
Theorem verify_json_sorts_current test_spec expected_output fetched fetched' :
  fetched ≡ₚ fetched' →
  Forall (fun e => is_Some (id_of e)) fetched →
  NoDup (map id_of fetched) →
  verify_json test_spec expected_output (JList fetched)
  = verify_json test_spec expected_output (JList fetched')
  ∧ ∀ filtered,
      mapM (fun e => filter_entity e test_spec) (map _fix_decimal_to_ints fetched)
      = Ok filtered →
      ∃ current_output,
        sorted_by_id filtered = Ok current_output
        ∧ StronglySorted (not_after key_lt) (keyed_by_id current_output)
        ∧ current_output ≡ₚ filtered.
Proof.
  intros Hperm Hids Hnodup. split.
  - unfold verify_json.
    cbn [get_pipe_entities _fix_decimal_to_ints py_iter]. exc_simpl.
    pose proof (mapM_perm (fun e => filter_entity e test_spec) TypeError
                  (map _fix_decimal_to_ints fetched)
                  (map _fix_decimal_to_ints fetched')
                  (fun x e => filter_item_raise test_spec [] x e)
                  (Permutation_map _ Hperm)) as Hmap.
    destruct (mapM _ (map _fix_decimal_to_ints fetched)) as [ k | e ] eqn:Hk,
             (mapM _ (map _fix_decimal_to_ints fetched')) as [ k' | e' ] eqn:Hk';
      try contradiction; exc_simpl; [ | congruence ].
    rewrite (sorted_by_id_perm k k' Hmap); [ reflexivity | | ].
    + exact (filtered_have_ids _ _ _ Hk Hids).
    + rewrite (filtered_ids _ _ _ Hk). exact Hnodup.
  - intros filtered Hfiltered.
    pose proof (filtered_have_ids _ _ _ Hfiltered Hids) as Hids'.
    destruct (sorted_by_id filtered) as [ current_output | e ] eqn:Hsorted.
    + exists current_output. split; [ reflexivity | ].
      exact (sorted_by_id_ascending filtered current_output Hids' Hsorted).
    + rewrite (sorted_by_id_strings filtered Hids') in Hsorted. discriminate.
Qed.

Lemma verify_json_sorts_current_witness :
  [Scenario.b; Scenario.a] ≡ₚ [Scenario.a; Scenario.b]
  ∧ verify_json (Scenario.spec []) (JList [Scenario.a; Scenario.b])
      (JList [Scenario.b; Scenario.a])
    = verify_json (Scenario.spec []) (JList [Scenario.a; Scenario.b])
        (JList [Scenario.a; Scenario.b]).
Proof.
  split; [ apply Permutation_swap | ].
  apply (verify_json_sorts_current (Scenario.spec [])
           (JList [Scenario.a; Scenario.b])
           [Scenario.b; Scenario.a] [Scenario.a; Scenario.b]).
  - apply Permutation_swap.
  - repeat constructor; eexists; reflexivity.
  - cbn. apply NoDup_cons. split.
    + intros Hin. apply list_elem_of_singleton in Hin. discriminate.
    + apply NoDup_singleton.
Defined.

(** C2, as stated, fails: the same two expected records in the other
    order turn a passing comparison into a failing one. *)
Lemma expected_order_changes_outcome :
  [Scenario.a; Scenario.b] ≡ₚ [Scenario.b; Scenario.a]
  ∧ failed <$> verify_json (Scenario.spec []) (JList [Scenario.a; Scenario.b])
                 (JList [Scenario.a; Scenario.b]) = Ok false
  ∧ failed <$> verify_json (Scenario.spec []) (JList [Scenario.b; Scenario.a])
                 (JList [Scenario.a; Scenario.b]) = Ok true.
Proof.
  split; [ apply Permutation_swap | ].
  split; vm_compute; reflexivity.
Qed.

(** C3 (amended). When the number of current records differs from the
    number of expected records, the spec fails with the length-mismatch
    message; the branch that tests the two serialisations for equality
    is not entered, so no content mismatch is recorded. Both
    serialisations are produced all the same and their diff is logged
    with the failure. The records must have gone through filtering and
    sorting: the blacklist holds strings and each record has a string
    identity. *)
Theorem verify_json_length_mismatch test_spec expected_output fetched n :
  blacklist_of_strings test_spec →
  Forall (fun e => is_Some (id_of e)) fetched →
  py_len expected_output = Ok n →
  List.length fetched ≠ n →
  ∃ current_output,
    verify_json test_spec expected_output (JList fetched)
    = Ok {| logged :=
              [(ERROR, LengthMismatch (_spec_file test_spec) n (List.length fetched));
               (INFO, ExpectedOutput expected_output);
               (INFO, GotOutput (JList current_output));
               (INFO, Diff (get_diff_string
                              (Dumps.dumps expected_output)
                              (Dumps.dumps (JList current_output))
                              (TestSpec_file test_spec) "current-output.json"))];
            failed := true |}.
Proof.
  intros Hstrings Hids Hlen Hne. unfold verify_json.
  cbn [get_pipe_entities _fix_decimal_to_ints py_iter]. exc_simpl.
  destruct (mapM_exists (fun e => filter_entity e test_spec)
              (map _fix_decimal_to_ints fetched)
              (fun x => filter_item_total test_spec [] x Hstrings))
    as [filtered Hfiltered].
  rewrite Hfiltered. exc_simpl.
  pose proof (filtered_have_ids _ _ _ Hfiltered Hids) as Hids'.
  destruct (sorted_by_id filtered) as [ current_output | e ] eqn:Hsorted.
  2:{ rewrite (sorted_by_id_strings filtered Hids') in Hsorted. discriminate. }
  destruct (sorted_by_id_ascending filtered current_output Hids' Hsorted)
    as [_ Hperm].
  assert (Hcount : List.length current_output = List.length fetched).
  { rewrite (Permutation_length Hperm).
    apply mapM_Ok, Forall2_length in Hfiltered.
    rewrite length_map in Hfiltered. symmetry. exact Hfiltered. }
  exc_simpl. rewrite Hlen. exc_simpl. rewrite Hcount.
  destruct (Nat.eqb_spec (List.length fetched) n) as [ Heq | _ ];
    [ contradiction | ].
  cbn [negb]. exists current_output. reflexivity.
Qed.

Lemma verify_json_length_mismatch_witness :
  List.length [Scenario.a] ≠ 2%nat
  ∧ ∃ current_output,
      verify_json (Scenario.spec []) (JList [Scenario.a; Scenario.b])
        (JList [Scenario.a])
      = Ok {| logged :=
                [(ERROR, LengthMismatch "expected/p.test.json" 2 1);
                 (INFO, ExpectedOutput (JList [Scenario.a; Scenario.b]));
                 (INFO, GotOutput (JList current_output));
                 (INFO, Diff (get_diff_string
                                (Dumps.dumps (JList [Scenario.a; Scenario.b]))
                                (Dumps.dumps (JList current_output))
                                (Some (JStr "expected/p.json"))
                                "current-output.json"))];
              failed := true |}.
Proof.
  split; [ discriminate | ].
  apply (verify_json_length_mismatch (Scenario.spec [])
           (JList [Scenario.a; Scenario.b]) [Scenario.a] 2).
  - exact I.
  - repeat constructor; eexists; reflexivity.
  - reflexivity.
  - discriminate.
Defined.

(** C3, as stated, fails: in its own scenario the two serialisations
    are produced and compared by the diff that is logged. *)
Lemma length_mismatch_still_diffs :
  ∃ r,
    verify_json (Scenario.spec []) (JList [Scenario.a; Scenario.b])
      (JList [Scenario.a]) = Ok r
    ∧ In (INFO, Diff (get_diff_string
                        (Dumps.dumps (JList [Scenario.a; Scenario.b]))
                        (Dumps.dumps (JList [Scenario.a]))
                        (Some (JStr "expected/p.json")) "current-output.json"))
         (logged r)
    ∧ Dumps.dumps (JList [Scenario.a; Scenario.b]) ≠ Dumps.dumps (JList [Scenario.a]).
Proof.
  eexists. split; [ vm_compute; reflexivity | ].
  split; [ cbn; tauto | vm_compute; discriminate ].
Qed.

(** ** Numeric normalisation *)

Lemma fix_decimal_to_ints_clean value :
  has_float_dot0 (_fix_decimal_to_ints value) = false.
Proof.
  induction value as [ | b | n | text | s | items IH | entries IH ]
    using json_induction; try reflexivity.
  - cbn [_fix_decimal_to_ints].
    destruct (negb (String.eqb text "") && endswith text ".0") eqn:Hdot;
      [ reflexivity | exact Hdot ].
  - cbn [_fix_decimal_to_ints has_float_dot0].
    induction IH as [ | x rest Hx Hrest IHrest ]; [ reflexivity | ].
    cbn [map existsb]. rewrite Hx, IHrest. reflexivity.
  - cbn [_fix_decimal_to_ints has_float_dot0].
    induction IH as [ | [k x] rest Hx Hrest IHrest ]; [ reflexivity | ].
    cbn [map existsb fst snd] in *. rewrite Hx, IHrest. reflexivity.
Qed.

Lemma fix_decimal_to_ints_idempotent value :
  _fix_decimal_to_ints (_fix_decimal_to_ints value) = _fix_decimal_to_ints value.
Proof.
  induction value as [ | b | n | text | s | items IH | entries IH ]
    using json_induction; try reflexivity.
  - cbn [_fix_decimal_to_ints].
    destruct (negb (String.eqb text "") && endswith text ".0") eqn:Hdot;
      [ reflexivity | ].
    cbn [_fix_decimal_to_ints]. rewrite Hdot. reflexivity.
  - cbn [_fix_decimal_to_ints]. f_equal.
    induction IH as [ | x rest Hx Hrest IHrest ]; [ reflexivity | ].
    cbn [map]. rewrite Hx, IHrest. reflexivity.
  - cbn [_fix_decimal_to_ints]. f_equal.
    induction IH as [ | [k x] rest Hx Hrest IHrest ]; [ reflexivity | ].
    cbn [map fst snd] in *. rewrite Hx, IHrest. reflexivity.
Qed.

(** C4 (amended). The fetched records are normalised before they are
    filtered and compared: no float whose text ends in [.0] is left in
    them at any depth, each having become the integer it prints, and a
    fetched field [3.0] compares equal to an expected [3]. The expected
    records are compared as the baseline file holds them. *)
Theorem fetched_floats_become_ints :
  (∀ text,
     text ≠ "" → endswith text ".0" = true →
     _fix_decimal_to_ints (JFloat text) = JInt (int_of_float text))
  ∧ (∀ value, has_float_dot0 (_fix_decimal_to_ints value) = false)
  ∧ (∀ test_spec expected_output resp_json,
       verify_json test_spec expected_output (_fix_decimal_to_ints resp_json)
       = verify_json test_spec expected_output resp_json)
  ∧ _fix_decimal_to_ints (Scenario.with_v (JFloat "3.0")) = Scenario.with_v (JInt 3)
  ∧ verify_json (Scenario.spec []) (JList [Scenario.with_v (JInt 3)])
      (JList [Scenario.with_v (JFloat "3.0")])
    = Ok {| logged := []; failed := false |}.
Proof.
  split.
  { intros text Htext Hdot. cbn [_fix_decimal_to_ints].
    apply String.eqb_neq in Htext. rewrite Htext, Hdot. reflexivity. }
  split; [ exact fix_decimal_to_ints_clean | ].
  split.
  - intros test_spec expected_output resp_json. unfold verify_json, get_pipe_entities.
    rewrite fix_decimal_to_ints_idempotent. reflexivity.
  - split; vm_compute; reflexivity.
Qed.

Lemma fetched_floats_become_ints_witness :
  "3.0" ≠ ""
  ∧ endswith "3.0" ".0" = true
  ∧ _fix_decimal_to_ints (JFloat "3.0") = JInt 3.
Proof.
  split; [ discriminate | ]. split; [ reflexivity | ].
  apply (proj1 fetched_floats_become_ints "3.0"); [ discriminate | reflexivity ].
Defined.

(** C4, as stated, fails: an expected [3.0] against a fetched [3] is a
    content mismatch, because the baseline is not normalised. *)
Lemma expected_float_is_not_normalised :
  failed <$> verify_json (Scenario.spec []) (JList [Scenario.with_v (JFloat "3.0")])
               (JList [Scenario.with_v (JInt 3)]) = Ok true
  ∧ Dumps.dumps (JList [Scenario.with_v (JFloat "3.0")])
    ≠ Dumps.dumps (JList [Scenario.with_v (JInt 3)]).
Proof. split; [ vm_compute; reflexivity | vm_compute; discriminate ]. Qed.

(** ** Ignored specs and their baseline *)

(** C8. The ignore scenario on the code. The file looked for is
    ["expected/"] followed by the spec's file entry, which by default
    already starts with ["expected/"], and the file removed is the entry
    itself. With the default entry nothing is found: reconcile mode
    leaves the baseline where it is and verify mode logs no warning.
    With the baseline named relative to the expected directory the file
    is found, and reconcile mode then removes another path and raises. *)
Theorem ignored_baseline_is_not_deleted :
  is_Some (files Scenario.ignore_disk !! "expected/foo.json")
  ∧ (∃ test_specs d,
       load_test_specs ["foo"] true Scenario.ignore_disk = Some (Ok test_specs, d)
       ∧ files d = files Scenario.ignore_disk)
  ∧ (∃ test_specs d,
       load_test_specs ["foo"] false Scenario.ignore_disk = Some (Ok test_specs, d)
       ∧ Forall (fun r => r.1 ≠ WARNING) (disk_log d))
  ∧ (∃ d,
       load_test_specs ["foo"] true Scenario.ignore_disk_named
       = Some (Raise (FileNotFoundError "foo.json"), d)
       ∧ files d = files Scenario.ignore_disk_named).
Proof.
  split; [ vm_compute; eexists; reflexivity | ].
  split; [ | split ].
  - eexists _, _. split; [ vm_compute; reflexivity | vm_compute; reflexivity ].
  - eexists _, _. split; [ vm_compute; reflexivity | ].
    repeat constructor; discriminate.
  - eexists. split; [ vm_compute; reflexivity | vm_compute; reflexivity ].
Qed.

(** ** Config status *)

Lemma str_in_elem_of x l : str_in x l = true ↔ x ∈ l.
Proof.
  unfold str_in. rewrite existsb_exists. split.
  - intros (y & Hy & Heq). apply String.eqb_eq in Heq. subst y.
    apply list_elem_of_In. exact Hy.
  - intros Hx. exists x. split; [ apply list_elem_of_In; exact Hx | apply String.eqb_refl ].
Qed.

Lemma zip_read_member archive name :
  name ∈ namelist archive → ∃ data, zip_read archive name = Ok data.
Proof.
  induction archive as [ | [n data] rest IH ]; intros Hin.
  - inversion Hin.
  - cbn [zip_read]. cbn in Hin. apply elem_of_cons in Hin as [ -> | Hin ].
    + destruct (zip_read rest n); [ eexists; reflexivity | ].
      rewrite String.eqb_refl. eexists; reflexivity.
    + destruct (IH Hin) as [later ->]. eexists; reflexivity.
Qed.



(** The first loop: the remote files that are not local, in the order of
    [remote_files]. *)
Lemma status_remote_files local_files remote_files st :
  fold_left (status_remote_file local_files) remote_files st
  = let remote_only :=
      List.filter (fun f => negb (str_in f local_files)) remote_files in
    ((st.1 ++ map (fun f => (INFO, NotFoundLocally f)) remote_only)%list,
     st.2 || negb (bool_decide (remote_only = []))).
Proof.
  revert st. induction remote_files as [ | f rest IH ]; intros [records found].
  - cbn. rewrite app_nil_r, orb_false_r. reflexivity.
  - cbn [fold_left List.filter]. rewrite IH. unfold status_remote_file.
    destruct (negb (str_in f local_files)); cbn [fst snd map].
    + rewrite <- app_assoc. cbn. rewrite orb_true_r. reflexivity.
    + reflexivity.
Qed.




(** ** The scheduler *)

Ltac prog_simpl :=
  repeat (unfold mbind, prog_bind, mret, prog_ret, gets, modify, raise, lift,
            log, skip, try_except, try_finally, out_of_steps in *;
          cbn beta iota delta [negb andb orb fst snd] in *).

Lemma remove_system_runs n : remove_system n = Some (Ok (), removed n).
Proof.
  unfold remove_system, removed, get_system. prog_simpl.
  change (system_exists (emit (TRACE, Text "Remove system") n))
    with (system_exists n).
  destruct (system_exists n); reflexivity.
Qed.

Lemma sleep_runs secs n : (0 <= secs)%Q → sleep secs n = Some (Ok (), add_slept secs n).
Proof.
  intros Hsecs. unfold sleep. apply Qle_bool_iff in Hsecs. rewrite Hsecs. reflexivity.
Qed.

Lemma poll_interval_nonneg args :
  (0 <= Args.scheduler_poll_frequency args)%Z →
  (0 <= inject_Z (Args.scheduler_poll_frequency args) / 1000)%Q.
Proof.
  intros Hpoll. apply Qle_shift_div_l; [ reflexivity | ].
  rewrite Qmult_0_l. change 0%Q with (inject_Z 0). rewrite <- Zle_Qle. exact Hpoll.
Qed.

(** [get_scheduler_status] on a reply that carries a state *)
Lemma get_scheduler_status_state env n entries state :
  system_exists n = true →
  proxy_reply env (proxy_gets n) = Ok (JDict entries) →
  dict_get "state" entries = Some state →
  get_scheduler_status env n = Some (Ok state, count_proxy_get n).
Proof.
  intros Hexists Hreply Hstate.
  unfold get_scheduler_status, microservice_get_proxy_request, get_system.
  prog_simpl. rewrite Hexists. prog_simpl. rewrite Hreply, Hstate. reflexivity.
Qed.

Lemma get_scheduler_status_unknown env n j :
  system_exists n = true →
  proxy_reply env (proxy_gets n) = Ok j →
  is_dict j = false →
  get_scheduler_status env n
  = Some (Ok (JStr "unknown"),
          emit (DEBUG, Text "The scheduler status endpoint returned a non-json reply!")
               (count_proxy_get n)).
Proof.
  intros Hexists Hreply Hdict.
  unfold get_scheduler_status, microservice_get_proxy_request, get_system.
  prog_simpl. rewrite Hexists. prog_simpl. rewrite Hreply.
  destruct j; try discriminate; reflexivity.
Qed.

(** One turn of the [while True] loop of [run] *)
Lemma poll_scheduler_step args env steps since n :
  poll_scheduler args env (S steps) since n
  = match (if Args.print_scheduler_log args then print_scheduler_log env since
           else mret since) n with
    | Some (Ok since', n1) =>
        match get_scheduler_status env n1 with
        | Some (Ok status, n2) =>
            if json_is_str status "success" then
              Some (Ok Break, emit (DEBUG, Text "Scheduler finished successfully") n2)
            else if json_is_str status "failed" then
              Some (Ok Return, emit (ERROR, Text "Scheduler finished with failure") n2)
            else
              (sleep (inject_Z (Args.scheduler_poll_frequency args) / 1000)%Q;;
               poll_scheduler args env steps since') n2
        | Some (Raise e, n2) => Some (Raise e, n2)
        | None => None
        end
    | Some (Raise e, n1) => Some (Raise e, n1)
    | None => None
    end.
Proof.
  cbn [poll_scheduler]. unfold mbind at 1, prog_bind at 1.
  destruct ((if Args.print_scheduler_log args then print_scheduler_log env since
             else mret since) n) as [ [ [ since' | e ] n1 ] | ]; try reflexivity.
  unfold mbind at 1, prog_bind at 1.
  destruct (get_scheduler_status env n1) as [ [ [ status | e ] n2 ] | ];
    try reflexivity.
  destruct (json_is_str status "success"); [ reflexivity | ].
  destruct (json_is_str status "failed"); reflexivity.
Qed.

(** [print_scheduler_log] always returns and leaves the registration and
    the count of status requests as they were. *)
Lemma print_lines_return (lines : list string) acc n :
  ∃ acc' n',
    for_each
      (fun (last_since : option string) (line : string) =>
         let log_line := split line " " in
         log INFO (Text (String.concat " " (tail log_line)));;
         mret (head log_line))
      lines acc n = Some (Ok acc', n')
    ∧ same_polling n n'.
Proof.
  revert acc n. induction lines as [ | line rest IH ]; intros acc n.
  - exists acc, n. split; [ reflexivity | split; reflexivity ].
  - cbn [for_each]. prog_simpl.
    match goal with
    | |- context [ for_each _ rest ?acc' ?n' ] =>
        destruct (IH acc' n') as (acc'' & n'' & -> & Hex & Hgets)
    end.
    exists acc'', n''. split; [ reflexivity | split; assumption ].
Qed.

Lemma print_scheduler_log_returns env since n :
  ∃ since' n', print_scheduler_log env since n = Some (Ok since', n')
               ∧ same_polling n n'.
Proof.
  unfold print_scheduler_log, get_system_log. prog_simpl.
  destruct (log_reply env (log_gets n)) as [ log_output | e ].
  - match goal with
    | |- context [ for_each ?body ?lines ?acc ?n' ] =>
        destruct (print_lines_return lines acc n') as (acc' & n'' & Hrun & Hsame)
    end.
    unfold mbind, prog_bind, mret, prog_ret, log, modify in Hrun.
    rewrite Hrun. exists acc', n''. split; [ reflexivity | exact Hsame ].
  - eexists _, _. split; [ reflexivity | split; reflexivity ].
Qed.

Lemma log_step_returns args env since n :
  ∃ since' n',
    (if Args.print_scheduler_log args then print_scheduler_log env since
     else mret since) n = Some (Ok since', n')
    ∧ same_polling n n'.
Proof.
  destruct (Args.print_scheduler_log args).
  - apply print_scheduler_log_returns.
  - exists since, n. split; [ reflexivity | split; reflexivity ].
Qed.

(** The running phase has no bound: while the endpoint answers states
    other than "success" and "failed", no number of steps ends it. *)
Lemma poll_scheduler_unbounded args env :
  (0 <= Args.scheduler_poll_frequency args)%Z →
  (∀ k, ∃ entries state,
      proxy_reply env k = Ok (JDict entries)
      ∧ dict_get "state" entries = Some state
      ∧ json_is_str state "success" = false
      ∧ json_is_str state "failed" = false) →
  ∀ steps since n,
    system_exists n = true → poll_scheduler args env steps since n = None.
Proof.
  intros Hpoll Hreplies. induction steps as [ | steps IH ]; intros since n Hexists.
  - reflexivity.
  - rewrite poll_scheduler_step.
    destruct (log_step_returns args env since n) as (since' & n1 & -> & Hex1 & _).
    destruct (Hreplies (proxy_gets n1)) as (entries & state & Hreply & Hstate & Hs & Hf).
    rewrite (get_scheduler_status_state env n1 entries state); try assumption;
      [ | congruence ].
    rewrite Hs, Hf. unfold mbind, prog_bind.
    rewrite (sleep_runs _ _ (poll_interval_nonneg args Hpoll)).
    apply IH. cbn. congruence.
Qed.

(** The loop that waits for [init] asks [sleep_interval > 0], which no
    turn changes. *)
Lemma await_init_unbounded env sleep_interval :
  (0 < sleep_interval)%Q →
  (∀ k, ∃ entries state,
      proxy_reply env k = Ok (JDict entries)
      ∧ dict_get "state" entries = Some state
      ∧ json_is_str state "init" = false) →
  ∀ steps timeout n,
    system_exists n = true → await_init env steps sleep_interval timeout n = None.
Proof.
  intros Hpos Hreplies.
  assert (Hpositive : Qpositive sleep_interval = true).
  { unfold Qpositive. apply negb_true_iff, not_true_iff_false.
    rewrite Qle_bool_iff. lra. }
  induction steps as [ | steps IH ]; intros timeout n Hexists.
  - cbn [await_init]. rewrite Hpositive. reflexivity.
  - cbn [await_init]. rewrite Hpositive.
    destruct (Hreplies (proxy_gets n)) as (entries & state & Hreply & Hstate & Hinit).
    unfold mbind at 1, prog_bind at 1, try_except.
    unfold mbind at 1, prog_bind at 1.
    rewrite (get_scheduler_status_state env n entries state Hexists Hreply Hstate).
    prog_simpl. rewrite Hinit.
    rewrite sleep_runs by lra.
    apply IH. cbn. exact Hexists.
Qed.

(** The two loops with a budget end within [timeout / 5] turns. *)
Lemma wait_running_bounded env steps timeout n :
  (timeout <= 5 * inject_Z (Z.of_nat steps))%Q →
  ∃ up n',
    wait_running env steps timeout n = Some (Ok up, n')
    ∧ (status_gets n' ≤ status_gets n + steps)%nat
    ∧ ((∀ k, reports_running env k = false) → up = false).
Proof.
  revert timeout n. induction steps as [ | steps IH ]; intros timeout n Hbudget.
  - assert (Hdone : Qpositive timeout = false).
    { unfold Qpositive. apply negb_false_iff, Qle_bool_iff.
      change (inject_Z (Z.of_nat 0)) with 0%Q in Hbudget. lra. }
    cbn [wait_running]. rewrite Hdone. exists false, n.
    split; [ reflexivity | ]. split; [ lia | reflexivity ].
  - cbn [wait_running]. destruct (Qpositive timeout).
    + prog_simpl. destruct (reports_running env (status_gets n)) eqn:Hup.
      * exists true, (count_status_get n). split; [ reflexivity | ].
        split; [ cbn; lia | ]. intros Hnever. congruence.
      * rewrite sleep_runs by lra.
        destruct (IH (timeout - 5)%Q (add_slept 5 (count_status_get n)))
          as (up & n' & Hrun & Hgets & Hnever).
        { rewrite Nat2Z.inj_succ, <- Z.add_1_r, inject_Z_plus in Hbudget.
          change (inject_Z 1) with 1%Q in Hbudget. lra. }
        exists up, n'. split; [ exact Hrun | ].
        split; [ cbn in Hgets; lia | exact Hnever ].
    + exists false, n. split; [ reflexivity | ]. split; [ lia | reflexivity ].
Qed.

Lemma verify_posted_bounded env steps timeout n :
  (timeout <= 5 * inject_Z (Z.of_nat steps))%Q →
  ∃ verified n',
    verify_posted env steps timeout n = Some (Ok verified, n')
    ∧ (config_gets n' ≤ config_gets n + steps)%nat
    ∧ ((∀ k, config_matches env k = false) → verified = false).
Proof.
  revert timeout n. induction steps as [ | steps IH ]; intros timeout n Hbudget.
  - assert (Hdone : Qpositive timeout = false).
    { unfold Qpositive. apply negb_false_iff, Qle_bool_iff.
      change (inject_Z (Z.of_nat 0)) with 0%Q in Hbudget. lra. }
    cbn [verify_posted]. rewrite Hdone. eexists false, _.
    split; [ reflexivity | ]. split; [ cbn; lia | reflexivity ].
  - cbn [verify_posted]. destruct (Qpositive timeout).
    + prog_simpl. destruct (config_matches env (config_gets n)) eqn:Hok.
      * eexists true, _. split; [ reflexivity | ].
        split; [ cbn; lia | ]. intros Hnever. congruence.
      * rewrite sleep_runs by lra.
        destruct (IH (timeout - 5)%Q (add_slept 5 (count_config_get n)))
          as (verified & n' & Hrun & Hgets & Hnever).
        { rewrite Nat2Z.inj_succ, <- Z.add_1_r, inject_Z_plus in Hbudget.
          change (inject_Z 1) with 1%Q in Hbudget. lra. }
        exists verified, n'. split; [ exact Hrun | ].
        split; [ cbn in Hgets; lia | exact Hnever ].
    + eexists false, _. split; [ reflexivity | ].
      split; [ cbn; lia | reflexivity ].
Qed.

(** *** [run] when the requests for the system can fail

    [Faulty.remove_system] returns or raises; when it raises, a request
    for the system raised that error and the system is where it was. *)
Lemma faulty_remove_system_outcome faults n :
  ∃ r n',
    Faulty.remove_system faults n = Some (r, n')
    ∧ proxy_gets n' = proxy_gets n
    ∧ log_gets n' = log_gets n
    ∧ (r = Ok () → system_exists n' = false)
    ∧ (∀ e, r = Raise e →
         system_exists n' = system_exists n
         ∧ ((∃ s, Faulty.get_system_reply faults s = Raise e)
            ∨ ∃ s, Faulty.delete_system_reply faults s = Raise e)).
Proof.
  unfold Faulty.remove_system, Faulty.api_get_system, Faulty.system_delete.
  prog_simpl.
  destruct (Faulty.get_system_reply faults (emit (TRACE, Text "Remove system") n))
    as [ [] | e ] eqn:Hget.
  - change (system_exists (emit (TRACE, Text "Remove system") n))
      with (system_exists n).
    destruct (system_exists n) eqn:Hsys.
    + destruct (Faulty.delete_system_reply faults (emit (TRACE, Text "Remove system") n))
        as [ [] | e ] eqn:Hdelete.
      * eexists _, _. split; [ reflexivity | ].
        split; [ reflexivity | ]. split; [ reflexivity | ].
        split; [ reflexivity | discriminate ].
      * eexists _, _. split; [ reflexivity | ].
        split; [ reflexivity | ]. split; [ reflexivity | ].
        split; [ discriminate | ].
        intros e' [= <-]. split; [ exact Hsys | right; eauto ].
    + eexists _, _. split; [ reflexivity | ].
      split; [ reflexivity | ]. split; [ reflexivity | ].
      split; [ intros _; exact Hsys | discriminate ].
  - eexists _, _. split; [ reflexivity | ].
    split; [ reflexivity | ]. split; [ reflexivity | ].
    split; [ discriminate | ].
    intros e' [= <-]. split; [ reflexivity | left; eauto ].
Qed.

(** The [finally] of [run]. *)
Lemma run_finally_outcome args faults n :
  ∃ r n',
    Faulty.run_finally args faults n = Some (r, n')
    ∧ proxy_gets n' = proxy_gets n
    ∧ (Args.dont_remove_scheduler args = true → r = Ok () ∧ n' = n)
    ∧ (Args.dont_remove_scheduler args = false → r = Ok () →
       system_exists n' = false)
    ∧ (∀ e, r = Raise e →
         system_exists n' = system_exists n
         ∧ ((∃ s, Faulty.get_system_reply faults s = Raise e)
            ∨ ∃ s, Faulty.delete_system_reply faults s = Raise e)).
Proof.
  unfold Faulty.run_finally. destruct (Args.dont_remove_scheduler args); cbn [negb].
  - exists (Ok ()), n. split; [ reflexivity | ]. split; [ reflexivity | ].
    split; [ auto | ]. split; discriminate.
  - destruct (faulty_remove_system_outcome faults n)
      as (r & n' & Hrun & Hproxy & _ & Hgone & Hraise).
    exists r, n'. split; [ exact Hrun | ]. split; [ exact Hproxy | ].
    split; [ discriminate | ]. split; [ intros _; exact Hgone | exact Hraise ].
Qed.

(** One turn of the [while True] loop of [Faulty.run] *)
Lemma faulty_poll_scheduler_step args env faults steps since n :
  Faulty.poll_scheduler args env faults (S steps) since n
  = match (if Args.print_scheduler_log args then print_scheduler_log env since
           else mret since) n with
    | Some (Ok since', n1) =>
        match Faulty.get_scheduler_status env faults n1 with
        | Some (Ok status, n2) =>
            if json_is_str status "success" then
              Some (Ok Break, emit (DEBUG, Text "Scheduler finished successfully") n2)
            else if json_is_str status "failed" then
              Some (Ok Return, emit (ERROR, Text "Scheduler finished with failure") n2)
            else
              (sleep (inject_Z (Args.scheduler_poll_frequency args) / 1000)%Q;;
               Faulty.poll_scheduler args env faults steps since') n2
        | Some (Raise e, n2) => Some (Raise e, n2)
        | None => None
        end
    | Some (Raise e, n1) => Some (Raise e, n1)
    | None => None
    end.
Proof.
  cbn [Faulty.poll_scheduler]. unfold mbind at 1, prog_bind at 1.
  destruct ((if Args.print_scheduler_log args then print_scheduler_log env since
             else mret since) n) as [ [ [ since' | e ] n1 ] | ]; try reflexivity.
  unfold mbind at 1, prog_bind at 1.
  destruct (Faulty.get_scheduler_status env faults n1) as [ [ [ status | e ] n2 ] | ];
    try reflexivity.
  destruct (json_is_str status "success"); [ reflexivity | ].
  destruct (json_is_str status "failed"); reflexivity.
Qed.

(** A [return] from the loop follows the error record of the "failed"
    status. *)
Lemma faulty_poll_scheduler_return args env faults steps since n n' :
  Faulty.poll_scheduler args env faults steps since n = Some (Ok Return, n') →
  last (node_log n') = Some (ERROR, Text "Scheduler finished with failure").
Proof.
  revert since n. induction steps as [ | steps IH ]; intros since n; [ discriminate | ].
  rewrite faulty_poll_scheduler_step.
  destruct ((if Args.print_scheduler_log args then print_scheduler_log env since
             else mret since) n) as [ [ [ since' | e ] n1 ] | ]; try discriminate.
  destruct (Faulty.get_scheduler_status env faults n1) as [ [ [ status | e ] n2 ] | ];
    try discriminate.
  destruct (json_is_str status "success"); [ discriminate | ].
  destruct (json_is_str status "failed").
  - intros [= <-]. cbn. apply last_snoc.
  - unfold mbind, prog_bind.
    destruct (sleep _ n2) as [ [ [ [] | e ] n3 ] | ]; try discriminate.
    apply IH.
Qed.

(** C7 (amended). Once the scheduler is started, [run] ends as its
    polling loop ends, unless the removal of the agent in its [finally]
    raises. The [finally] returns or raises. When it returns: if the
    loop read "failed", it has logged the failure and [run] returns
    normally; if the loop raised, [run] has logged that and raises the
    same exception; if the loop read "success", [run] logs the success
    and returns; and the agent is gone unless it was to be kept. When
    the removal raises, which only a request for the system can make it
    do, that exception leaves [run], whatever the loop ended with. *)
Theorem run_ends_as_polling_ends args env faults steps n n1 n2 (r : exc loop_exit) :
  Faulty.start_scheduler args env faults steps 300
    (emit (INFO, Text "Executing scheduler...") n)
  = Some (Ok (), n1) →
  Faulty.poll_scheduler args env faults steps None n1 = Some (r, n2) →
  ∃ removal n3,
    Faulty.run_finally args faults
      match r with
      | Ok _ => n2
      | Raise _ => emit (ERROR, Text "Failed to run scheduler") n2
      end
    = Some (removal, n3)
    ∧ (Args.dont_remove_scheduler args = true →
       removal = Ok () ∧ system_exists n3 = system_exists n2)
    ∧ (Args.dont_remove_scheduler args = false → removal = Ok () →
       system_exists n3 = false)
    ∧ (∀ e, removal = Raise e →
         (∃ s, Faulty.get_system_reply faults s = Raise e)
         ∨ ∃ s, Faulty.delete_system_reply faults s = Raise e)
    ∧ match removal, r with
      | Ok _, Ok Return =>
          last (node_log n2) = Some (ERROR, Text "Scheduler finished with failure")
          ∧ Faulty.run args env faults steps n = Some (Ok (), n3)
      | Ok _, Ok Break =>
          Faulty.run args env faults steps n
          = Some (Ok (), emit (INFO, Text "Successfully ran all pipes to completion") n3)
      | Ok _, Raise e => Faulty.run args env faults steps n = Some (Raise e, n3)
      | Raise e', _ => Faulty.run args env faults steps n = Some (Raise e', n3)
      end.
Proof.
  intros Hstart Hpoll.
  match goal with |- context [ Faulty.run_finally args faults ?s ] =>
    destruct (run_finally_outcome args faults s)
      as (removal & n3 & Hfinal & _ & Hkept & Hgone & Hraise)
  end.
  exists removal, n3. split; [ exact Hfinal | ].
  split.
  { intros Hkeep. destruct (Hkept Hkeep) as [ -> -> ].
    split; [ reflexivity | ]. destruct r; reflexivity. }
  split; [ exact Hgone | ].
  split; [ intros e He; exact (proj2 (Hraise e He)) | ].
  assert (Hrun : Faulty.run args env faults steps n
                 = match removal, r with
                   | Ok _, Ok Break =>
                       Some (Ok (), emit (INFO, Text "Successfully ran all pipes to completion") n3)
                   | Ok _, Ok Return => Some (Ok (), n3)
                   | Ok _, Raise e => Some (Raise e, n3)
                   | Raise e', _ => Some (Raise e', n3)
                   end).
  { unfold Faulty.run. prog_simpl. rewrite Hstart, Hpoll.
    destruct r as [ [ | ] | e ]; rewrite Hfinal;
      destruct removal as [ [] | e' ]; reflexivity. }
  rewrite Hrun.
  destruct removal as [ [] | e' ]; [ | destruct r as [ [ | ] | e ]; reflexivity ].
  destruct r as [ [ | ] | e ]; [ reflexivity | | reflexivity ].
  split; [ exact (faulty_poll_scheduler_return _ _ _ _ _ _ _ Hpoll) | reflexivity ].
Qed.

Lemma run_ends_as_polling_ends_witness :
  let env := Scenario.statuses ["init"; "running"; "failed"] "running" in
  ∃ n1 n2 removal n3,
    Faulty.start_scheduler Scenario.args env Faulty.reliable 10 300
      (emit (INFO, Text "Executing scheduler...") fresh_node)
    = Some (Ok (), n1)
    ∧ Faulty.poll_scheduler Scenario.args env Faulty.reliable 10 None n1
      = Some (Ok Return, n2)
    ∧ Faulty.run_finally Scenario.args Faulty.reliable n2 = Some (removal, n3)
    ∧ match removal with
      | Ok _ =>
          last (node_log n2) = Some (ERROR, Text "Scheduler finished with failure")
          ∧ Faulty.run Scenario.args env Faulty.reliable 10 fresh_node
            = Some (Ok (), n3)
      | Raise e' =>
          Faulty.run Scenario.args env Faulty.reliable 10 fresh_node
          = Some (Raise e', n3)
      end.
Proof.
  intros env.
  destruct (run_ends_as_polling_ends Scenario.args env Faulty.reliable 10 fresh_node
              _ _ (Ok Return)
              ltac:(vm_compute; reflexivity) ltac:(vm_compute; reflexivity))
    as (removal & n3 & Hfinal & _ & _ & _ & Hrun).
  eexists _, _, removal, n3.
  split; [ vm_compute; reflexivity | ].
  split; [ vm_compute; reflexivity | ].
  split; [ exact Hfinal | ].
  destruct removal as [ [] | e' ]; exact Hrun.
Defined.

(** C7, as stated, fails: after the statuses "init", "running",
    "failed", on a node that answers every request for the system, the
    agent is removed and [run] returns normally. *)
Lemma failed_run_returns_normally :
  ∃ n',
    Faulty.run Scenario.args
      (Scenario.statuses ["init"; "running"; "failed"] "running")
      Faulty.reliable 10 fresh_node
    = Some (Ok (), n')
    ∧ In (ERROR, Text "Scheduler finished with failure") (node_log n')
    ∧ system_exists n' = false
    ∧ deletes n' = 1%nat.
Proof.
  eexists. split; [ vm_compute; reflexivity | ].
  split; [ cbn; tauto | split; reflexivity ].
Qed.

(** On a node that refuses to delete the system, the same statuses end
    [run] with the error of the removal. *)
Lemma refused_removal_leaves_run :
  ∃ n',
    Faulty.run Scenario.args
      (Scenario.statuses ["init"; "running"; "failed"] "running")
      Faulty.delete_refused 10 fresh_node
    = Some (Raise HTTPError, n')
    ∧ In (ERROR, Text "Scheduler finished with failure") (node_log n')
    ∧ system_exists n' = true.
Proof.
  eexists. split; [ vm_compute; reflexivity | ].
  split; [ cbn; tauto | reflexivity ].
Qed.

(** C10. A reply of the status endpoint that is not an object makes
    [get_scheduler_status] return "unknown" without raising, and the
    loop of [run] answers every status that is neither "success" nor
    "failed", "unknown" among them, by sleeping and polling again. *)
Theorem unknown_status_keeps_polling args env :
  (∀ n j,
     system_exists n = true →
     proxy_reply env (proxy_gets n) = Ok j →
     is_dict j = false →
     get_scheduler_status env n
     = Some (Ok (JStr "unknown"),
             emit (DEBUG, Text "The scheduler status endpoint returned a non-json reply!")
                  (count_proxy_get n)))
  ∧ (∀ steps since since' n n1 n2 status,
       (if Args.print_scheduler_log args then print_scheduler_log env since
        else mret since) n = Some (Ok since', n1) →
       get_scheduler_status env n1 = Some (Ok status, n2) →
       json_is_str status "success" = false →
       json_is_str status "failed" = false →
       poll_scheduler args env (S steps) since n
       = (sleep (inject_Z (Args.scheduler_poll_frequency args) / 1000)%Q;;
          poll_scheduler args env steps since') n2)
  ∧ json_is_str (JStr "unknown") "success" = false
  ∧ json_is_str (JStr "unknown") "failed" = false.
Proof.
  split; [ exact (get_scheduler_status_unknown env) | ].
  split; [ | split; reflexivity ].
  intros steps since since' n n1 n2 status Hlog Hstatus Hsuccess Hfailed.
  rewrite poll_scheduler_step, Hlog, Hstatus, Hsuccess, Hfailed. reflexivity.
Qed.

Lemma unknown_status_keeps_polling_witness :
  let env := Scenario.answering [Ok (JList []); Ok (JStr "busy")] (state_reply "success") in
  get_scheduler_status env Scenario.registered
  = Some (Ok (JStr "unknown"),
          emit (DEBUG, Text "The scheduler status endpoint returned a non-json reply!")
               (count_proxy_get Scenario.registered))
  ∧ poll_scheduler Scenario.args env 3 None Scenario.registered
    = (sleep (inject_Z 5000 / 1000)%Q;; poll_scheduler Scenario.args env 2 None)
        (emit (DEBUG, Text "The scheduler status endpoint returned a non-json reply!")
              (count_proxy_get Scenario.registered)).
Proof.
  intros env. split.
  - apply (proj1 (unknown_status_keeps_polling Scenario.args env)
             Scenario.registered (JList [])); reflexivity.
  - apply (proj1 (proj2 (unknown_status_keeps_polling Scenario.args env))
             2%nat None None Scenario.registered Scenario.registered _ (JStr "unknown"));
      reflexivity.
Defined.

(** ** Steps of a program that does not end *)

Lemma bind_then_none {S A B} (m : prog S A) (f : A → prog S B) s a s' :
  m s = Some (Ok a, s') → f a s' = None → (m ≫= f) s = None.
Proof. intros Hm Hf. unfold mbind, prog_bind. rewrite Hm. exact Hf. Qed.

Lemma bind_none {S A B} (m : prog S A) (f : A → prog S B) s :
  m s = None → (m ≫= f) s = None.
Proof. intros Hm. unfold mbind, prog_bind. rewrite Hm. reflexivity. Qed.

Lemma try_except_none {S A} (body : prog S A) handler s :
  body s = None → try_except body handler s = None.
Proof. intros Hbody. unfold try_except. rewrite Hbody. reflexivity. Qed.

Lemma try_finally_none {S A} (body : prog S A) final s :
  body s = None → try_finally body final s = None.
Proof. intros Hbody. unfold try_finally. rewrite Hbody. reflexivity. Qed.

Lemma statuses_keep_running states rest k :
  Forall (fun s => s ≠ "success" ∧ s ≠ "failed") (rest :: states) →
  ∃ entries state,
    proxy_reply (Scenario.statuses states rest) k = Ok (JDict entries)
    ∧ dict_get "state" entries = Some state
    ∧ json_is_str state "success" = false
    ∧ json_is_str state "failed" = false.
Proof.
  intros Hall. cbn [Scenario.statuses Scenario.answering proxy_reply].
  change (state_reply rest) with ((fun s => state_reply s) rest).
  rewrite map_nth.
  exists [("state", JStr (nth k states rest))], (JStr (nth k states rest)).
  split; [ reflexivity | ]. split; [ reflexivity | ].
  assert (Hk : nth k states rest ≠ "success" ∧ nth k states rest ≠ "failed").
  { rewrite Forall_forall in Hall. apply Hall.
    destruct (nth_in_or_default k states rest) as [ Hin | -> ].
    - right. apply list_elem_of_In. exact Hin.
    - left. }
  cbn [json_is_str]. destruct Hk as [Hs Hf].
  split; apply String.eqb_neq; assumption.
Qed.

(** Either budget exhausted makes the [try] block raise. *)
Lemma provision_not_verified args env steps n n' :
  Args.custom_scheduler args = false →
  add_system env steps true 300
    (emit (DEBUG, Text "Adding scheduler microservice")
       (if system_exists n
        then removed (emit (DEBUG, Text "Removing existing scheduler system...") n)
        else n))
  = Some (Ok false, n') →
  provision args env steps n
  = Some (Raise (RuntimeError "Failed to initialise scheduler"),
          emit (ERROR, Text "Scheduler config failed to load!") n').
Proof.
  intros Hcustom Hadd. unfold provision, get_system. prog_simpl. rewrite Hcustom.
  destruct (system_exists n); prog_simpl; rewrite ?remove_system_runs;
    prog_simpl; rewrite Hadd; reflexivity.
Qed.

Lemma start_scheduler_try_not_running args env steps timeout n n1 n2 :
  provision args env steps n = Some (Ok (), n1) →
  wait_for_microservice env steps timeout n1 = Some (Ok false, n2) →
  start_scheduler_try args env steps timeout n
  = Some (Raise (RuntimeError "Timed out waiting for scheduler to load"), n2).
Proof.
  intros Hprovision Hwait. unfold start_scheduler_try. prog_simpl.
  rewrite Hprovision, Hwait. reflexivity.
Qed.

(** C6 (amended). The poll for the posted configuration and the poll for
    the running microservice have a budget that each turn lowers by the
    five seconds it sleeps: they end within [timeout / 5] turns, and with
    [False] when nothing arrived; on that [False] the [try] block of
    [start_scheduler] raises, and the handler does not look at what was
    raised (it prints it when asked to be extra verbose). The poll for
    the outcome in [run] has no budget: while the statuses are neither
    "success" nor "failed" it goes on. *)
Theorem budgeted_polls_end :
  (∀ env steps timeout n,
     (timeout <= 5 * inject_Z (Z.of_nat steps))%Q →
     ∃ up n',
       wait_running env steps timeout n = Some (Ok up, n')
       ∧ (status_gets n' ≤ status_gets n + steps)%nat
       ∧ ((∀ k, reports_running env k = false) → up = false))
  ∧ (∀ env steps timeout n,
       (timeout <= 5 * inject_Z (Z.of_nat steps))%Q →
       ∃ verified n',
         verify_posted env steps timeout n = Some (Ok verified, n')
         ∧ (config_gets n' ≤ config_gets n + steps)%nat
         ∧ ((∀ k, config_matches env k = false) → verified = false))
  ∧ (∀ args env steps n n',
       Args.custom_scheduler args = false →
       add_system env steps true 300
         (emit (DEBUG, Text "Adding scheduler microservice")
            (if system_exists n
             then removed (emit (DEBUG, Text "Removing existing scheduler system...") n)
             else n))
       = Some (Ok false, n') →
       provision args env steps n
       = Some (Raise (RuntimeError "Failed to initialise scheduler"),
               emit (ERROR, Text "Scheduler config failed to load!") n'))
  ∧ (∀ args env steps timeout n n1 n2,
       provision args env steps n = Some (Ok (), n1) →
       wait_for_microservice env steps timeout n1 = Some (Ok false, n2) →
       start_scheduler_try args env steps timeout n
       = Some (Raise (RuntimeError "Timed out waiting for scheduler to load"), n2))
  ∧ (∀ args env e e',
       Args.extra_verbose args = false →
       start_scheduler_except args env e = start_scheduler_except args env e')
  ∧ (∀ args env,
       (0 <= Args.scheduler_poll_frequency args)%Z →
       (∀ k, ∃ entries state,
           proxy_reply env k = Ok (JDict entries)
           ∧ dict_get "state" entries = Some state
           ∧ json_is_str state "success" = false
           ∧ json_is_str state "failed" = false) →
       ∀ steps since n,
         system_exists n = true → poll_scheduler args env steps since n = None).
Proof.
  split; [ exact wait_running_bounded | ].
  split; [ exact verify_posted_bounded | ].
  split; [ exact provision_not_verified | ].
  split; [ exact start_scheduler_try_not_running | ].
  split; [ | exact poll_scheduler_unbounded ].
  intros args env e e' Hquiet. unfold start_scheduler_except.
  rewrite Hquiet. reflexivity.
Qed.

Lemma budgeted_polls_end_witness :
  (300 <= 5 * inject_Z (Z.of_nat 60))%Q
  ∧ (∃ up n',
       wait_running Scenario.never_running 60 300 Scenario.registered
       = Some (Ok up, n')
       ∧ (status_gets n' ≤ status_gets Scenario.registered + 60)%nat
       ∧ ((∀ k, reports_running Scenario.never_running k = false) → up = false))
  ∧ ∃ n1 n2,
      provision Scenario.args Scenario.never_running 60 fresh_node = Some (Ok (), n1)
      ∧ wait_for_microservice Scenario.never_running 60 300 n1 = Some (Ok false, n2)
      ∧ status_gets n2 = 60%nat
      ∧ start_scheduler_try Scenario.args Scenario.never_running 60 300 fresh_node
        = Some (Raise (RuntimeError "Timed out waiting for scheduler to load"), n2).
Proof.
  split; [ unfold Qle; cbn; lia | ].
  split.
  - apply (proj1 budgeted_polls_end Scenario.never_running 60%nat 300%Q
             Scenario.registered).
    unfold Qle; cbn; lia.
  - eexists _, _.
    split; [ vm_compute; reflexivity | ].
    split; [ vm_compute; reflexivity | ].
    split; [ reflexivity | ].
    refine (proj1 (proj2 (proj2 (proj2 budgeted_polls_end)))
              Scenario.args Scenario.never_running 60%nat 300%Q fresh_node _ _ _ _).
    + vm_compute. reflexivity.
    + vm_compute. reflexivity.
Defined.

(** C6, as stated, fails: with statuses that stay "running", [run] ends
    for no number of steps, whether "init" was seen before (the poll for
    the outcome has no budget) or not (the poll for [init] does not test
    its budget). *)
Lemma polling_has_no_bound :
  (¬ ∃ steps r,
       run Scenario.args (Scenario.statuses ["init"] "running") steps fresh_node
       = Some r)
  ∧ (¬ ∃ steps r,
         run Scenario.args (Scenario.statuses [] "running") steps fresh_node
         = Some r).
Proof.
  split; intros (steps & r & Hrun).
  - destruct steps as [ | steps ]; [ vm_compute in Hrun; discriminate | ].
    enough (Hnone : run Scenario.args (Scenario.statuses ["init"] "running")
                      (S steps) fresh_node = None) by congruence.
    unfold run.
    eapply bind_then_none; [ reflexivity | ]. cbn beta.
    eapply bind_then_none; [ vm_compute; reflexivity | ]. cbn beta.
    apply bind_none, try_finally_none, try_except_none.
    apply poll_scheduler_unbounded; [ vm_compute; discriminate | | reflexivity ].
    intros k. apply statuses_keep_running.
    repeat constructor; discriminate.
  - destruct steps as [ | steps ]; [ vm_compute in Hrun; discriminate | ].
    enough (Hnone : run Scenario.args (Scenario.statuses [] "running")
                      (S steps) fresh_node = None) by congruence.
    unfold run.
    eapply bind_then_none; [ reflexivity | ]. cbn beta.
    apply bind_none. unfold start_scheduler. apply try_except_none.
    unfold start_scheduler_try.
    eapply bind_then_none; [ vm_compute; reflexivity | ]. cbn beta.
    eapply bind_then_none; [ vm_compute; reflexivity | ]. cbn beta.
    eapply bind_then_none; [ vm_compute; reflexivity | ]. cbn beta zeta.
    apply bind_none.
    apply await_init_unbounded; [ reflexivity | | reflexivity ].
    intros k. exists [("state", JStr "running")], (JStr "running").
    split; [ destruct k; reflexivity | split; reflexivity ].
Qed.

(* ================================================================== *)
(** * Part III: further properties of the code                          *)
(* ================================================================== *)

(** ** What the entity filter leaves *)

Lemma filter_entries_filtered_keys test_spec parent_path entries out :
  Forall (fun kv => ∀ y, filter_item test_spec parent_path kv.2 = Ok y →
                         filtered_keys test_spec parent_path y = true) entries →
  filter_entries test_spec parent_path entries = Ok out →
  filtered_keys test_spec parent_path (JDict out) = true.
Proof.
  intros Hall. revert out.
  induction Hall as [ | [key value] rest Hhead Hrest IH ]; intros out Hout.
  - cbn in Hout. injection Hout as <-. reflexivity.
  - cbn [filter_entries] in Hout. cbn [snd] in Hhead.
    destruct (startswith key "_") eqn:Hunder.
    + destruct (keeps_underscore_key key value) eqn:Hkeep; [ | auto ].
      destruct (filter_entries test_spec parent_path rest) as [ out' | ] eqn:Hrec;
        exc_simpl; [ | discriminate ].
      injection Hout as <-. cbn [filtered_keys forallb fst snd].
      rewrite Hunder, Hkeep. exact (IH out' eq_refl).
    + destruct (is_path_blacklisted test_spec (parent_path ++ [key]))
        as [ [ | ] | ] eqn:Hblack; exc_simpl; [ auto | | discriminate ].
      destruct (filter_item test_spec parent_path value) as [ value' | ] eqn:Hvalue;
        exc_simpl; [ | discriminate ].
      destruct (filter_entries test_spec parent_path rest) as [ out' | ] eqn:Hrec;
        exc_simpl; [ | discriminate ].
      injection Hout as <-. cbn [filtered_keys forallb fst snd].
      rewrite Hunder, Hblack, (Hhead value' eq_refl). exact (IH out' eq_refl).
Qed.

Lemma filter_items_filtered_keys test_spec parent_path items out :
  Forall (fun x => ∀ y, filter_item test_spec parent_path x = Ok y →
                        filtered_keys test_spec parent_path y = true) items →
  filter_items test_spec parent_path items = Ok out →
  filtered_keys test_spec parent_path (JList out) = true.
Proof.
  intros Hall. revert out.
  induction Hall as [ | x rest Hhead Hrest IH ]; intros out Hout.
  - cbn in Hout. injection Hout as <-. reflexivity.
  - cbn [filter_items] in Hout.
    destruct (filter_item test_spec parent_path x) as [ x' | ] eqn:Hx;
      exc_simpl; [ | discriminate ].
    destruct (filter_items test_spec parent_path rest) as [ out' | ] eqn:Hrec;
      exc_simpl; [ | discriminate ].
    injection Hout as <-. cbn [filtered_keys forallb].
    rewrite (Hhead x' eq_refl). exact (IH out' eq_refl).
Qed.

(** X1. What [filter_entity] returns holds, at every depth that is reached
    through keys without an underscore and through lists, no underscore
    key but [_id] and a [_deleted] that is True, and no key the test
    spec blacklists. *)
Theorem filter_entity_leaves_filtered_keys test_spec entity out :
  filter_entity entity test_spec = Ok out →
  filtered_keys test_spec [] out = true.
Proof.
  unfold filter_entity. generalize (@nil string) as parent_path. intros parent_path.
  revert out. induction entity as [ | b | n | text | s | items IH | entries IH ]
    using json_induction; intros out Hout;
    try (cbn in Hout; injection Hout as <-; reflexivity).
  - rewrite filter_item_list in Hout.
    destruct (filter_items test_spec parent_path items) as [ out' | ] eqn:Hitems;
      exc_simpl; [ | discriminate ].
    injection Hout as <-. exact (filter_items_filtered_keys _ _ _ _ IH Hitems).
  - rewrite filter_item_dict in Hout.
    destruct (filter_entries test_spec parent_path entries) as [ out' | ] eqn:Hentries;
      exc_simpl; [ | discriminate ].
    injection Hout as <-. exact (filter_entries_filtered_keys _ _ _ _ IH Hentries).
Qed.

Lemma filter_entity_leaves_filtered_keys_witness :
  filter_entity
    (JDict [("_id", JStr "x"); ("_updated", JInt 7); ("_deleted", JBool false);
            ("secret", JStr "s");
            ("rows", JList [JDict [("_ts", JInt 1); ("n", JInt 2)]])])
    (Scenario.spec [("blacklist", JList [JStr "sec*"])])
  = Ok (JDict [("_id", JStr "x"); ("rows", JList [JDict [("n", JInt 2)]])])
  ∧ filtered_keys (Scenario.spec [("blacklist", JList [JStr "sec*"])]) []
      (JDict [("_id", JStr "x"); ("rows", JList [JDict [("n", JInt 2)]])]) = true.
Proof.
  split; [ vm_compute; reflexivity | ].
  apply (filter_entity_leaves_filtered_keys
           (Scenario.spec [("blacklist", JList [JStr "sec*"])])
           (JDict [("_id", JStr "x"); ("_updated", JInt 7); ("_deleted", JBool false);
                   ("secret", JStr "s");
                   ("rows", JList [JDict [("_ts", JInt 1); ("n", JInt 2)]])])).
  vm_compute. reflexivity.
Defined.

Lemma filter_entity_get_id test_spec entity out :
  filter_entity entity test_spec = Ok out →
  get_id out = get_id entity.
Proof.
  unfold filter_entity.
  destruct entity as [ | b | n | text | s | items | entries ];
    try (cbn; intros [= <-]; reflexivity).
  - rewrite filter_item_list.
    destruct (filter_items test_spec [] items); exc_simpl; intros [= <-]; reflexivity.
  - rewrite filter_item_dict.
    destruct (filter_entries test_spec [] entries) as [ out' | ] eqn:Hout;
      exc_simpl; intros [= <-].
    cbn [get_id]. rewrite (filter_entries_id _ _ _ _ Hout). reflexivity.
Qed.

(** X2. Filtering does not touch the identity: [e['_id']] of the filtered
    entity is what it was, a value or the same error. *)
Theorem filter_entity_keeps_id test_spec entity out :
  filter_entity entity test_spec = Ok out →
  get_id out = get_id entity.
Proof. apply filter_entity_get_id. Qed.

Lemma filter_entity_keeps_id_witness :
  get_id (JDict [("_id", JDict [("_n", JInt 1)]); ("v", JInt 2)])
  = Ok (JDict [("_n", JInt 1)])
  ∧ get_id (JDict [("_id", JDict [("_n", JInt 1)])])
    = get_id (JDict [("_id", JDict [("_n", JInt 1)]); ("_v", JInt 2)]).
Proof.
  split; [ reflexivity | ].
  apply (filter_entity_keeps_id (Scenario.spec [])
           (JDict [("_id", JDict [("_n", JInt 1)]); ("_v", JInt 2)])).
  vm_compute. reflexivity.
Defined.

Lemma filter_entries_sublist test_spec parent_path entries out :
  filter_entries test_spec parent_path entries = Ok out →
  map fst out `sublist_of` map fst entries.
Proof.
  revert out. induction entries as [ | [key value] rest IH ]; intros out Hout.
  - cbn in Hout. injection Hout as <-. constructor.
  - cbn [filter_entries] in Hout. cbn [map fst].
    destruct (startswith key "_").
    + destruct (keeps_underscore_key key value).
      * destruct (filter_entries test_spec parent_path rest) as [ out' | ];
          exc_simpl; [ | discriminate ].
        injection Hout as <-. cbn [map fst]. apply sublist_skip, IH. reflexivity.
      * apply sublist_cons, IH, Hout.
    + destruct (is_path_blacklisted test_spec (parent_path ++ [key])) as [ [ | ] | ];
        exc_simpl; [ apply sublist_cons, IH, Hout | | discriminate ].
      destruct (filter_item test_spec parent_path value); exc_simpl; [ | discriminate ].
      destruct (filter_entries test_spec parent_path rest) as [ out' | ];
        exc_simpl; [ | discriminate ].
      injection Hout as <-. cbn [map fst]. apply sublist_skip, IH. reflexivity.
Qed.

Lemma filter_items_Forall2 test_spec parent_path items out :
  filter_items test_spec parent_path items = Ok out →
  Forall2 (fun x y => filter_item test_spec parent_path x = Ok y) items out.
Proof.
  revert out. induction items as [ | x rest IH ]; intros out Hout.
  - cbn in Hout. injection Hout as <-. constructor.
  - cbn [filter_items] in Hout.
    destruct (filter_item test_spec parent_path x) as [ x' | ] eqn:Hx;
      exc_simpl; [ | discriminate ].
    destruct (filter_items test_spec parent_path rest) as [ out' | ];
      exc_simpl; [ | discriminate ].
    injection Hout as <-. constructor; [ exact Hx | apply IH; reflexivity ].
Qed.

(** X3. The filter keeps the kind of a value: a dict gives a dict whose keys
    are keys of the input in their order, a list gives the list of its
    filtered items, one for one, and anything else is returned as it
    is. *)
Theorem filter_item_keeps_shape test_spec parent_path item out :
  filter_item test_spec parent_path item = Ok out →
  match item with
  | JDict entries =>
      ∃ out_entries,
        out = JDict out_entries
        ∧ map fst out_entries `sublist_of` map fst entries
  | JList items =>
      ∃ out_items,
        out = JList out_items
        ∧ Forall2 (fun x y => filter_item test_spec parent_path x = Ok y)
            items out_items
  | _ => out = item
  end.
Proof.
  destruct item as [ | b | n | text | s | items | entries ];
    try (cbn; intros [= <-]; reflexivity).
  - rewrite filter_item_list.
    destruct (filter_items test_spec parent_path items) as [ out' | ] eqn:Hout;
      exc_simpl; intros [= <-].
    exists out'. split; [ reflexivity | exact (filter_items_Forall2 _ _ _ _ Hout) ].
  - rewrite filter_item_dict.
    destruct (filter_entries test_spec parent_path entries) as [ out' | ] eqn:Hout;
      exc_simpl; intros [= <-].
    exists out'. split; [ reflexivity | exact (filter_entries_sublist _ _ _ _ Hout) ].
Qed.

Lemma filter_item_keeps_shape_witness :
  ∃ out_entries,
    JDict [("b", JInt 1); ("a", JInt 3)] = JDict out_entries
    ∧ map fst out_entries `sublist_of` ["b"; "_x"; "a"].
Proof.
  apply (filter_item_keeps_shape (Scenario.spec []) []
           (JDict [("b", JInt 1); ("_x", JInt 2); ("a", JInt 3)])).
  vm_compute. reflexivity.
Defined.

(** ** Normalising numbers *)

Lemma fix_decimal_to_ints_unchanged value :
  has_float_dot0 value = false → _fix_decimal_to_ints value = value.
Proof.
  induction value as [ | b | n | text | s | items IH | entries IH ]
    using json_induction; try reflexivity.
  - cbn. intros ->. reflexivity.
  - cbn [has_float_dot0 _fix_decimal_to_ints]. intros Hnone. f_equal.
    induction IH as [ | x rest Hx Hrest IHrest ]; [ reflexivity | ].
    cbn [existsb] in Hnone. apply orb_false_iff in Hnone as [Hhead Htail].
    cbn [map]. rewrite (Hx Hhead), (IHrest Htail). reflexivity.
  - cbn [has_float_dot0 _fix_decimal_to_ints]. intros Hnone. f_equal.
    induction IH as [ | [k v] rest Hx Hrest IHrest ]; [ reflexivity | ].
    cbn [existsb snd] in Hnone. apply orb_false_iff in Hnone as [Hhead Htail].
    cbn [map fst snd] in *. rewrite (Hx Hhead), (IHrest Htail). reflexivity.
Qed.

(** X4. [_fix_decimal_to_ints] changes a value exactly when a float whose
    text ends in [.0] occurs in it. *)
Theorem fix_decimal_to_ints_changes_dot0_only value :
  _fix_decimal_to_ints value = value ↔ has_float_dot0 value = false.
Proof.
  split.
  - intros Hsame. rewrite <- Hsame. apply fix_decimal_to_ints_clean.
  - apply fix_decimal_to_ints_unchanged.
Qed.

Lemma fix_decimal_to_ints_changes_dot0_only_witness :
  _fix_decimal_to_ints (JList [JFloat "2.5"; JDict [("n", JFloat "1e+16")]])
  = JList [JFloat "2.5"; JDict [("n", JFloat "1e+16")]].
Proof.
  apply (proj2 (fix_decimal_to_ints_changes_dot0_only
                  (JList [JFloat "2.5"; JDict [("n", JFloat "1e+16")]]))).
  reflexivity.
Defined.

(** ** When the config is up to date *)

(** The second loop of [status] leaves [diff_found] False exactly when
    it was False and every local file is on the node with the same
    text; it has logged nothing then. *)
Lemma status_local_files_found local_config remote_config remote_files
  local_files st :
  Forall (fun f => f ∈ namelist local_config) local_files →
  (∀ f, f ∈ remote_files → f ∈ namelist remote_config) →
  ∃ records found,
    status_local_files local_config remote_config remote_files st local_files
    = Ok (records, found)
    ∧ (found = false
       ↔ st.2 = false
         ∧ ∀ f, f ∈ local_files →
                f ∈ remote_files
                ∧ zip_read local_config f = zip_read remote_config f)
    ∧ (found = false → records = st.1).
Proof.
  intros Hlocal Hremote. revert st.
  induction Hlocal as [ | f rest Hf Hrest IH ]; intros [records found].
  - exists records, found. cbn. split; [ reflexivity | ]. split; [ | reflexivity ].
    split; [ intros ->; split; [ reflexivity | intros f Hin; inversion Hin ] | tauto ].
  - cbn [status_local_files]. unfold status_local_file at 1. cbn [fst snd].
    destruct (str_in f remote_files) eqn:Hin; cbn [negb].
    + apply str_in_elem_of in Hin as Hin'.
      destruct (zip_read_member local_config f Hf) as [local_data Hl].
      destruct (zip_read_member remote_config f (Hremote f Hin')) as [remote_data Hr].
      rewrite Hl, Hr. exc_simpl.
      destruct (String.eqb local_data remote_data) eqn:Hsame; cbn [negb]; exc_simpl.
      * apply String.eqb_eq in Hsame. subst remote_data.
        destruct (IH (records, found)) as (records' & found' & -> & Hiff & Hrec).
        exists records', found'. split; [ reflexivity | ]. split; [ | exact Hrec ].
        rewrite Hiff. cbn [snd]. split.
        -- intros [Hfound Hall]. split; [ exact Hfound | ].
           intros g [ -> | Hg ]%elem_of_cons; [ | auto ].
           split; [ exact Hin' | congruence ].
        -- intros [Hfound Hall]. split; [ exact Hfound | ].
           intros g Hg. apply Hall. apply elem_of_cons. auto.
      * apply String.eqb_neq in Hsame.
        match goal with
        | |- context [ status_local_files _ _ _ (?r, true) rest ] =>
            destruct (IH (r, true)) as (records' & found' & -> & Hiff & Hrec)
        end.
        exists records', found'. split; [ reflexivity | ]. cbn [snd] in Hiff.
        assert (Hfound' : found' = false → False).
        { intros H. apply Hiff in H as [ [=] _ ]. }
        split; [ | intros H; destruct (Hfound' H) ].
        split; [ intros H; destruct (Hfound' H) | ].
        intros [_ Hall]. destruct (Hall f) as [_ Heq]; [ left | ].
        congruence.
    + exc_simpl.
      match goal with
      | |- context [ status_local_files _ _ _ (?r, true) rest ] =>
          destruct (IH (r, true)) as (records' & found' & -> & Hiff & Hrec)
      end.
      exists records', found'. split; [ reflexivity | ]. cbn [snd] in Hiff.
      assert (Hfound' : found' = false → False).
      { intros H. apply Hiff in H as [ [=] _ ]. }
      split; [ | intros H; destruct (Hfound' H) ].
      split; [ intros H; destruct (Hfound' H) | ].
      intros [_ Hall]. destruct (Hall f) as [Hmem _]; [ left | ].
      apply str_in_elem_of in Hmem. congruence.
Qed.

(** On archives of decoded text [status] returns, and it says that the
    node is up to date exactly when both archives hold the same names
    and, name for name, the same text; nothing else is logged then. *)
Lemma status_in_sync_iff local_config remote_config :
  ∃ records diff_found,
    status local_config remote_config = Ok (records, diff_found)
    ∧ (diff_found = false
       ↔ (∀ f, f ∈ namelist local_config ↔ f ∈ namelist remote_config)
         ∧ ∀ f, f ∈ namelist local_config →
                zip_read local_config f = zip_read remote_config f)
    ∧ (diff_found = false → records = [(INFO, UpToDate)]).
Proof.
  unfold status.
  set (remote_files := py_sorted String.ltb (namelist remote_config)).
  set (local_files := py_sorted String.ltb (namelist local_config)).
  assert (Hremote_files : ∀ f, f ∈ remote_files ↔ f ∈ namelist remote_config).
  { intros f. unfold remote_files. rewrite (py_sorted_perm String.ltb). reflexivity. }
  assert (Hlocal_files : ∀ f, f ∈ local_files ↔ f ∈ namelist local_config).
  { intros f. unfold local_files. rewrite (py_sorted_perm String.ltb). reflexivity. }
  rewrite status_remote_files. cbn zeta. cbn [fst snd app orb].
  set (remote_only := List.filter (fun f => negb (str_in f local_files)) remote_files).
  assert (Hremote_only : remote_only = []
                         ↔ ∀ f, f ∈ namelist remote_config → f ∈ namelist local_config).
  { unfold remote_only. split.
    - intros Hnil f Hf. apply Hlocal_files, str_in_elem_of.
      destruct (str_in f local_files) eqn:Hin; [ reflexivity | ].
      assert (Hmem : In f (List.filter (fun f => negb (str_in f local_files))
                             remote_files)).
      { apply filter_In. split; [ apply list_elem_of_In, Hremote_files, Hf | ].
        rewrite Hin. reflexivity. }
      rewrite Hnil in Hmem. destruct Hmem.
    - intros Hall.
      destruct (List.filter (fun f => negb (str_in f local_files)) remote_files)
        as [ | g rest ] eqn:Hfilter; [ reflexivity | ].
      assert (Hmem : In g (List.filter (fun f => negb (str_in f local_files))
                             remote_files)).
      { rewrite Hfilter. left. reflexivity. }
      apply filter_In in Hmem as [Hg Hout].
      apply list_elem_of_In, Hremote_files, Hall, Hlocal_files, str_in_elem_of in Hg.
      rewrite Hg in Hout. discriminate. }
  match goal with
  | |- context [ status_local_files _ _ _ ?st _ ] =>
      destruct (status_local_files_found local_config remote_config
                  remote_files local_files st)
        as (records & found & Hrun & Hiff & Hrec)
  end.
  { apply Forall_forall. intros f Hf. apply Hlocal_files. exact Hf. }
  { intros f Hf. apply Hremote_files. exact Hf. }
  cbn [fst snd] in Hiff, Hrec. rewrite Hrun. exc_simpl.
  assert (Hsync : found = false
                  ↔ (∀ f, f ∈ namelist local_config ↔ f ∈ namelist remote_config)
                    ∧ ∀ f, f ∈ namelist local_config →
                           zip_read local_config f = zip_read remote_config f).
  { rewrite Hiff, negb_false_iff, bool_decide_eq_true, Hremote_only. split.
    - intros [Hback Hall]. split.
      + intros f. split; [ | apply Hback ].
        intros Hf. apply Hremote_files, (Hall f), Hlocal_files, Hf.
      + intros f Hf. apply (Hall f), Hlocal_files, Hf.
    - intros [Hnames Hdata]. split; [ intros f; apply Hnames | ].
      intros f Hf%Hlocal_files. split; [ apply Hremote_files, Hnames, Hf | auto ]. }
  destruct found.
  - eexists _, true. split; [ reflexivity | ].
    split; [ exact Hsync | discriminate ].
  - eexists _, false. split; [ reflexivity | ].
    split; [ exact Hsync | ].
    intros _. rewrite (Hrec eq_refl).
    destruct (proj1 Hiff eq_refl) as [Hnone _].
    apply negb_false_iff, bool_decide_eq_true in Hnone. rewrite Hnone. reflexivity.
Qed.

(** One local file: decoding raises, or the step is the step on decoded
    text. *)
Lemma bytes_status_local_file local_config remote_config remote_files st f :
  f ∈ namelist local_config →
  (∀ f, f ∈ remote_files → f ∈ namelist remote_config) →
  (Bytes.status_local_file local_config remote_config remote_files st f
   = Raise ValueError
   ∧ f ∈ remote_files
   ∧ ∃ data,
       (zip_read local_config f = Ok data ∨ zip_read remote_config f = Ok data)
       ∧ utf8_valid data = false)
  ∨ ((∃ st',
        Bytes.status_local_file local_config remote_config remote_files st f = Ok st'
        ∧ status_local_file local_config remote_config remote_files st f = Ok st')
     ∧ ∀ data,
         f ∈ remote_files →
         zip_read local_config f = Ok data ∨ zip_read remote_config f = Ok data →
         utf8_valid data = true).
Proof.
  intros Hf Hremote.
  unfold Bytes.status_local_file, status_local_file.
  destruct (str_in f remote_files) eqn:Hin; cbn [negb].
  - apply str_in_elem_of in Hin as Hin'.
    destruct (zip_read_member local_config f Hf) as [local_data Hl].
    destruct (zip_read_member remote_config f (Hremote f Hin')) as [remote_data Hr].
    rewrite Hl, Hr. exc_simpl. unfold Bytes.decode_utf8.
    destruct (utf8_valid local_data) eqn:Hlv; exc_simpl.
    2: { left. split; [ reflexivity | ]. split; [ exact Hin' | ].
         exists local_data. split; [ left; reflexivity | exact Hlv ]. }
    destruct (utf8_valid remote_data) eqn:Hrv; exc_simpl.
    2: { left. split; [ reflexivity | ]. split; [ exact Hin' | ].
         exists remote_data. split; [ right; reflexivity | exact Hrv ]. }
    right. split.
    + destruct (String.eqb local_data remote_data); cbn [negb];
        eexists; split; reflexivity.
    + intros data _ [ [= <-] | [= <-] ]; assumption.
  - right. split; [ eexists; split; reflexivity | ].
    intros data Hin'. apply str_in_elem_of in Hin'. congruence.
Qed.

Lemma bytes_status_local_files local_config remote_config remote_files local_files :
  Forall (fun f => f ∈ namelist local_config) local_files →
  (∀ f, f ∈ remote_files → f ∈ namelist remote_config) →
  ∀ st,
    (Bytes.status_local_files local_config remote_config remote_files st local_files
     = Raise ValueError
     ∧ ∃ f data,
         f ∈ local_files ∧ f ∈ remote_files
         ∧ (zip_read local_config f = Ok data ∨ zip_read remote_config f = Ok data)
         ∧ utf8_valid data = false)
    ∨ (Bytes.status_local_files local_config remote_config remote_files st local_files
       = status_local_files local_config remote_config remote_files st local_files
       ∧ ∀ f data,
           f ∈ local_files → f ∈ remote_files →
           zip_read local_config f = Ok data ∨ zip_read remote_config f = Ok data →
           utf8_valid data = true).
Proof.
  intros Hlocal Hremote.
  induction Hlocal as [ | f rest Hf Hrest IH ]; intros st.
  - right. split; [ reflexivity | ]. intros f data Hin. inversion Hin.
  - cbn [Bytes.status_local_files status_local_files].
    destruct (bytes_status_local_file local_config remote_config remote_files st f
                Hf Hremote)
      as [ (-> & Hin & data & Hread & Hbad)
         | ((st' & -> & ->) & Hvalid) ]; exc_simpl.
    + left. split; [ reflexivity | ]. exists f, data.
      split; [ left | ]. auto.
    + destruct (IH st') as [ (-> & g & data & Hg & Hgin & Hread & Hbad)
                           | (-> & Hrest_valid) ].
      * left. split; [ reflexivity | ]. exists g, data.
        split; [ right; exact Hg | ]. auto.
      * right. split; [ reflexivity | ].
        intros g data [ -> | Hg ]%elem_of_cons Hgin Hread; eauto.
Qed.

(** X5. The comparison of [status] raises exactly when a file that both
    archives hold is not well-formed UTF-8 in one of them: it decodes
    every such file, whether or not the bytes differ, and raises the
    UnicodeDecodeError. Otherwise it returns, and it says that the node
    is up to date exactly when both archives hold the same names and,
    name for name, the same bytes; nothing else is logged then. *)
Theorem status_up_to_date_iff local_config remote_config :
  (Bytes.status local_config remote_config = Raise ValueError
   ∧ ∃ f data,
       f ∈ namelist local_config ∧ f ∈ namelist remote_config
       ∧ (zip_read local_config f = Ok data ∨ zip_read remote_config f = Ok data)
       ∧ utf8_valid data = false)
  ∨ ((∀ f data,
        f ∈ namelist local_config → f ∈ namelist remote_config →
        zip_read local_config f = Ok data ∨ zip_read remote_config f = Ok data →
        utf8_valid data = true)
     ∧ ∃ records diff_found,
         Bytes.status local_config remote_config = Ok (records, diff_found)
         ∧ (diff_found = false
            ↔ (∀ f, f ∈ namelist local_config ↔ f ∈ namelist remote_config)
              ∧ ∀ f, f ∈ namelist local_config →
                     zip_read local_config f = zip_read remote_config f)
         ∧ (diff_found = false → records = [(INFO, UpToDate)])).
Proof.
  pose proof (status_in_sync_iff local_config remote_config) as Hsync.
  unfold Bytes.status. unfold status in Hsync.
  set (remote_files := py_sorted String.ltb (namelist remote_config)) in *.
  set (local_files := py_sorted String.ltb (namelist local_config)) in *.
  assert (Hremote_files : ∀ f, f ∈ remote_files ↔ f ∈ namelist remote_config).
  { intros f. unfold remote_files. rewrite (py_sorted_perm String.ltb). reflexivity. }
  assert (Hlocal_files : ∀ f, f ∈ local_files ↔ f ∈ namelist local_config).
  { intros f. unfold local_files. rewrite (py_sorted_perm String.ltb). reflexivity. }
  cbn zeta in *.
  assert (Hlocal : Forall (fun f => f ∈ namelist local_config) local_files).
  { apply Forall_forall. intros f Hf. apply Hlocal_files. exact Hf. }
  assert (Hremote : ∀ f, f ∈ remote_files → f ∈ namelist remote_config).
  { intros f Hf. apply Hremote_files. exact Hf. }
  match goal with
  | |- context [ Bytes.status_local_files _ _ _ ?st _ ] =>
      destruct (bytes_status_local_files local_config remote_config
                  remote_files local_files Hlocal Hremote st)
        as [ (-> & f & data & Hf & Hfin & Hread & Hbad) | (-> & Hvalid) ]
  end.
  - left. split; [ reflexivity | ]. exists f, data.
    split; [ apply Hlocal_files, Hf | ]. split; [ apply Hremote_files, Hfin | ]. auto.
  - right. split; [ | exact Hsync ].
    intros f data Hf Hfin. apply Hvalid; [ apply Hlocal_files, Hf | apply Hremote_files, Hfin ].
Qed.

(** A member that is not UTF-8 makes the comparison raise although both
    archives hold the same bytes. *)
Lemma status_undecodable_member :
  let archive := [("a.json", String (ascii_of_nat 255) "")] in
  Bytes.status archive archive = Raise ValueError
  ∧ status archive archive = Ok ([(INFO, UpToDate)], false).
Proof. split; vm_compute; reflexivity. Qed.

(** ** Serialising with sorted keys *)

Lemma py_sorted_keyed_perm {A} (l l' : list (string * A)) :
  l ≡ₚ l' → NoDup (map fst l) → py_sorted key_lt l = py_sorted key_lt l'.
Proof.
  intros Hperm Hnodup.
  apply py_sorted_unique;
    [ exact key_lt_asym | exact key_lt_le_trans | exact Hperm | ].
  intros x y Hx Hy Hxy Hyx.
  apply (NoDup_map_inj fst l); [ exact Hnodup | exact Hx | exact Hy | ].
  apply ltb_antisym; assumption.
Qed.

Lemma encode_same_but_key_order v :
  ∀ v', same_but_key_order v v' → ∀ level, Dumps.encode level v = Dumps.encode level v'.
Proof.
  induction v as [ | b | n | text | s | items IH | entries IH ] using json_induction;
    intros v' Hsame level; inversion Hsame; subst; try reflexivity;
    try discriminate.
  - assert (Hmap : ∀ lvl, map (Dumps.encode lvl) items = map (Dumps.encode lvl) items').
    { intros lvl.
      match goal with H : Forall2 same_but_key_order items items' |- _ =>
        induction H as [ | x y l l' Hxy Hrest IHrest ] end; [ reflexivity | ].
      apply Forall_cons in IH as [Hx Hl]. cbn [map].
      rewrite (Hx y Hxy lvl), (IHrest Hl); [ reflexivity | ].
      constructor. exact Hrest. }
    match goal with H : Forall2 same_but_key_order items items' |- _ =>
      destruct H as [ | x y l l' Hxy Hrest ] end; [ reflexivity | ].
    cbn [Dumps.encode]. rewrite (Hmap (S level)). reflexivity.
  - rename entries' into mid.
    match goal with H : Forall2 _ entries mid |- _ => rename H into Hpoint end.
    match goal with H : mid ≡ₚ entries'' |- _ => rename H into Hperm end.
    match goal with H : NoDup _ |- _ => rename H into Hnodup end.
    assert (Hmap : ∀ lvl,
               map (fun kv => (kv.1, Dumps.encode lvl kv.2)) entries
               = map (fun kv => (kv.1, Dumps.encode lvl kv.2)) mid).
    { intros lvl. clear Hperm Hnodup Hsame.
      induction Hpoint as [ | [k x] [k' y] l l' [Hk Hxy] Hrest IHrest ];
        [ reflexivity | ].
      apply Forall_cons in IH as [Hx Hl]. cbn [fst snd] in *. subst k'.
      cbn [map fst snd]. rewrite (Hx y Hxy lvl), (IHrest Hl). reflexivity. }
    assert (Hsorted : ∀ lvl,
               py_sorted key_lt (map (fun kv => (kv.1, Dumps.encode lvl kv.2)) entries)
               = py_sorted key_lt
                   (map (fun kv => (kv.1, Dumps.encode lvl kv.2)) entries'')).
    { intros lvl. rewrite Hmap. apply py_sorted_keyed_perm.
      - apply Permutation_map. exact Hperm.
      - rewrite <- Hmap, map_map. cbn [fst]. exact Hnodup. }
    destruct entries as [ | kv rest ].
    + inversion Hpoint; subst. apply Permutation_nil_l in Hperm. subst. reflexivity.
    + destruct entries'' as [ | kv'' rest'' ].
      * inversion Hpoint; subst. apply Permutation_nil_r in Hperm. discriminate.
      * cbn [Dumps.encode]. cbn zeta. rewrite (Hsorted (S level)). reflexivity.
Qed.

(** X6. [json.dumps(..., sort_keys=True)] writes the same text for two
    values that differ in the order of the entries of their dicts
    only. *)
Theorem dumps_ignores_key_order v v' :
  same_but_key_order v v' → Dumps.dumps v = Dumps.dumps v'.
Proof. intros Hsame. apply encode_same_but_key_order. exact Hsame. Qed.

Lemma dumps_ignores_key_order_witness :
  Dumps.dumps (JList [JDict [("b", JInt 1); ("a", JDict [("y", JNull); ("x", JNull)])]])
  = Dumps.dumps (JList [JDict [("a", JDict [("x", JNull); ("y", JNull)]); ("b", JInt 1)]]).
Proof.
  apply dumps_ignores_key_order.
  apply same_list. constructor; [ | constructor ].
  apply (same_dict _ [("b", JInt 1); ("a", JDict [("x", JNull); ("y", JNull)])]).
  - constructor; [ split; [ reflexivity | apply same_scalar; reflexivity ] | ].
    constructor; [ | constructor ].
    split; [ reflexivity | ].
    apply (same_dict _ [("y", JNull); ("x", JNull)]).
    + repeat constructor.
    + apply perm_swap.
    + apply (bool_decide_unpack _). vm_compute. exact I.
  - apply perm_swap.
  - apply (bool_decide_unpack _). vm_compute. exact I.
Defined.

Lemma py_len_same_but_key_order v v' :
  same_but_key_order v v' → py_len v = py_len v'.
Proof.
  intros Hsame. inversion Hsame as [ | items items' Hitems
                                     | entries mid entries'' Hpoint Hperm Hnodup ];
    subst; [ reflexivity | | ]; cbn [py_len]; f_equal.
  - exact (Forall2_length _ _ _ Hitems).
  - rewrite (Forall2_length _ _ _ Hpoint). apply Permutation_length, Hperm.
Qed.

(** X7. The outcome of the comparison does not depend on the order in which
    the baseline file lists the keys of its objects. *)
Theorem verify_json_ignores_key_order test_spec expected_output expected_output'
  resp_json :
  same_but_key_order expected_output expected_output' →
  failed <$> verify_json test_spec expected_output resp_json
  = failed <$> verify_json test_spec expected_output' resp_json.
Proof.
  intros Hsame. unfold verify_json.
  destruct (py_iter (get_pipe_entities resp_json)) as [ entities | ];
    exc_simpl; [ | reflexivity ].
  destruct (mapM (fun e => filter_entity e test_spec) entities) as [ filtered | ];
    exc_simpl; [ | reflexivity ].
  destruct (sorted_by_id filtered) as [ current_output | ];
    exc_simpl; [ | reflexivity ].
  rewrite <- (py_len_same_but_key_order _ _ Hsame).
  unfold Dumps.dumps. rewrite <- (encode_same_but_key_order _ _ Hsame 0).
  destruct (py_len expected_output) as [ len_expected | ]; exc_simpl; [ | reflexivity ].
  destruct (negb (List.length current_output =? len_expected)%nat);
    [ reflexivity | ].
  destruct (negb (String.eqb (Dumps.encode 0 expected_output)
                    (Dumps.encode 0 (JList current_output)))); reflexivity.
Qed.

Lemma verify_json_ignores_key_order_witness :
  failed <$> verify_json (Scenario.spec [])
               (JList [JDict [("_id", JStr "a"); ("v", JInt 1)]])
               (JList [JDict [("_id", JStr "a"); ("v", JInt 1)]])
  = failed <$> verify_json (Scenario.spec [])
                 (JList [JDict [("v", JInt 1); ("_id", JStr "a")]])
                 (JList [JDict [("_id", JStr "a"); ("v", JInt 1)]]).
Proof.
  apply verify_json_ignores_key_order.
  apply same_list. constructor; [ | constructor ].
  apply (same_dict _ [("_id", JStr "a"); ("v", JInt 1)]).
  - repeat constructor.
  - apply perm_swap.
  - apply (bool_decide_unpack _). vm_compute. exact I.
Defined.

(** ** Pipe types *)

(** X8. [get_pipe_type] raises unless the effective config, its source and
    its sink are dicts, and decides by three tests: an embedded source
    makes an input pipe, else a sink type ending in [_endpoint] an
    endpoint pipe, else a sink with a dataset an internal pipe, else an
    output pipe. The datasets of the source do not change the answer. *)
Theorem get_pipe_type_three_tests pipe :
  get_pipe_type pipe
  = match dict_get "effective" (Pipe.config pipe) with
    | Some (JDict effective) =>
        match default (JDict []) (dict_get "source" effective),
              default (JDict []) (dict_get "sink" effective) with
        | JDict source_config, JDict sink_config =>
            Some (if json_is_str (default (JStr "") (dict_get "type" source_config))
                       "embedded"
                  then "input"
                  else if ends_with_endpoint
                            (default (JStr "") (dict_get "type" sink_config))
                  then "endpoint"
                  else if py_truthy (default JNull (dict_get "dataset" sink_config))
                  then "internal"
                  else "output")
        | _, _ => None
        end
    | _ => None
    end.
Proof.
  unfold get_pipe_type.
  destruct (dict_get "effective" (Pipe.config pipe)) as [ effective | ];
    [ | reflexivity ].
  destruct effective as [ | | | | | | effective ]; try reflexivity.
  cbn [mbind option_bind py_get].
  destruct (default (JDict []) (dict_get "source" effective))
    as [ | | | | | | source_config ]; try reflexivity;
    destruct (default (JDict []) (dict_get "sink" effective))
      as [ | | | | | | sink_config ]; try reflexivity.
  cbn [mbind option_bind py_get].
  destruct (json_is_str (default (JStr "") (dict_get "type" source_config)) "embedded");
    [ reflexivity | ].
  destruct (ends_with_endpoint (default (JStr "") (dict_get "type" sink_config)));
    [ reflexivity | ].
  destruct (py_truthy (default JNull (dict_get "dataset" source_config))) eqn:Hsource;
    cbn [mbind option_bind].
  - rewrite Hsource. cbn [mbind option_bind].
    destruct (py_truthy (default JNull (dict_get "dataset" sink_config))) eqn:Hsink;
      cbn [mbind option_bind negb]; rewrite ?Hsink; reflexivity.
  - destruct (py_truthy (default JNull (dict_get "datasets" source_config)))
      eqn:Hsources; cbn [mbind option_bind].
    + destruct (py_truthy (default JNull (dict_get "dataset" sink_config))) eqn:Hsink;
        cbn [mbind option_bind negb]; rewrite ?Hsink; reflexivity.
    + rewrite Hsources.
      destruct (py_truthy (default JNull (dict_get "dataset" sink_config))) eqn:Hsink;
        cbn [mbind option_bind negb]; rewrite ?Hsink; reflexivity.
Qed.

Lemma get_pipe_type_cases pipe pipe_type :
  get_pipe_type pipe = Some pipe_type →
  pipe_type = "output" ∨ pipe_type = "input" ∨ pipe_type = "endpoint"
  ∨ pipe_type = "internal".
Proof.
  unfold get_pipe_type.
  destruct (dict_get "effective" (Pipe.config pipe)) as [ effective | ];
    [ | discriminate ].
  cbn [mbind option_bind].
  destruct (py_get effective "source" (JDict [])) as [ source_config | ];
    [ | discriminate ]; cbn [mbind option_bind].
  destruct (py_get effective "sink" (JDict [])) as [ sink_config | ];
    [ | discriminate ]; cbn [mbind option_bind].
  destruct (py_get source_config "type" (JStr "")) as [ source_type | ];
    [ | discriminate ]; cbn [mbind option_bind].
  destruct (py_get sink_config "type" (JStr "")) as [ sink_type | ];
    [ | discriminate ]; cbn [mbind option_bind].
  destruct (json_is_str source_type "embedded"); [ intros [= <-]; auto | ].
  destruct (ends_with_endpoint sink_type); [ intros [= <-]; auto | ].
  destruct (py_get source_config "dataset" JNull) as [ source_dataset | ];
    [ | discriminate ]; cbn [mbind option_bind].
  destruct (if py_truthy source_dataset then Some source_dataset
            else py_get source_config "datasets" JNull) as [ source_datasets | ];
    [ | discriminate ]; cbn [mbind option_bind].
  destruct (if py_truthy source_datasets then py_get sink_config "dataset" JNull
            else Some source_datasets) as [ both | ];
    [ | discriminate ]; cbn [mbind option_bind].
  destruct (py_truthy both); [ intros [= <-]; auto | ].
  destruct (py_get sink_config "dataset" JNull) as [ sink_dataset | ];
    [ | discriminate ]; cbn [mbind option_bind].
  destruct (negb (py_truthy sink_dataset)); intros [= <-]; auto.
Qed.

(** X9. The four lists of pipes by type are made together or not at all,
    and every pipe of the node is in exactly one of them. *)
Theorem pipe_types_partition pipes :
  match get_output_pipes pipes, get_input_pipes pipes,
        get_endpoint_pipes pipes, get_internal_pipes pipes with
  | Some output, Some input, Some endpoint, Some internal =>
      (output ++ input ++ endpoint ++ internal)%list ≡ₚ pipes
  | None, None, None, None => Exists (fun p => get_pipe_type p = None) pipes
  | _, _, _, _ => False
  end.
Proof.
  unfold get_output_pipes, get_input_pipes, get_endpoint_pipes, get_internal_pipes.
  induction pipes as [ | p rest IH ]; [ cbn; reflexivity | ].
  cbn [pipes_of_type].
  destruct (get_pipe_type p) as [ t | ] eqn:Htype; cbn [mbind option_bind].
  - destruct (pipes_of_type "output" rest) as [ output | ],
             (pipes_of_type "input" rest) as [ input | ],
             (pipes_of_type "endpoint" rest) as [ endpoint | ],
             (pipes_of_type "internal" rest) as [ internal | ];
      cbn [mbind option_bind]; try contradiction.
    + destruct (get_pipe_type_cases p t Htype) as [ -> | [ -> | [ -> | -> ] ] ];
        cbn [String.eqb Ascii.eqb Bool.eqb].
      * cbn. constructor. exact IH.
      * rewrite <- app_comm_cons, <- Permutation_middle. constructor. exact IH.
      * rewrite app_assoc, <- app_comm_cons, <- Permutation_middle, <- app_assoc.
        constructor. exact IH.
      * rewrite !app_assoc, <- Permutation_middle, <- !app_assoc.
        constructor. exact IH.
    + right. exact IH.
  - left. exact Htype.
Qed.

(** ** Strings *)

Lemma substring_all s : String.substring 0 (String.length s) s = s.
Proof. induction s as [ | c s IH ]; [ reflexivity | cbn; rewrite IH; reflexivity ]. Qed.

Lemma length_append s t :
  String.length (s ++ t) = (String.length s + String.length t)%nat.
Proof. induction s as [ | c s IH ]; [ reflexivity | simpl; rewrite IH; reflexivity ]. Qed.

Lemma substring_app_prefix n s t :
  (n ≤ String.length s)%nat →
  String.substring 0 n (s ++ t) = String.substring 0 n s.
Proof.
  revert n. induction s as [ | c s IH ]; intros n Hn.
  - cbn in Hn. assert (n = 0)%nat as -> by lia. destruct t; reflexivity.
  - destruct n as [ | n ]; [ reflexivity | ].
    cbn [String.length] in Hn. simpl. f_equal. apply IH. lia.
Qed.

Lemma prefix_empty s : String.prefix EmptyString s = true.
Proof. destruct s; reflexivity. Qed.

Lemma prefix_char q c s :
  String.prefix (String q EmptyString) (String c s) = bool_decide (q = c).
Proof.
  simpl. destruct (ascii_dec q c) as [ -> | Hne ].
  - rewrite prefix_empty, bool_decide_eq_true_2; reflexivity.
  - rewrite bool_decide_eq_false_2; [ reflexivity | exact Hne ].
Qed.

Lemma index_0_cons s1 c s2 :
  String.index 0 s1 (String c s2)
  = if String.prefix s1 (String c s2) then Some 0%nat
    else match String.index 0 s1 s2 with
         | Some n => Some (S n)
         | None => None
         end.
Proof. reflexivity. Qed.

Lemma index_char_app q value rest :
  String.index 0 (String q EmptyString) value = None →
  String.index 0 (String q EmptyString) (value ++ String q rest)
  = Some (String.length value).
Proof.
  induction value as [ | c value IH ]; intros Hnone.
  - change (EmptyString ++ String q rest) with (String q rest).
    rewrite index_0_cons, prefix_char, bool_decide_eq_true_2; reflexivity.
  - change (String c value ++ String q rest) with (String c (value ++ String q rest)).
    rewrite index_0_cons, prefix_char in Hnone |- *.
    cbn [String.length].
    destruct (bool_decide (q = c)); [ discriminate | ].
    destruct (String.index 0 (String q EmptyString) value) eqn:Hrest;
      [ discriminate | ].
    rewrite (IH eq_refl). reflexivity.
Qed.

Lemma slice_index_nat len n : (n ≤ len)%nat → slice_index len (Z.of_nat n) = n.
Proof.
  intros Hn. unfold slice_index.
  destruct (Z.ltb_spec (Z.of_nat n) 0); lia.
Qed.

Lemma py_slice_from_1 c s : py_slice_from (String c s) 1 = s.
Proof.
  unfold py_slice_from, py_slice.
  rewrite slice_index_nat by reflexivity.
  change 1%Z with (Z.of_nat 1). rewrite slice_index_nat by (cbn; lia).
  cbn [String.length String.substring].
  replace (S (String.length s) - 1)%nat with (String.length s) by lia.
  apply substring_all.
Qed.

Lemma quoted_standalone_value q value rest :
  py_find value (String q EmptyString) = (-1)%Z →
  quoted_standalone (String q (value ++ String q rest)) (String q EmptyString)
  = drop_last 1 value.
Proof.
  intros Hnone. unfold quoted_standalone. rewrite py_slice_from_1.
  unfold py_find in *.
  destruct (String.index 0 (String q EmptyString) value) eqn:Hindex; [ lia | ].
  rewrite (index_char_app _ _ _ Hindex).
  unfold py_slice, drop_last. cbn [String.length].
  change 1%Z with (Z.of_nat 1). rewrite slice_index_nat by lia.
  rewrite slice_index_nat by (rewrite length_append; cbn [String.length]; lia).
  destruct (String.length value) as [ | n ] eqn:Hlen.
  - destruct value; [ reflexivity | discriminate ].
  - cbn [String.substring Nat.sub]. rewrite !Nat.sub_0_r.
    apply substring_app_prefix. lia.
Qed.

(** X10. When the XML declaration carries [standalone=] with a quoted value
    that has no quote inside, [find_xml_header_settings] returns that
    value without its last character ([endix] is an index into
    [arg[1:]] and is used on [arg]); it raises when what is left is not
    UTF-8. *)
Theorem find_xml_header_settings_standalone xml_data before quote value rest more :
  startswith xml_data "<?xml " = true →
  (0 <= py_find xml_data "?>")%Z →
  split_str (py_slice xml_data 0 (py_find xml_data "?>")) "standalone="
  = before :: (quote ++ value ++ quote ++ rest) :: more →
  quote = Dumps.dquote ∨ quote = squote →
  py_find value quote = (-1)%Z →
  find_xml_header_settings xml_data
  = if utf8_valid (drop_last 1 value)
    then Ok (true, Some (drop_last 1 value))
    else Raise ValueError.
Proof.
  intros Hstart Hend Hsplit Hquote Hnone. unfold find_xml_header_settings.
  rewrite Hstart.
  destruct (Z.gtb_spec (py_find xml_data "?>") (-1)) as [ _ | ]; [ | lia ].
  rewrite Hsplit.
  destruct Hquote as [ -> | -> ].
  - change (Dumps.dquote ++ value ++ Dumps.dquote ++ rest)
      with (String "034" (value ++ String "034" rest)).
    change Dumps.dquote with (String "034" EmptyString) in *.
    unfold startswith. rewrite prefix_char, bool_decide_eq_true_2 by reflexivity.
    rewrite (quoted_standalone_value _ _ _ Hnone). reflexivity.
  - change (squote ++ value ++ squote ++ rest)
      with (String "'" (value ++ String "'" rest)).
    change Dumps.dquote with (String "034" EmptyString).
    change squote with (String "'" EmptyString) in *.
    unfold startswith.
    rewrite !prefix_char, bool_decide_eq_false_2, bool_decide_eq_true_2
      by (reflexivity || discriminate).
    rewrite (quoted_standalone_value _ _ _ Hnone). reflexivity.
Qed.

Lemma find_xml_header_settings_standalone_witness :
  find_xml_header_settings "<?xml version='1.0' standalone='yes'?><a/>"
  = Ok (true, Some "ye").
Proof.
  apply (find_xml_header_settings_standalone
           "<?xml version='1.0' standalone='yes'?><a/>"
           "<?xml version='1.0' " squote "yes" "" []).
  - reflexivity.
  - vm_compute. discriminate.
  - vm_compute. reflexivity.
  - right. reflexivity.
  - reflexivity.
Defined.

(** ** The node url and the token *)

Lemma index_char_none_app q s t :
  String.index 0 (String q EmptyString) (s ++ t) = None
  ↔ String.index 0 (String q EmptyString) s = None
    ∧ String.index 0 (String q EmptyString) t = None.
Proof.
  induction s as [ | c s IH ].
  - change (EmptyString ++ t) with t. split; [ intros H; split; [ reflexivity | exact H ] | tauto ].
  - change (String c s ++ t) with (String c (s ++ t)).
    rewrite !index_0_cons, !prefix_char.
    destruct (bool_decide (q = c)); [ split; [ discriminate | intros [[=] _] ] | ].
    destruct (String.index 0 (String q EmptyString) (s ++ t)) as [ n | ],
             (String.index 0 (String q EmptyString) s) as [ m | ].
    + split; [ discriminate | intros [[=] _] ].
    + split; [ discriminate | ]. intros [_ Ht].
      pose proof (proj2 IH (conj eq_refl Ht)) as Habs. discriminate.
    + split; [ | intros [[=] _] ]. intros _.
      destruct (proj1 IH eq_refl) as [[=] _].
    + split; [ | reflexivity ]. intros _.
      split; [ reflexivity | apply IH; reflexivity ].
Qed.

Lemma replace_char_gone q s :
  String.index 0 (String q EmptyString) (replace s (String q EmptyString) "") = None.
Proof.
  unfold replace. induction s as [ | c s IH ]; [ reflexivity | ].
  cbn [replace_from]. rewrite prefix_char.
  destruct (bool_decide_reflect (q = c)) as [ -> | Hne ].
  - exact IH.
  - rewrite index_0_cons, prefix_char, bool_decide_eq_false_2 by exact Hne.
    cbn [String.length Nat.sub] in IH. rewrite IH. reflexivity.
Qed.

Lemma replace_char_absent q s :
  String.index 0 (String q EmptyString) s = None →
  replace s (String q EmptyString) "" = s.
Proof.
  unfold replace. induction s as [ | c s IH ]; [ reflexivity | ].
  rewrite index_0_cons, prefix_char. cbn [replace_from]. rewrite prefix_char.
  destruct (bool_decide (q = c)); [ discriminate | ].
  destruct (String.index 0 (String q EmptyString) s); [ discriminate | ].
  intros _. rewrite (IH eq_refl). reflexivity.
Qed.

Lemma prefix_app p s t : String.prefix p s = true → String.prefix p (s ++ t) = true.
Proof.
  revert s. induction p as [ | a p IH ]; intros s Hp; [ apply prefix_empty | ].
  destruct s as [ | b s ]; [ discriminate | ].
  change (String b s ++ t) with (String b (s ++ t)). simpl in Hp |- *.
  destruct (ascii_dec a b); [ apply IH, Hp | discriminate ].
Qed.

Lemma substring_app_suffix s t :
  String.substring (String.length s) (String.length t) (s ++ t) = t.
Proof.
  induction s as [ | c s IH ]; [ apply substring_all | exact IH ].
Qed.

Lemma py_slice_from_suffix s t :
  (0 < String.length t)%nat →
  py_slice_from (s ++ t) (- Z.of_nat (String.length t)) = t.
Proof.
  intros Hlen. unfold py_slice_from, py_slice. rewrite slice_index_nat by reflexivity.
  assert (Hlo : slice_index (String.length (s ++ t)) (- Z.of_nat (String.length t))
                = String.length s).
  { unfold slice_index. rewrite length_append.
    destruct (Z.ltb_spec (- Z.of_nat (String.length t)) 0); lia. }
  rewrite Hlo, length_append.
  replace (String.length s + String.length t - String.length s)%nat
    with (String.length t) by lia.
  apply substring_app_suffix.
Qed.

(** X11. The node url that [get_node_and_jwt_token] returns starts with
    [http], ends with [/api] and holds no double quote, and given it
    back as the node url it is returned as it is. *)
Theorem node_url_is_normalised nodes jwts node_url jwt_token :
  get_node_and_jwt_token nodes jwts = Some (node_url, jwt_token) →
  startswith node_url "http" = true
  ∧ py_slice_from node_url (-4) = "/api"
  ∧ py_find node_url Dumps.dquote = (-1)%Z
  ∧ node_url_of (Some node_url) = Some node_url.
Proof.
  unfold get_node_and_jwt_token.
  destruct (jwt_token_of (_coalesce jwts)) as [ jwt | ]; [ | discriminate ].
  destruct (_coalesce nodes) as [ s | ]; [ | discriminate ].
  cbn [mbind option_bind node_url_of]. intros [= <- _].
  change Dumps.dquote with (String "034" EmptyString).
  pose proof (replace_char_gone "034" s) as Hgone.
  set (s1 := replace s (String "034" EmptyString) "") in *.
  set (s2 := if negb (startswith s1 "http") then "https://" ++ s1 else s1).
  assert (Hstart : startswith s2 "http" = true).
  { unfold s2. destruct (startswith s1 "http") eqn:Hs1; [ exact Hs1 | ].
    cbn [negb]. unfold startswith.
    change ("https://" ++ s1) with ("http" ++ ("s://" ++ s1)).
    apply (prefix_app "http" "http"). reflexivity. }
  assert (Hquote2 : String.index 0 (String "034" EmptyString) s2 = None).
  { unfold s2. destruct (negb (startswith s1 "http")); [ | exact Hgone ].
    apply index_char_none_app. split; [ reflexivity | exact Hgone ]. }
  set (s3 := if negb (String.eqb (py_slice_from s2 (-4)) "/api")
             then s2 ++ "/api" else s2).
  assert (Hstart3 : startswith s3 "http" = true).
  { unfold s3. destruct (negb (String.eqb (py_slice_from s2 (-4)) "/api"));
      [ apply prefix_app | ]; exact Hstart. }
  assert (Hend3 : py_slice_from s3 (-4) = "/api").
  { unfold s3. destruct (String.eqb (py_slice_from s2 (-4)) "/api") eqn:Hend;
      cbn [negb].
    - apply String.eqb_eq, Hend.
    - apply (py_slice_from_suffix s2 "/api"). cbn. lia. }
  assert (Hquote3 : String.index 0 (String "034" EmptyString) s3 = None).
  { unfold s3. destruct (negb (String.eqb (py_slice_from s2 (-4)) "/api"));
      [ | exact Hquote2 ].
    apply index_char_none_app. split; [ exact Hquote2 | reflexivity ]. }
  split; [ exact Hstart3 | ]. split; [ exact Hend3 | ].
  split; [ unfold py_find; rewrite Hquote3; reflexivity | ].
  unfold node_url_of. cbn [mbind option_bind].
  change Dumps.dquote with (String "034" EmptyString).
  rewrite (replace_char_absent _ _ Hquote3), Hstart3. cbn [negb].
  rewrite Hend3. reflexivity.
Qed.

Lemma node_url_is_normalised_witness :
  startswith "https://example.sesam.cloud/api" "http" = true
  ∧ py_slice_from "https://example.sesam.cloud/api" (-4) = "/api"
  ∧ py_find "https://example.sesam.cloud/api" Dumps.dquote = (-1)%Z
  ∧ node_url_of (Some "https://example.sesam.cloud/api")
    = Some "https://example.sesam.cloud/api".
Proof.
  apply (node_url_is_normalised
           [None; Some (Dumps.dquote ++ "example.sesam.cloud" ++ Dumps.dquote)]
           [None; None; Some "bearer abc"]
           "https://example.sesam.cloud/api" "abc").
  vm_compute. reflexivity.
Defined.

(** X12. [get_node_and_jwt_token] fails exactly when the node url or the
    token is given in none of the places it looks in. *)
Theorem node_and_jwt_token_must_be_given nodes jwts :
  get_node_and_jwt_token nodes jwts = None
  ↔ Forall (fun item => item = None) nodes ∨ Forall (fun item => item = None) jwts.
Proof.
  assert (Hnone : ∀ items : list (option string),
             _coalesce items = None ↔ Forall (fun item => item = None) items).
  { induction items as [ | [ item | ] rest IH ]; cbn [_coalesce].
    - split; [ constructor | reflexivity ].
    - split; [ discriminate | intros [[=] _]%Forall_cons ].
    - rewrite IH. split; [ intros H; constructor; [ reflexivity | exact H ] | ].
      intros [_ H]%Forall_cons. exact H. }
  rewrite <- !Hnone. unfold get_node_and_jwt_token.
  destruct (_coalesce jwts) as [ jwt | ], (_coalesce nodes) as [ node | ];
    cbn [mbind option_bind jwt_token_of node_url_of].
  - split; [ | intros [[=] | [=]] ].
    destruct (negb (String.eqb jwt "") && startswith jwt Dumps.dquote
              && String.eqb (py_slice_from jwt (-1)) Dumps.dquote);
      cbn [mbind option_bind]; discriminate.
  - split; [ auto | intros _ ].
    destruct (negb (String.eqb jwt "") && startswith jwt Dumps.dquote
              && String.eqb (py_slice_from jwt (-1)) Dumps.dquote);
      reflexivity.
  - split; [ auto | reflexivity ].
  - split; [ auto | reflexivity ].
Qed.

Lemma node_and_jwt_token_must_be_given_witness :
  get_node_and_jwt_token [None; Some "node"; None] [None; None; None] = None.
Proof.
  apply (proj2 (node_and_jwt_token_must_be_given
                  [None; Some "node"; None] [None; None; None])).
  right. repeat constructor.
Defined.

(** ** Starting the scheduler *)

(** The handler of [start_scheduler] returns or raises; it raises what
    the read of the scheduler log raises, and nothing else: what its
    removal of the system raises stays inside its inner [try]. *)
Lemma start_scheduler_except_outcome args env faults e n :
  ∃ r n',
    Faulty.start_scheduler_except args env faults e n = Some (r, n')
    ∧ proxy_gets n' = proxy_gets n
    ∧ match log_reply env (log_gets n) with
      | Ok _ =>
          r = Ok ()
          ∧ (Args.dont_remove_scheduler args = false →
             (∀ s, Faulty.get_system_reply faults s = Ok ()) →
             (∀ s, Faulty.delete_system_reply faults s = Ok ()) →
             system_exists n' = false)
      | Raise e' => r = Raise e'
      end.
Proof.
  unfold Faulty.start_scheduler_except, get_system_log. prog_simpl.
  change (log_gets (emit (ERROR, Text "Failed to start the scheduler microservice") n))
    with (log_gets n).
  destruct (log_reply env (log_gets n)) as [ text | e' ].
  2: { eexists _, _. split; [ reflexivity | ]. split; reflexivity. }
  destruct (Args.dont_remove_scheduler args).
  { destruct (Args.extra_verbose args); prog_simpl; eexists _, _;
      (split; [ reflexivity | ]); (split; [ reflexivity | ]);
      (split; [ reflexivity | discriminate ]). }
  cbn [negb].
  assert (Hremoval : ∀ s : node,
             ∃ r n',
               match Faulty.remove_system faults s with
               | Some (Raise e2, s') =>
                   if Args.extra_verbose args
                   then Some (Ok (), emit (ERROR, ExceptionInfo e2)
                                       (emit (ERROR, Text "Failed to remove scheduler microservice") s'))
                   else Some (Ok (), emit (ERROR, Text "Failed to remove scheduler microservice") s')
               | other => other
               end = Some (r, n')
               ∧ proxy_gets n' = proxy_gets s
               ∧ r = Ok ()
               ∧ ((∀ s, Faulty.get_system_reply faults s = Ok ()) →
                  (∀ s, Faulty.delete_system_reply faults s = Ok ()) →
                  system_exists n' = false)).
  { intros s.
    destruct (faulty_remove_system_outcome faults s)
      as (r & s' & -> & Hproxy & _ & Hgone & Hraise).
    destruct r as [ [] | e2 ].
    - exists (Ok ()), s'. split; [ reflexivity | ]. split; [ exact Hproxy | ].
      split; [ reflexivity | ]. intros _ _. exact (Hgone eq_refl).
    - destruct (Hraise e2 eq_refl) as [_ [ [s0 Hget] | [s0 Hdelete] ] ];
        destruct (Args.extra_verbose args); eexists _, _;
        (split; [ reflexivity | ]); (split; [ exact Hproxy | ]);
        (split; [ reflexivity | ]); intros Hgets Hdeletes;
        rewrite ?Hgets, ?Hdeletes in *; discriminate. }
  destruct (Args.extra_verbose args) eqn:Hverbose; prog_simpl;
    match goal with |- context [ Faulty.remove_system faults ?s ] =>
      destruct (Hremoval s) as (r & n' & Hrun & Hproxy & -> & Hgone)
    end;
    exists (Ok ()), n'; (split; [ exact Hrun | ]); (split; [ exact Hproxy | ]);
    (split; [ reflexivity | ]); intros _; exact Hgone.
Qed.

Lemma start_scheduler_outcome args env faults steps timeout n r n' :
  Faulty.start_scheduler args env faults steps timeout n = Some (r, n') →
  r = Ok () ∨ ∃ k e, log_reply env k = Raise e ∧ r = Raise e.
Proof.
  unfold Faulty.start_scheduler, try_except.
  destruct (Faulty.start_scheduler_try args env faults steps timeout n)
    as [ [ [ [] | e ] n1 ] | ]; [ intros [= <- _]; left; reflexivity | | discriminate ].
  destruct (start_scheduler_except_outcome args env faults e n1)
    as (r' & n2 & -> & _ & Hr).
  intros [= <- <-].
  destruct (log_reply env (log_gets n1)) as [ text | e' ] eqn:Hlog.
  - left. apply Hr.
  - right. eauto.
Qed.

(** X13. [start_scheduler] lets no failure of the start-up out, and no
    failure of the removal in its handler: it returns normally, or
    raises what the read of the scheduler log in its handler raised. *)
Theorem start_scheduler_raises_only_log_errors args env faults steps timeout n r n' :
  Faulty.start_scheduler args env faults steps timeout n = Some (r, n') →
  r = Ok () ∨ ∃ k e, log_reply env k = Raise e ∧ r = Raise e.
Proof. apply start_scheduler_outcome. Qed.

Lemma start_scheduler_raises_only_log_errors_witness :
  ∃ r n',
    Faulty.start_scheduler Scenario.args Scenario.never_running Faulty.delete_refused
      60 300 fresh_node
    = Some (r, n')
    ∧ In (ERROR, Text "Failed to start the scheduler microservice") (node_log n')
    ∧ In (ERROR, Text "Failed to remove scheduler microservice") (node_log n')
    ∧ system_exists n' = true
    ∧ (r = Ok () ∨ ∃ k e, log_reply Scenario.never_running k = Raise e ∧ r = Raise e).
Proof.
  eexists _, _. split; [ vm_compute; reflexivity | ].
  split; [ cbn; tauto | ]. split; [ cbn; tauto | ]. split; [ reflexivity | ].
  eapply (start_scheduler_raises_only_log_errors Scenario.args Scenario.never_running
            Faulty.delete_refused 60 300 fresh_node).
  vm_compute. reflexivity.
Defined.

(** X14. When [run] ends and the scheduler was not to be kept, no scheduler
    system is left on the node, unless [run] ended with an error of one
    of three requests: the read of the scheduler log in the handler of
    [start_scheduler], or the [get_system] or the [delete] of a
    removal. *)
Theorem run_leaves_no_scheduler args env faults steps n r n' :
  Faulty.run args env faults steps n = Some (r, n') →
  Args.dont_remove_scheduler args = false →
  system_exists n' = false
  ∨ ∃ e, r = Raise e
         ∧ ((∃ k, log_reply env k = Raise e)
            ∨ (∃ s, Faulty.get_system_reply faults s = Raise e)
            ∨ (∃ s, Faulty.delete_system_reply faults s = Raise e)).
Proof.
  intros Hrun Hremove. unfold Faulty.run in Hrun.
  unfold mbind at 1, prog_bind at 1, log at 1, modify at 1 in Hrun.
  unfold mbind at 1, prog_bind at 1 in Hrun.
  destruct (Faulty.start_scheduler args env faults steps 300
              (emit (INFO, Text "Executing scheduler...") n))
    as [ [ [ [] | e ] n1 ] | ] eqn:Hstart; [ | | discriminate ].
  - unfold mbind at 1, prog_bind at 1, try_finally in Hrun.
    destruct (try_except (Faulty.poll_scheduler args env faults steps None) _ n1)
      as [ [ exit n2 ] | ]; [ | discriminate ].
    destruct (run_finally_outcome args faults n2)
      as (removal & n3 & Hfinal & _ & _ & Hgone & Hraise).
    rewrite Hfinal in Hrun.
    destruct removal as [ [] | e' ].
    + left. specialize (Hgone Hremove eq_refl).
      destruct exit as [ [ | ] | e ]; prog_simpl; injection Hrun as <- <-;
        exact Hgone.
    + right. injection Hrun as <- <-. exists e'. split; [ reflexivity | ].
      right. exact (proj2 (Hraise e' eq_refl)).
  - right. injection Hrun as <- <-.
    destruct (start_scheduler_outcome _ _ _ _ _ _ _ _ Hstart)
      as [ [=] | (k & e' & Hlog & [= ->]) ].
    exists e'. split; [ reflexivity | ]. left. eauto.
Qed.

Lemma run_leaves_no_scheduler_witness :
  (∃ n',
     Faulty.run Scenario.args (Scenario.statuses ["init"; "running"] "success")
       Faulty.reliable 10 fresh_node
     = Some (Ok (), n')
     ∧ system_exists n' = false)
  ∧ ∃ n',
      Faulty.run Scenario.args (Scenario.statuses ["init"; "running"] "success")
        Faulty.delete_refused 10 fresh_node
      = Some (Raise HTTPError, n')
      ∧ system_exists n' = true.
Proof.
  split.
  - eexists. split; [ vm_compute; reflexivity | ].
    destruct (run_leaves_no_scheduler Scenario.args
                (Scenario.statuses ["init"; "running"] "success")
                Faulty.reliable 10 fresh_node (Ok ()) _
                ltac:(vm_compute; reflexivity) eq_refl)
      as [ Hgone | (e & Hraise & _) ]; [ exact Hgone | discriminate ].
  - eexists. split; [ vm_compute; reflexivity | ]. reflexivity.
Defined.

Lemma get_scheduler_status_missing env faults n :
  system_exists n = false →
  Faulty.get_system_reply faults (emit (TRACE, Text "Get system") n) = Ok () →
  Faulty.get_scheduler_status env faults n
  = Some (Raise (AssertionError "Microservice system doesn't exist"),
          emit (ERROR, Text "Failed to get scheduler status")
            (emit (TRACE, Text "Get system") n)).
Proof.
  intros Hmissing Hget.
  unfold Faulty.get_scheduler_status, Faulty.microservice_get_proxy_request,
    Faulty.get_system, Faulty.api_get_system.
  prog_simpl. rewrite Hget.
  change (system_exists (emit (TRACE, Text "Get system") n)) with (system_exists n).
  rewrite Hmissing. reflexivity.
Qed.

(** X15. When the start-up fails, the scheduler log can be read, the
    scheduler is not to be kept and the node answers the requests to
    get and to delete the system, the handler of [start_scheduler]
    removes it and [run] goes on to poll: its first status request
    finds no system, and [run] raises that [AssertionError], not what
    went wrong in the start-up. *)
Theorem failed_start_surfaces_as_missing_system args env faults steps n e n1 text :
  Faulty.start_scheduler_try args env faults (S steps) 300
    (emit (INFO, Text "Executing scheduler...") n)
  = Some (Raise e, n1) →
  log_reply env (log_gets n1) = Ok text →
  Args.dont_remove_scheduler args = false →
  (∀ s, Faulty.get_system_reply faults s = Ok ()) →
  (∀ s, Faulty.delete_system_reply faults s = Ok ()) →
  ∃ n',
    Faulty.run args env faults (S steps) n
    = Some (Raise (AssertionError "Microservice system doesn't exist"), n')
    ∧ proxy_gets n' = proxy_gets n1.
Proof.
  intros Htry Hlog Hremove Hgets Hdeletes.
  destruct (start_scheduler_except_outcome args env faults e n1)
    as (r & n2 & Hexcept & Hproxy2 & Hr).
  rewrite Hlog in Hr. destruct Hr as [ -> Hgone ].
  specialize (Hgone Hremove Hgets Hdeletes).
  assert (Hstart : Faulty.start_scheduler args env faults (S steps) 300
                     (emit (INFO, Text "Executing scheduler...") n)
                   = Some (Ok (), n2)).
  { unfold Faulty.start_scheduler, try_except. rewrite Htry. exact Hexcept. }
  destruct (log_step_returns args env None n2) as (since' & n3 & Hstep & Hsys & Hproxy3).
  match goal with |- context [ Faulty.run ?a ?b ?c ?d n ] =>
    destruct (run_finally_outcome args faults
                (emit (ERROR, Text "Failed to run scheduler")
                   (emit (ERROR, Text "Failed to get scheduler status")
                      (emit (TRACE, Text "Get system") n3))))
      as (removal & n4 & Hfinal & Hproxy4 & _ & _ & Hraise)
  end.
  assert (Hremoval : removal = Ok ()).
  { destruct removal as [ [] | e' ]; [ reflexivity | ].
    destruct (Hraise e' eq_refl) as [_ [ [s Hs] | [s Hs] ] ];
      [ rewrite Hgets in Hs | rewrite Hdeletes in Hs ]; discriminate. }
  subst removal.
  unfold Faulty.run.
  unfold mbind at 1, prog_bind at 1, log at 1, modify at 1.
  unfold mbind at 1, prog_bind at 1. rewrite Hstart.
  unfold mbind at 1, prog_bind at 1, try_finally, try_except.
  rewrite faulty_poll_scheduler_step, Hstep.
  rewrite get_scheduler_status_missing by (congruence || apply Hgets).
  unfold mbind at 1, prog_bind at 1, log at 1, modify at 1, raise at 1.
  rewrite Hfinal.
  exists n4. split; [ reflexivity | ].
  rewrite Hproxy4. cbn. congruence.
Qed.

Lemma failed_start_surfaces_as_missing_system_witness :
  ∃ n1,
    Faulty.start_scheduler_try Scenario.args Scenario.never_running Faulty.reliable
      60 300 (emit (INFO, Text "Executing scheduler...") fresh_node)
    = Some (Raise (RuntimeError "Timed out waiting for scheduler to load"), n1)
    ∧ ∃ n',
        Faulty.run Scenario.args Scenario.never_running Faulty.reliable 60 fresh_node
        = Some (Raise (AssertionError "Microservice system doesn't exist"), n')
        ∧ proxy_gets n' = proxy_gets n1.
Proof.
  eexists. split; [ vm_compute; reflexivity | ].
  eapply (failed_start_surfaces_as_missing_system Scenario.args
            Scenario.never_running Faulty.reliable 59 fresh_node _ _ "").
  - vm_compute. reflexivity.
  - reflexivity.
  - reflexivity.
  - reflexivity.
  - reflexivity.
Defined.

(** ** Polling the scheduler *)

Lemma print_lines_closed (lines : list string) acc (n : node) :
  for_each
    (fun (last_since : option string) (line : string) =>
       let log_line := split line " " in
       log INFO (Text (String.concat " " (tail log_line)));;
       mret (head log_line))
    lines acc n
  = Some (Ok (match last lines with
              | Some line => head (split line " ")
              | None => acc
              end),
          fold_left
            (fun n line =>
               emit (INFO, Text (String.concat " " (tail (split line " ")))) n)
            lines n).
Proof.
  revert acc n. induction lines as [ | line rest IH ]; intros acc n; [ reflexivity | ].
  cbn [for_each fold_left]. prog_simpl. rewrite IH.
  destruct rest as [ | line' rest ]; [ reflexivity | ].
  rewrite last_cons_cons.
  destruct (last (line' :: rest)) eqn:Hlast; [ reflexivity | ].
  apply last_None in Hlast. discriminate.
Qed.

(** X16. [print_scheduler_log] does not raise. When the log is read it logs,
    line by line, what follows the first word of each line that is not
    empty, and returns the first word of the last of them, or None when
    there is none, whatever [since] was; when the read fails it logs a
    warning and returns [since]. *)
Theorem print_scheduler_log_outcome env since n :
  print_scheduler_log env since n
  = match log_reply env (log_gets n) with
    | Ok log_output =>
        let lines :=
          List.filter (fun e => negb (String.eqb e "")) (split log_output "010") in
        Some (Ok (line ← last lines; head (split line " ")),
              fold_left
                (fun n line =>
                   emit (INFO, Text (String.concat " " (tail (split line " ")))) n)
                lines (count_log_get n))
    | Raise _ =>
        Some (Ok since,
              emit (WARNING, Text "Failed to get scheduler log..") (count_log_get n))
    end.
Proof.
  unfold print_scheduler_log, try_except, get_system_log.
  unfold mbind at 1, prog_bind at 1. prog_simpl.
  destruct (log_reply env (log_gets n)) as [ log_output | e ]; [ | reflexivity ].
  rewrite print_lines_closed.
  destruct (last (List.filter _ (split log_output "010"))); reflexivity.
Qed.

(** X17. The loop of [run] ends with the first status that is "success" or
    "failed": after [m] statuses that are neither, it has made [m + 1]
    status requests and leaves by [break] on "success" and by [return]
    on "failed". *)
Theorem poll_scheduler_ends_at_first_outcome args env m extra outcome :
  (0 <= Args.scheduler_poll_frequency args)%Z →
  outcome = "success" ∨ outcome = "failed" →
  ∀ since n,
    system_exists n = true →
    (∀ k, (k < m)%nat →
          ∃ entries state,
            proxy_reply env (proxy_gets n + k) = Ok (JDict entries)
            ∧ dict_get "state" entries = Some state
            ∧ json_is_str state "success" = false
            ∧ json_is_str state "failed" = false) →
    proxy_reply env (proxy_gets n + m) = state_reply outcome →
    ∃ n',
      poll_scheduler args env (S m + extra) since n
      = Some (Ok (if String.eqb outcome "success" then Break else Return), n')
      ∧ proxy_gets n' = (proxy_gets n + S m)%nat
      ∧ system_exists n' = true.
Proof.
  intros Hfreq Houtcome. induction m as [ | m IH ]; intros since n Hsys Hbefore Hlast.
  - destruct (log_step_returns args env since n) as (since' & n1 & Hstep & Hsys1 & Hgets1).
    cbn [Nat.add]. rewrite poll_scheduler_step, Hstep.
    rewrite Nat.add_0_r, <- Hgets1 in Hlast.
    rewrite (get_scheduler_status_state env n1 _ (JStr outcome)
               ltac:(congruence) Hlast eq_refl).
    destruct Houtcome as [ -> | -> ]; cbn [json_is_str String.eqb Ascii.eqb Bool.eqb];
      eexists; (split; [ reflexivity | ]); cbn; split; lia || congruence.
  - destruct (log_step_returns args env since n) as (since' & n1 & Hstep & Hsys1 & Hgets1).
    destruct (Hbefore 0%nat ltac:(lia)) as (entries & state & Hreply & Hstate & Hs & Hf).
    rewrite Nat.add_0_r, <- Hgets1 in Hreply.
    change (S (S m) + extra)%nat with (S (S m + extra)).
    rewrite poll_scheduler_step, Hstep.
    rewrite (get_scheduler_status_state env n1 _ state ltac:(congruence) Hreply Hstate).
    rewrite Hs, Hf.
    unfold mbind, prog_bind.
    rewrite (sleep_runs _ _ (poll_interval_nonneg args Hfreq)).
    destruct (IH since'
                (add_slept (inject_Z (Args.scheduler_poll_frequency args) / 1000)%Q
                   (count_proxy_get n1)))
      as (n' & Hpoll & Hgets & Hsys').
    + cbn. congruence.
    + intros k Hk. cbn [proxy_gets add_slept count_proxy_get]. rewrite Hgets1.
      replace (S (proxy_gets n) + k)%nat with (proxy_gets n + S k)%nat by lia.
      apply Hbefore. lia.
    + cbn [proxy_gets add_slept count_proxy_get]. rewrite Hgets1.
      replace (S (proxy_gets n) + m)%nat with (proxy_gets n + S m)%nat by lia.
      exact Hlast.
    + exists n'. split; [ exact Hpoll | ]. split; [ | exact Hsys' ].
      rewrite Hgets. cbn [proxy_gets add_slept count_proxy_get]. rewrite Hgets1. lia.
Qed.

Lemma poll_scheduler_ends_at_first_outcome_witness :
  ∃ n',
    poll_scheduler Scenario.args (Scenario.statuses ["running"; "running"] "failed")
      (S 2 + 5) None Scenario.registered
    = Some (Ok Return, n')
    ∧ proxy_gets n' = (proxy_gets Scenario.registered + 3)%nat
    ∧ system_exists n' = true.
Proof.
  apply (poll_scheduler_ends_at_first_outcome Scenario.args
           (Scenario.statuses ["running"; "running"] "failed") 2 5 "failed").
  - vm_compute. discriminate.
  - right. reflexivity.
  - reflexivity.
  - intros k Hk. exists [("state", JStr "running")], (JStr "running").
    destruct k as [ | [ | k ] ]; [ | | lia ]; repeat split.
  - reflexivity.
Defined.

(** ** Loops *)

Lemma for_each_state {S A B} (body : B → A → prog S B) (P : S → Prop) xs :
  (∀ acc x s r s', body acc x s = Some (r, s') → P s → P s') →
  ∀ acc s r s', for_each body xs acc s = Some (r, s') → P s → P s'.
Proof.
  intros Hbody. induction xs as [ | x rest IH ]; intros acc s r s' Hrun Hs.
  - cbn in Hrun. injection Hrun as <- <-. exact Hs.
  - cbn [for_each] in Hrun. unfold mbind, prog_bind in Hrun.
    destruct (body acc x s) as [ [ [ acc' | e ] s1 ] | ] eqn:Hstep; [ | | discriminate ].
    + exact (IH _ _ _ _ Hrun (Hbody _ _ _ _ _ Hstep Hs)).
    + injection Hrun as <- <-. exact (Hbody _ _ _ _ _ Hstep Hs).
Qed.

Lemma for_each_result {S A B} (body : B → A → prog S B) (I : B → S → Prop) xs :
  (∀ acc x s acc' s', x ∈ xs → I acc s → body acc x s = Some (Ok acc', s') → I acc' s') →
  ∀ acc s acc' s', I acc s → for_each body xs acc s = Some (Ok acc', s') → I acc' s'.
Proof.
  induction xs as [ | x rest IH ]; intros Hbody acc s acc' s' Hacc Hrun.
  - cbn in Hrun. injection Hrun as <- <-. exact Hacc.
  - cbn [for_each] in Hrun. unfold mbind, prog_bind in Hrun.
    destruct (body acc x s) as [ [ [ acc1 | e ] s1 ] | ] eqn:Hstep; try discriminate.
    apply (IH (fun acc x s acc' s' Hx => Hbody acc x s acc' s' (list_elem_of_further _ _ _ Hx))
             acc1 s1 acc' s'); [ | exact Hrun ].
    apply (Hbody acc x s acc1 s1); [ left | exact Hacc | exact Hstep ].
Qed.

(** ** Loading the test specs *)

Lemma TestSpec_init_reads filename d r d' :
  TestSpec_init filename d = Some (r, d') →
  d' = d
  ∧ ∀ t, r = Ok t →
         ∃ spec_dict, files d !! filename = Some (JsonDoc (JDict spec_dict))
                      ∧ t = TestSpec_of filename spec_dict.
Proof.
  unfold TestSpec_init. prog_simpl.
  destruct (files d !! filename) as [ [ [ | | | | | | spec_dict ] | data ] | ];
    intros [= <- <-]; (split; [ reflexivity | ]); intros t [= <-].
  exists spec_dict. split; reflexivity.
Qed.

Lemma as_str_returns {S} what v (s : S) r s' :
  as_str what v s = Some (r, s') →
  s' = s ∧ ∀ x, r = Ok x → v = Some (JStr x).
Proof.
  unfold as_str.
  destruct v as [ [ | | | | x | | ] | ]; prog_simpl; intros [= <- <-];
    (split; [ reflexivity | ]); intros y [= <-]. reflexivity.
Qed.

(** One spec file in verify mode: the files stay, and a spec that is
    added is the spec of this file, under its pipe, ignored or of an
    existing pipe. *)
Lemma load_spec_file_verify_mode existing_output_pipes test_specs filename d r d' :
  load_spec_file existing_output_pipes false test_specs filename d = Some (r, d') →
  files d' = files d
  ∧ ∀ test_specs', r = Ok test_specs' →
      test_specs' = test_specs
      ∨ ∃ spec_dict pipe_id,
          files d !! filename = Some (JsonDoc (JDict spec_dict))
          ∧ TestSpec_pipe (TestSpec_of filename spec_dict) = Some (JStr pipe_id)
          ∧ (TestSpec_ignore (TestSpec_of filename spec_dict) = true
             ∨ pipe_id ∈ existing_output_pipes)
          ∧ test_specs' = append_spec test_specs pipe_id (TestSpec_of filename spec_dict).
Proof.
  unfold load_spec_file.
  unfold mbind at 1, prog_bind at 1, log at 1, modify at 1.
  unfold mbind at 1, prog_bind at 1.
  destruct (TestSpec_init filename (emit (DEBUG, ProcessingSpecFile filename) d))
    as [ [ [ test_spec | e ] d1 ] | ] eqn:Hinit; [ | | discriminate ].
  2: { apply TestSpec_init_reads in Hinit as [-> _]. intros [= <- <-].
       split; [ reflexivity | discriminate ]. }
  apply TestSpec_init_reads in Hinit as [-> Hspec].
  destruct (Hspec test_spec eq_refl) as (spec_dict & Hfile & ->). clear Hspec.
  cbn [files emit disk_logger] in Hfile.
  unfold mbind at 1, prog_bind at 1.
  destruct (as_str "a pipe that is not a string"
              (TestSpec_pipe (TestSpec_of filename spec_dict))
              (emit (DEBUG, ProcessingSpecFile filename) d))
    as [ [ [ pipe_id | e ] d2 ] | ] eqn:Hpipe; [ | | discriminate ].
  2: { apply as_str_returns in Hpipe as [-> _]. intros [= <- <-].
       split; [ reflexivity | discriminate ]. }
  apply as_str_returns in Hpipe as [-> Hpipe]. specialize (Hpipe pipe_id eq_refl).
  unfold mbind at 1, prog_bind at 1, log at 1, modify at 1.
  destruct (TestSpec_ignore (TestSpec_of filename spec_dict)) eqn:Hignore.
  - unfold mbind at 1, prog_bind at 1.
    match goal with |- context [ as_str ?w ?v ?s ] =>
      destruct (as_str w v s) as [ [ [ output_filename | e ] d3 ] | ] eqn:Hfilename
    end; [ | | discriminate ].
    2: { apply as_str_returns in Hfilename as [-> _]. intros [= <- <-].
         split; [ reflexivity | discriminate ]. }
    apply as_str_returns in Hfilename as [-> _].
    unfold isfile. prog_simpl.
    match goal with |- context [ bool_decide ?P ] => destruct (bool_decide P) end;
      intros [= <- <-]; (split; [ reflexivity | ]); intros ? [= <-]; right;
      exists spec_dict, pipe_id; auto.
  - destruct (bool_decide (pipe_id ∈ existing_output_pipes)) eqn:Hexists;
      prog_simpl; intros [= <- <-]; (split; [ reflexivity | ]); intros ? [= <-].
    + right. exists spec_dict, pipe_id. apply bool_decide_eq_true in Hexists. auto.
    + left. reflexivity.
Qed.

Lemma glob_test_specs_lists d filenames d' :
  glob_test_specs d = Some (Ok filenames, d') →
  d' = d
  ∧ ∀ filename, filename ∈ filenames
                ↔ is_Some (files d !! filename) ∧ is_test_spec_path filename = true.
Proof.
  unfold glob_test_specs, gets. intros [= <- <-]. split; [ reflexivity | ].
  intros filename. rewrite list_elem_of_In, filter_In, <- list_elem_of_In.
  rewrite list_elem_of_fmap. split.
  - intros [ ([k v] & -> & Hkv%elem_of_map_to_list) Hpath ]. cbn in *.
    split; [ eexists; exact Hkv | exact Hpath ].
  - intros [ [v Hv] Hpath ]. split; [ | exact Hpath ].
    exists (filename, v). split; [ reflexivity | apply elem_of_map_to_list, Hv ].
Qed.

Lemma load_test_specs_reads existing_output_pipes d r d' :
  load_test_specs existing_output_pipes false d = Some (r, d') →
  files d' = files d.
Proof.
  unfold load_test_specs. unfold mbind at 1, prog_bind at 1.
  destruct (glob_test_specs d) as [ [ [ filenames | e ] d0 ] | ] eqn:Hglob;
    [ | discriminate Hglob | discriminate ].
  apply glob_test_specs_lists in Hglob as [-> _].
  unfold mbind, prog_bind.
  destruct (for_each (load_spec_file existing_output_pipes false) filenames ∅ d)
    as [ [ [ test_specs | e ] d1 ] | ] eqn:Hloop; [ | | discriminate ].
  - intros [= <- <-].
    apply (for_each_state _ (fun s => files s = files d) _
             (fun acc x s r s' Hstep Hs =>
                eq_trans (proj1 (load_spec_file_verify_mode _ _ _ _ _ _ Hstep)) Hs)
             _ _ _ _ Hloop eq_refl).
  - intros [= <- <-].
    apply (for_each_state _ (fun s => files s = files d) _
             (fun acc x s r s' Hstep Hs =>
                eq_trans (proj1 (load_spec_file_verify_mode _ _ _ _ _ _ Hstep)) Hs)
             _ _ _ _ Hloop eq_refl).
Qed.

(** X18. In verify mode [load_test_specs] leaves every file as it is,
    whether it returns or raises. *)
Theorem load_test_specs_keeps_files existing_output_pipes d r d' :
  load_test_specs existing_output_pipes false d = Some (r, d') →
  files d' = files d.
Proof. apply load_test_specs_reads. Qed.

Lemma load_test_specs_keeps_files_witness :
  ∃ r d',
    load_test_specs ["foo"] false Scenario.ignore_disk_named = Some (r, d')
    ∧ files d' = files Scenario.ignore_disk_named.
Proof.
  eexists _, _. split; [ vm_compute; reflexivity | ].
  eapply (load_test_specs_keeps_files ["foo"] Scenario.ignore_disk_named).
  vm_compute. reflexivity.
Defined.

Lemma for_each_every_step {S A B} (body : B → A → prog S B) (P : S → Prop) xs :
  (∀ acc x s r s', body acc x s = Some (r, s') → P s → P s') →
  ∀ acc s acc' s',
    for_each body xs acc s = Some (Ok acc', s') → P s →
    ∀ x, x ∈ xs → ∃ acc0 s0 acc1 s1, P s0 ∧ body acc0 x s0 = Some (Ok acc1, s1).
Proof.
  intros Hbody. induction xs as [ | x rest IH ]; intros acc s acc' s' Hrun Hs y Hy.
  - inversion Hy.
  - cbn [for_each] in Hrun. unfold mbind, prog_bind in Hrun.
    destruct (body acc x s) as [ [ [ acc1 | e ] s1 ] | ] eqn:Hstep; try discriminate.
    apply elem_of_cons in Hy as [ -> | Hy ].
    + exists acc, s, acc1, s1. split; assumption.
    + exact (IH _ _ _ _ Hrun (Hbody _ _ _ _ _ Hstep Hs) y Hy).
Qed.

(** X19. What [load_test_specs] returns in verify mode: it returns only when
    every spec file of the directory is a JSON object; every list of
    specs it returns is not empty, and each spec in it is the spec of
    one of these files, under the pipe it names, and is either ignored
    or names an existing pipe. *)
Theorem loaded_specs_come_from_files existing_output_pipes d test_specs d' :
  load_test_specs existing_output_pipes false d = Some (Ok test_specs, d') →
  (∀ filename,
     is_Some (files d !! filename) → is_test_spec_path filename = true →
     ∃ spec_dict, files d !! filename = Some (JsonDoc (JDict spec_dict)))
  ∧ ∀ pipe_id specs,
      test_specs !! pipe_id = Some specs →
      specs ≠ []
      ∧ ∀ test_spec,
          test_spec ∈ specs →
          ∃ filename spec_dict,
            is_test_spec_path filename = true
            ∧ files d !! filename = Some (JsonDoc (JDict spec_dict))
            ∧ test_spec = TestSpec_of filename spec_dict
            ∧ TestSpec_pipe test_spec = Some (JStr pipe_id)
            ∧ (TestSpec_ignore test_spec = true ∨ pipe_id ∈ existing_output_pipes).
Proof.
  unfold load_test_specs. unfold mbind at 1, prog_bind at 1.
  destruct (glob_test_specs d) as [ [ [ filenames | e ] d0 ] | ] eqn:Hglob;
    [ | discriminate Hglob | discriminate ].
  apply glob_test_specs_lists in Hglob as [-> Hfilenames].
  unfold mbind, prog_bind.
  destruct (for_each (load_spec_file existing_output_pipes false) filenames ∅ d)
    as [ [ [ specs | e ] d1 ] | ] eqn:Hloop; try discriminate.
  intros [= <- <-].
  assert (Hkeep : ∀ acc x s r s',
             load_spec_file existing_output_pipes false acc x s = Some (r, s') →
             files s = files d → files s' = files d).
  { intros acc x s r s' Hstep Hs.
    exact (eq_trans (proj1 (load_spec_file_verify_mode _ _ _ _ _ _ Hstep)) Hs). }
  split.
  - intros filename Hthere Hpath.
    destruct (for_each_every_step _ (fun s => files s = files d) _ Hkeep
                _ _ _ _ Hloop eq_refl filename)
      as (acc0 & s0 & acc1 & s1 & Hs0 & Hstep).
    { apply Hfilenames. split; assumption. }
    destruct (load_spec_file_verify_mode _ _ _ _ _ _ Hstep) as [_ Hadded].
    unfold load_spec_file in Hstep.
    unfold mbind at 1, prog_bind at 1, log at 1, modify at 1 in Hstep.
    unfold mbind at 1, prog_bind at 1 in Hstep.
    destruct (TestSpec_init filename (emit (DEBUG, ProcessingSpecFile filename) s0))
      as [ [ [ test_spec | e ] s2 ] | ] eqn:Hinit; try discriminate.
    apply TestSpec_init_reads in Hinit as [_ Hspec].
    destruct (Hspec test_spec eq_refl) as (spec_dict & Hfile & _).
    exists spec_dict. cbn [files emit disk_logger] in Hfile. rewrite <- Hs0. exact Hfile.
  - pose (I := fun (acc : gmap string (list TestSpec)) (s : disk) =>
                 files s = files d
                 ∧ ∀ pipe_id specs,
                     acc !! pipe_id = Some specs →
                     specs ≠ []
                     ∧ ∀ test_spec,
                         test_spec ∈ specs →
                         ∃ filename spec_dict,
                           is_test_spec_path filename = true
                           ∧ files d !! filename = Some (JsonDoc (JDict spec_dict))
                           ∧ test_spec = TestSpec_of filename spec_dict
                           ∧ TestSpec_pipe test_spec = Some (JStr pipe_id)
                           ∧ (TestSpec_ignore test_spec = true
                              ∨ pipe_id ∈ existing_output_pipes)).
    enough (HI : I specs d1) by exact (proj2 HI).
    apply (for_each_result (load_spec_file existing_output_pipes false) I filenames)
      with (acc := ∅) (s := d);
      [ | split; [ reflexivity | intros p ts Hp; rewrite lookup_empty in Hp; discriminate ]
        | exact Hloop ].
    intros acc filename s acc' s' Hin [Hs Hacc] Hstep.
    destruct (load_spec_file_verify_mode _ _ _ _ _ _ Hstep) as [Hfiles Hadded].
    split; [ congruence | ].
    destruct (Hadded acc' eq_refl)
      as [ -> | (spec_dict & p & Hfile & Hpipe & Hwhy & ->) ]; [ exact Hacc | ].
    intros pipe_id ts Hlookup. unfold append_spec in Hlookup.
    destruct (decide (p = pipe_id)) as [ -> | Hne ].
    + rewrite lookup_insert_eq in Hlookup. injection Hlookup as <-.
      split; [ intros Hnil; apply app_eq_nil in Hnil as [_ [=]] | ].
      intros test_spec [ Hold | Hnew%list_elem_of_singleton ]%elem_of_app.
      * destruct (acc !! pipe_id) as [ old | ] eqn:Hold'; [ | inversion Hold ].
        exact (proj2 (Hacc pipe_id old Hold') test_spec Hold).
      * subst test_spec. exists filename, spec_dict.
        split; [ apply Hfilenames, Hin | ].
        split; [ rewrite <- Hs; exact Hfile | ]. auto.
    + rewrite lookup_insert_ne in Hlookup by exact Hne.
      exact (Hacc pipe_id ts Hlookup).
Qed.

Lemma loaded_specs_come_from_files_witness :
  ∃ test_specs d',
    load_test_specs ["foo"] false Scenario.ignore_disk = Some (Ok test_specs, d')
    ∧ ∃ spec_dict,
        files Scenario.ignore_disk !! "expected/foo.test.json"
        = Some (JsonDoc (JDict spec_dict)).
Proof.
  eexists _, _. split; [ vm_compute; reflexivity | ].
  refine (proj1 (loaded_specs_come_from_files ["foo"] Scenario.ignore_disk _ _ _)
            "expected/foo.test.json" _ _).
  - vm_compute. reflexivity.
  - vm_compute. eexists. reflexivity.
  - vm_compute. reflexivity.
Defined.

Lemma create_empty_spec_adds test_specs pipe_id d test_specs' d' :
  create_empty_spec test_specs pipe_id d = Some (Ok test_specs', d') →
  is_Some (test_specs' !! pipe_id)
  ∧ ∀ p, is_Some (test_specs !! p) → is_Some (test_specs' !! p).
Proof.
  unfold create_empty_spec.
  unfold mbind at 1, prog_bind at 1, log at 1, modify at 1.
  destruct (test_specs !! pipe_id) as [ specs | ] eqn:Hlookup.
  - intros [= <- <-]. split; [ rewrite Hlookup; eexists; reflexivity | auto ].
  - unfold mbind at 1, prog_bind at 1, log at 1, modify at 1.
    unfold mbind at 1, prog_bind at 1, write_file at 1, modify at 1.
    unfold mbind, prog_bind.
    match goal with |- context [ TestSpec_init ?f ?s ] =>
      destruct (TestSpec_init f s) as [ [ [ test_spec | e ] d1 ] | ]
    end; try discriminate.
    intros [= <- <-]. split.
    + rewrite lookup_insert_eq. eexists; reflexivity.
    + intros p Hp. destruct (decide (pipe_id = p)) as [ -> | Hne ].
      * rewrite lookup_insert_eq. eexists; reflexivity.
      * rewrite lookup_insert_ne by exact Hne. exact Hp.
Qed.

Lemma create_empty_specs_add pipes :
  ∀ test_specs d test_specs' d',
    for_each create_empty_spec pipes test_specs d = Some (Ok test_specs', d') →
    (∀ p, is_Some (test_specs !! p) → is_Some (test_specs' !! p))
    ∧ ∀ p, p ∈ pipes → is_Some (test_specs' !! p).
Proof.
  induction pipes as [ | pipe_id rest IH ]; intros test_specs d test_specs' d' Hrun.
  - cbn in Hrun. injection Hrun as <- <-.
    split; [ auto | intros p Hp; inversion Hp ].
  - cbn [for_each] in Hrun. unfold mbind, prog_bind in Hrun.
    destruct (create_empty_spec test_specs pipe_id d)
      as [ [ [ test_specs1 | e ] d1 ] | ] eqn:Hstep; try discriminate.
    apply create_empty_spec_adds in Hstep as [Hnew Hold].
    destruct (IH _ _ _ _ Hrun) as [Hkeep Hrest].
    split; [ auto | ].
    intros p [ -> | Hp ]%elem_of_cons; [ apply Hkeep, Hnew | apply Hrest, Hp ].
Qed.

(** X20. When [load_test_specs] returns in update mode, every existing
    output pipe has a test spec. *)
Theorem update_mode_gives_every_pipe_a_spec existing_output_pipes d test_specs d' :
  load_test_specs existing_output_pipes true d = Some (Ok test_specs, d') →
  ∀ pipe_id, pipe_id ∈ existing_output_pipes → is_Some (test_specs !! pipe_id).
Proof.
  unfold load_test_specs. unfold mbind, prog_bind.
  destruct (glob_test_specs d) as [ [ [ filenames | e ] d0 ] | ]; try discriminate.
  destruct (for_each (load_spec_file existing_output_pipes true) filenames ∅ d0)
    as [ [ [ specs | e ] d1 ] | ]; try discriminate.
  intros Hrun. exact (proj2 (create_empty_specs_add _ _ _ _ _ Hrun)).
Qed.

Lemma update_mode_gives_every_pipe_a_spec_witness :
  ∃ test_specs d',
    load_test_specs ["foo"; "bar"] true Scenario.ignore_disk = Some (Ok test_specs, d')
    ∧ is_Some (test_specs !! "bar")
    ∧ files d' !! "expected/bar.test.json" = Some (JsonDoc (JDict [])).
Proof.
  eexists _, _. split; [ vm_compute; reflexivity | ].
  split; [ | vm_compute; reflexivity ].
  refine (update_mode_gives_every_pipe_a_spec ["foo"; "bar"] Scenario.ignore_disk
            _ _ _ "bar" _).
  - vm_compute. reflexivity.
  - right. left.
Defined.

(** ** [TestSpec] *)

Lemma append_assoc (a b c : string) : (a ++ b) ++ c = a ++ (b ++ c).
Proof.
  induction a as [ | x a IH ]; [ reflexivity | ].
  change (String x ((a ++ b) ++ c) = String x (a ++ (b ++ c))). rewrite IH. reflexivity.
Qed.

Lemma append_nil_r (s : string) : s ++ "" = s.
Proof.
  induction s as [ | x s IH ]; [ reflexivity | ].
  change (String x (s ++ "") = String x s). rewrite IH. reflexivity.
Qed.

Lemma drop_last_app s t : drop_last (String.length t) (s ++ t) = s.
Proof.
  unfold drop_last. rewrite length_append.
  replace (String.length s + String.length t - String.length t)%nat
    with (String.length s) by lia.
  rewrite substring_app_prefix by lia. apply substring_all.
Qed.

Lemma last_segment_from_no_slash acc s :
  String.index 0 "/" s = None → last_segment_from acc s = acc ++ s.
Proof.
  revert acc. induction s as [ | c s IH ]; intros acc.
  - intros _. cbn [last_segment_from]. symmetry. apply append_nil_r.
  - rewrite index_0_cons, prefix_char. cbn [last_segment_from].
    destruct (bool_decide_reflect ("/"%char = c)) as [ <- | Hne ]; [ discriminate | ].
    destruct (String.index 0 "/" s); [ discriminate | ]. intros _.
    destruct (Ascii.eqb_spec c "/") as [ -> | _ ]; [ contradiction | ].
    rewrite (IH _ eq_refl), append_assoc. reflexivity.
Qed.

(** X21. The spec made for the file [expected/<pipe>.test.json] that holds
    an empty object: its pipe is [<pipe>], its baseline
    [expected/<pipe>.json], its endpoint ["json"], and it is not
    ignored. *)
Theorem empty_spec_file_defaults pipe_id :
  String.index 0 "/" pipe_id = None →
  let test_spec := TestSpec_of ("expected/" ++ pipe_id ++ ".test.json") [] in
  TestSpec_name test_spec = Some (JStr ("expected/" ++ pipe_id))
  ∧ TestSpec_file test_spec = Some (JStr ("expected/" ++ pipe_id ++ ".json"))
  ∧ TestSpec_endpoint test_spec = Some (JStr "json")
  ∧ TestSpec_pipe test_spec = Some (JStr pipe_id)
  ∧ TestSpec_ignore test_spec = false.
Proof.
  intros Hslash test_spec. unfold test_spec, TestSpec_of.
  rewrite <- (append_assoc "expected/" pipe_id ".test.json").
  rewrite (drop_last_app ("expected/" ++ pipe_id) ".test.json").
  assert (Hname : String.index 0 "/" ("expected/" ++ pipe_id) ≠ None).
  { intros Hnone. apply index_char_none_app in Hnone as [Hnone _]. discriminate. }
  rewrite bool_decide_eq_false_2 by exact Hname.
  assert (Hpipe : last_segment ("expected/" ++ pipe_id) = pipe_id).
  { unfold last_segment. simpl. apply (last_segment_from_no_slash "" pipe_id Hslash). }
  rewrite Hpipe, append_assoc.
  repeat split; reflexivity.
Qed.

Lemma empty_spec_file_defaults_witness :
  TestSpec_pipe (TestSpec_of "expected/orders.test.json" []) = Some (JStr "orders")
  ∧ TestSpec_file (TestSpec_of "expected/orders.test.json" [])
    = Some (JStr "expected/orders.json").
Proof.
  destruct (empty_spec_file_defaults "orders" eq_refl)
    as (_ & Hfile & _ & Hpipe & _).
  split; [ exact Hpipe | exact Hfile ].
Defined.

Lemma dict_get_set key key' value d :
  dict_get key (dict_set key' value d)
  = if String.eqb key' key then Some value else dict_get key d.
Proof.
  induction d as [ | [k v] rest IH ]; cbn [dict_set dict_get].
  - reflexivity.
  - destruct (String.eqb_spec k key') as [ -> | Hne ]; cbn [dict_get].
    + destruct (String.eqb key' key); reflexivity.
    + rewrite IH. destruct (String.eqb_spec key' key) as [ -> | ]; [ | reflexivity ].
      rewrite (proj2 (String.eqb_neq k key) Hne). reflexivity.
Qed.

Lemma dict_get_None key (d : list (string * json)) :
  key ∉ map fst d → dict_get key d = None.
Proof.
  induction d as [ | [k v] rest IH ]; [ reflexivity | ].
  cbn [map fst dict_get]. intros Hnot.
  destruct (String.eqb_spec k key) as [ -> | _ ]; [ destruct Hnot; left | ].
  apply IH. intros Hin. apply Hnot. right. exact Hin.
Qed.

Lemma dict_get_update key other :
  NoDup (map fst other) →
  ∀ d, dict_get key (dict_update d other)
       = match dict_get key other with
         | Some value => Some value
         | None => dict_get key d
         end.
Proof.
  unfold dict_update. induction other as [ | [k v] rest IH ]; intros Hnodup d.
  - reflexivity.
  - cbn [map fst] in Hnodup. apply NoDup_cons in Hnodup as [Hk Hrest].
    cbn [fold_left fst snd dict_get]. rewrite (IH Hrest), dict_get_set.
    destruct (String.eqb_spec k key) as [ -> | _ ]; [ | reflexivity ].
    rewrite (dict_get_None _ _ Hk). reflexivity.
Qed.

(** X22. An entry of the spec file stands for the default of the same name,
    and every default without such an entry stays. *)
Theorem spec_file_overrides_defaults filename spec_dict key :
  NoDup (map fst spec_dict) →
  dict_get key (_spec (TestSpec_of filename spec_dict))
  = match dict_get key spec_dict with
    | Some value => Some value
    | None => dict_get key (_spec (TestSpec_of filename []))
    end.
Proof. intros Hnodup. unfold TestSpec_of. cbn [_spec]. apply dict_get_update, Hnodup. Qed.

Lemma spec_file_overrides_defaults_witness :
  TestSpec_pipe (TestSpec_of "expected/a.test.json"
                   [("pipe", JStr "b"); ("blacklist", JList [])])
  = Some (JStr "b")
  ∧ TestSpec_endpoint (TestSpec_of "expected/a.test.json"
                         [("pipe", JStr "b"); ("blacklist", JList [])])
    = Some (JStr "json").
Proof.
  assert (Hnodup : NoDup (map fst [("pipe", JStr "b"); ("blacklist", JList [])])).
  { apply (bool_decide_unpack _). vm_compute. exact I. }
  split.
  - exact (spec_file_overrides_defaults "expected/a.test.json" _ "pipe" Hnodup).
  - exact (spec_file_overrides_defaults "expected/a.test.json" _ "endpoint" Hnodup).
Defined.

(** ** Writing a baseline and reading it back *)

Lemma insert_sorted_map_keys {A B} (f : string * A → string * B) x l :
  (∀ y, (f y).1 = y.1) →
  insert_sorted key_lt (f x) (map f l) = map f (insert_sorted key_lt x l).
Proof.
  intros Hkeys. induction l as [ | y rest IH ]; [ reflexivity | ].
  cbn [map insert_sorted]. unfold key_lt at 1. rewrite !Hkeys.
  change (String.ltb y.1 x.1) with (key_lt y x).
  destruct (key_lt y x); [ cbn [map]; rewrite IH; reflexivity | reflexivity ].
Qed.

Lemma py_sorted_map_keys {A B} (f : string * A → string * B) l :
  (∀ y, (f y).1 = y.1) →
  py_sorted key_lt (map f l) = map f (py_sorted key_lt l).
Proof.
  intros Hkeys. induction l as [ | x rest IH ]; [ reflexivity | ].
  cbn [map py_sorted]. rewrite IH. apply insert_sorted_map_keys, Hkeys.
Qed.

Lemma py_sorted_of_sorted {A} (lt : A → A → bool) l :
  StronglySorted (not_after lt) l → py_sorted lt l = l.
Proof.
  induction 1 as [ | x rest Hrest IH Hx ]; [ reflexivity | ].
  cbn [py_sorted]. rewrite IH.
  destruct rest as [ | y rest ]; [ reflexivity | ].
  cbn [insert_sorted]. apply Forall_cons in Hx as [Hy _].
  unfold not_after in Hy. rewrite Hy. reflexivity.
Qed.

Lemma py_sorted_keys_idempotent {A} (l : list (string * A)) :
  py_sorted key_lt (py_sorted key_lt l) = py_sorted key_lt l.
Proof.
  apply py_sorted_of_sorted, py_sorted_sorted;
    [ exact key_lt_asym | exact key_lt_le_trans ].
Qed.

Lemma encode_sort_keys value :
  ∀ level, Dumps.encode level (sort_keys value) = Dumps.encode level value.
Proof.
  induction value as [ | b | n | text | s | items IH | entries IH ]
    using json_induction; intros level; try reflexivity.
  - cbn [sort_keys].
    assert (Hmap : ∀ lvl, map (Dumps.encode lvl) (map sort_keys items)
                          = map (Dumps.encode lvl) items).
    { intros lvl. induction IH as [ | x rest Hx Hrest IHrest ]; [ reflexivity | ].
      cbn [map]. rewrite Hx, IHrest. reflexivity. }
    destruct items as [ | x rest ]; [ reflexivity | ].
    cbn [map Dumps.encode]. cbn [map] in Hmap. rewrite (Hmap (S level)). reflexivity.
  - cbn [sort_keys].
    assert (Hsorted : ∀ lvl,
               py_sorted key_lt
                 (map (fun kv => (kv.1, Dumps.encode lvl kv.2))
                    (py_sorted key_lt (map (fun kv => (kv.1, sort_keys kv.2)) entries)))
               = py_sorted key_lt (map (fun kv => (kv.1, Dumps.encode lvl kv.2)) entries)).
    { intros lvl.
      rewrite (py_sorted_map_keys (fun kv : string * json => (kv.1, Dumps.encode lvl kv.2)))
        by reflexivity.
      rewrite py_sorted_keys_idempotent.
      rewrite <- (py_sorted_map_keys
                    (fun kv : string * json => (kv.1, Dumps.encode lvl kv.2)))
        by reflexivity.
      f_equal. rewrite map_map. cbn [fst snd].
      induction IH as [ | [k v] rest Hx Hrest IHrest ]; [ reflexivity | ].
      cbn [map fst snd] in *. rewrite Hx, IHrest. reflexivity. }
    destruct entries as [ | kv rest ]; [ reflexivity | ].
    destruct (py_sorted key_lt (map (fun kv => (kv.1, sort_keys kv.2)) (kv :: rest)))
      as [ | kv' rest' ] eqn:Hnonempty.
    + apply (f_equal (@List.length _)) in Hnonempty.
      rewrite (Permutation_length (py_sorted_perm key_lt _)) in Hnonempty.
      discriminate.
    + specialize (Hsorted (S level)).
      cbn [Dumps.encode]. cbn zeta. rewrite Hsorted. reflexivity.
Qed.

(** ** [verify] and [update] *)

Lemma log_records_run (records : list log_record) (s : disk) :
  ∃ s',
    for_each (fun (_ : ()) record => modify (emit record)) records () s = Some (Ok (), s')
    ∧ files s' = files s
    ∧ disk_log s' = (disk_log s ++ records)%list.
Proof.
  revert s. induction records as [ | record rest IH ]; intros s.
  - exists s. cbn. rewrite app_nil_r. auto.
  - cbn [for_each]. prog_simpl.
    destruct (IH (emit record s)) as (s' & -> & Hfiles & Hlog).
    exists s'. split; [ reflexivity | ]. split; [ exact Hfiles | ].
    rewrite Hlog. cbn. rewrite <- app_assoc. reflexivity.
Qed.

Lemma verify_json_current_output test_spec expected_output resp_json :
  verify_json test_spec expected_output resp_json
  = (fetched ← py_iter (get_pipe_entities resp_json);
     filtered ← mapM (fun e => filter_entity e test_spec) fetched;
     current_output ← sorted_by_id filtered;
     len_expected ← py_len expected_output;
     if negb (List.length current_output =? len_expected)%nat then
       Ok {| logged :=
               [(ERROR, LengthMismatch (_spec_file test_spec)
                          len_expected (List.length current_output));
                (INFO, ExpectedOutput expected_output);
                (INFO, GotOutput (JList current_output));
                (INFO, Diff (get_diff_string (Dumps.dumps expected_output)
                               (Dumps.dumps (JList current_output))
                               (TestSpec_file test_spec) "current-output.json"))];
             failed := true |}
     else if negb (String.eqb (Dumps.dumps expected_output)
                     (Dumps.dumps (JList current_output))) then
       Ok {| logged :=
               [(ERROR, ContentMismatch (TestSpec_file test_spec));
                (INFO, ExpectedOutput expected_output);
                (DEBUG, ExpectedOutputJson (Dumps.dumps expected_output));
                (INFO, GotOutput (JList current_output));
                (DEBUG, GotOutputJson (Dumps.dumps (JList current_output)));
                (INFO, Diff (get_diff_string (Dumps.dumps expected_output)
                               (Dumps.dumps (JList current_output))
                               (TestSpec_file test_spec) "current-output.json"))];
             failed := true |}
     else Ok {| logged := []; failed := false |}).
Proof. reflexivity. Qed.

(** X24. The baseline that [update] writes for a test spec passes [verify]
    for as long as the pipe gives the same entities: nothing is logged
    and the spec is not added to the failed tests. *)
Theorem updated_spec_passes_verify entities pipe_id test_spec i i' failed_tests d d1 :
  TestSpec_ignore test_spec = false →
  update_spec entities pipe_id i test_spec d = Some (Ok i', d1) →
  verify_spec entities pipe_id failed_tests test_spec d1 = Some (Ok failed_tests, d1).
Proof.
  intros Hignore. unfold update_spec, verify_spec. rewrite Hignore.
  unfold mbind at 1, prog_bind at 1, log at 1, modify at 1.
  destruct (is_json_endpoint test_spec); [ | discriminate ].
  unfold mbind at 1, prog_bind at 1. unfold mbind at 1, prog_bind at 1, lift at 1.
  destruct (current_output_of entities test_spec pipe_id) as [ current_output | e ]
    eqn:Hcurrent; [ | discriminate ].
  unfold mret at 1, prog_ret at 1.
  unfold update_expected_data, isfile, write_file.
  unfold mbind at 1, prog_bind at 1. unfold mbind at 1, prog_bind at 1, lift at 1.
  destruct (baseline_of test_spec) as [ filename | e ] eqn:Hbaseline; [ | discriminate ].
  prog_simpl.
  intros Hrun.
  assert (Hfiles : files d1 !! filename = Some (JsonDoc (sort_keys (JList current_output)))).
  { destruct (bool_decide (is_Some _)) in Hrun; cbn [negb] in Hrun;
      injection Hrun as _ <-; cbn [files emit disk_logger]; apply lookup_insert_eq. }
  clear Hrun.
  unfold expected_entities, read_entities. prog_simpl. rewrite Hbaseline. exc_simpl.
  rewrite Hfiles.
  unfold current_output_of in Hcurrent.
  destruct (entities pipe_id) as [ resp_json | e ]; exc_simpl; [ | discriminate ].
  rewrite verify_json_current_output.
  destruct (py_iter (get_pipe_entities resp_json)) as [ fetched | e ]; exc_simpl;
    [ | discriminate ].
  destruct (mapM (fun e => filter_entity e test_spec) fetched) as [ filtered | e ];
    exc_simpl; [ | discriminate ].
  rewrite Hcurrent. exc_simpl.
  cbn [sort_keys py_len]. exc_simpl. rewrite length_map, Nat.eqb_refl. cbn [negb].
  change (JList (map sort_keys current_output)) with (sort_keys (JList current_output)).
  unfold Dumps.dumps. rewrite encode_sort_keys, String.eqb_refl. reflexivity.
Qed.

Lemma updated_spec_passes_verify_witness :
  let entities := fun _ : string =>
    Ok (JList [JDict [("_id", JStr "b"); ("v", JFloat "1.0")];
               JDict [("z", JInt 2); ("_id", JStr "a"); ("_ts", JInt 9)]]) in
  ∃ d1,
    update_spec entities "p" 0 (Scenario.spec []) Scenario.ignore_disk = Some (Ok 1%nat, d1)
    ∧ files d1 !! "expected/p.json"
      = Some (JsonDoc (JList [JDict [("_id", JStr "a"); ("z", JInt 2)];
                              JDict [("_id", JStr "b"); ("v", JInt 1)]]))
    ∧ verify_spec entities "p" [] (Scenario.spec []) d1 = Some (Ok [], d1).
Proof.
  intros entities. eexists. split; [ vm_compute; reflexivity | ].
  split; [ vm_compute; reflexivity | ].
  apply (updated_spec_passes_verify entities "p" (Scenario.spec []) 0 1 []
           Scenario.ignore_disk).
  - reflexivity.
  - vm_compute. reflexivity.
Defined.

Lemma expected_entities_reads test_spec (s : disk) :
  expected_entities test_spec s = Some (read_entities (files s) test_spec, s).
Proof. reflexivity. Qed.

Lemma verify_spec_runs entities pipe_id failed_tests test_spec s :
  ∃ s',
    verify_spec entities pipe_id failed_tests test_spec s
    = Some (if TestSpec_ignore test_spec then Ok failed_tests
            else if is_json_endpoint test_spec then
              match spec_result entities (files s) pipe_id test_spec with
              | Ok result =>
                  Ok (if failed result then (failed_tests ++ [test_spec])%list
                      else failed_tests)
              | Raise e => Raise e
              end
            else Raise (NotModelled "an endpoint other than json"),
            s')
    ∧ files s' = files s.
Proof.
  unfold verify_spec, spec_result.
  destruct (TestSpec_ignore test_spec).
  { eexists. split; [ reflexivity | reflexivity ]. }
  destruct (is_json_endpoint test_spec).
  2: { eexists. split; reflexivity. }
  unfold mbind at 1, prog_bind at 1. rewrite expected_entities_reads.
  destruct (read_entities (files s) test_spec) as [ expected_output | e ]; exc_simpl.
  2: { eexists. split; reflexivity. }
  unfold mbind at 1, prog_bind at 1, lift at 1.
  destruct (entities pipe_id) as [ resp_json | e ]; exc_simpl.
  2: { eexists. split; reflexivity. }
  unfold mbind at 1, prog_bind at 1, lift at 1.
  destruct (verify_json test_spec expected_output resp_json) as [ result | e ].
  2: { eexists. split; reflexivity. }
  unfold mbind at 1, prog_bind at 1.
  destruct (log_records_run (logged result) s) as (s' & -> & Hfiles & _).
  exists s'. split; [ reflexivity | exact Hfiles ].
Qed.

(** The loop over the specs of a pipe. When all of them are ignored or
    json specs, it goes through all of them unless a comparison raises,
    and collects those that fail. *)
Lemma verify_specs_loop entities pipe_id specs :
  ∀ failed_tests s,
  ∃ r s',
    for_each (verify_spec entities pipe_id) specs failed_tests s = Some (r, s')
    ∧ files s' = files s
    ∧ (Forall (fun t => is_json_or_ignored t = true) specs →
       (Forall (fun t => spec_runs entities (files s) pipe_id t = true) specs →
        r = Ok (failed_tests
                  ++ List.filter (spec_fails entities (files s) pipe_id) specs)%list)
       ∧ (∀ failed_tests', r = Ok failed_tests' →
            Forall (fun t => spec_runs entities (files s) pipe_id t = true) specs)).
Proof.
  induction specs as [ | test_spec rest IH ]; intros failed_tests s.
  - exists (Ok failed_tests), s. cbn. rewrite app_nil_r. auto.
  - cbn [for_each List.filter]. unfold mbind, prog_bind.
    destruct (verify_spec_runs entities pipe_id failed_tests test_spec s)
      as (s1 & -> & Hfiles1).
    destruct (TestSpec_ignore test_spec) eqn:Hignore.
    { assert (Hruns : spec_runs entities (files s) pipe_id test_spec = true)
        by (unfold spec_runs; rewrite Hignore; reflexivity).
      assert (Hfails : spec_fails entities (files s) pipe_id test_spec = false)
        by (unfold spec_fails; rewrite Hignore; reflexivity).
      rewrite Hfails.
      destruct (IH failed_tests s1) as (r & s' & -> & Hfiles & Hloop).
      rewrite Hfiles1 in *. exists r, s'. split; [ reflexivity | ].
      split; [ exact Hfiles | ].
      intros [_ Hjson]%Forall_cons. destruct (Hloop Hjson) as [Hall Hok]. split.
      - intros [_ Hrest]%Forall_cons. exact (Hall Hrest).
      - intros failed' Hr. constructor; [ exact Hruns | exact (Hok _ Hr) ]. }
    destruct (is_json_endpoint test_spec) eqn:Hjson_spec.
    2: { eexists _, _. split; [ reflexivity | ]. split; [ exact Hfiles1 | ].
         intros [Hhead _]%Forall_cons. unfold is_json_or_ignored in Hhead.
         rewrite Hignore, Hjson_spec in Hhead. discriminate. }
    destruct (spec_result entities (files s) pipe_id test_spec) as [ result | e ]
      eqn:Hresult.
    2: { assert (Hruns : spec_runs entities (files s) pipe_id test_spec = false)
           by (unfold spec_runs; rewrite Hignore, Hresult; reflexivity).
         eexists _, _. split; [ reflexivity | ]. split; [ exact Hfiles1 | ].
         intros _.
         split; [ intros [Hhead _]%Forall_cons; congruence | discriminate ]. }
    assert (Hruns : spec_runs entities (files s) pipe_id test_spec = true)
      by (unfold spec_runs; rewrite Hignore, Hresult; reflexivity).
    assert (Hfails : spec_fails entities (files s) pipe_id test_spec = failed result)
      by (unfold spec_fails; rewrite Hignore, Hresult; reflexivity).
    rewrite Hfails.
    match goal with |- context [ for_each _ rest ?acc s1 ] =>
      destruct (IH acc s1) as (r & s' & -> & Hfiles & Hloop)
    end.
    rewrite Hfiles1 in *. exists r, s'. split; [ reflexivity | ].
    split; [ exact Hfiles | ].
    intros [_ Hjson]%Forall_cons. destruct (Hloop Hjson) as [Hall Hok]. split.
    + intros [_ Hrest]%Forall_cons. rewrite (Hall Hrest).
      destruct (failed result); [ rewrite <- app_assoc | ]; reflexivity.
    + intros failed' Hr. constructor; [ exact Hruns | exact (Hok _ Hr) ].
Qed.

Lemma verify_pipe_runs entities test_specs failed_tests pipe_id s :
  verify_pipe entities test_specs failed_tests pipe_id s
  = for_each (verify_spec entities pipe_id) (default [] (test_specs !! pipe_id))
      failed_tests (emit (DEBUG, Text ("Verifying pipe '" ++ pipe_id ++ "'..")) s).
Proof.
  unfold verify_pipe. prog_simpl. destruct (test_specs !! pipe_id); reflexivity.
Qed.

Lemma verify_pipes_loop entities test_specs ids :
  ∀ failed_tests s,
  ∃ r s',
    for_each (verify_pipe entities test_specs) ids failed_tests s = Some (r, s')
    ∧ files s' = files s
    ∧ (Forall (fun pipe_id =>
                 Forall (fun t => is_json_or_ignored t = true)
                   (default [] (test_specs !! pipe_id))) ids →
       (Forall (fun pipe_id =>
                  Forall (fun t => spec_runs entities (files s) pipe_id t = true)
                    (default [] (test_specs !! pipe_id))) ids →
        r = Ok (failed_tests
                  ++ flat_map (fun pipe_id =>
                                 List.filter (spec_fails entities (files s) pipe_id)
                                   (default [] (test_specs !! pipe_id))) ids)%list)
       ∧ (∀ failed_tests', r = Ok failed_tests' →
            Forall (fun pipe_id =>
                      Forall (fun t => spec_runs entities (files s) pipe_id t = true)
                        (default [] (test_specs !! pipe_id))) ids)).
Proof.
  induction ids as [ | pipe_id rest IH ]; intros failed_tests s.
  - exists (Ok failed_tests), s. cbn. rewrite app_nil_r. auto.
  - cbn [for_each flat_map]. unfold mbind, prog_bind. rewrite verify_pipe_runs.
    destruct (verify_specs_loop entities pipe_id (default [] (test_specs !! pipe_id))
                failed_tests
                (emit (DEBUG, Text ("Verifying pipe '" ++ pipe_id ++ "'..")) s))
      as (r1 & s1 & -> & Hfiles1 & Hloop1).
    cbn [files emit disk_logger] in Hfiles1, Hloop1.
    destruct r1 as [ failed1 | e ].
    + destruct (IH failed1 s1) as (r & s' & -> & Hfiles & Hloop).
      rewrite Hfiles1 in *. exists r, s'. split; [ reflexivity | ].
      split; [ exact Hfiles | ].
      intros [Hjson1 Hjson]%Forall_cons.
      destruct (Hloop1 Hjson1) as [Hall1 Hok1]. destruct (Hloop Hjson) as [Hall Hok].
      split.
      * intros [Hhead Hrest]%Forall_cons. rewrite (Hall Hrest).
        specialize (Hall1 Hhead). injection Hall1 as ->.
        rewrite <- app_assoc. reflexivity.
      * intros failed' Hr. constructor; [ exact (Hok1 _ eq_refl) | exact (Hok _ Hr) ].
    + eexists _, _. split; [ reflexivity | ]. split; [ exact Hfiles1 | ].
      intros [Hjson1 _]%Forall_cons. destruct (Hloop1 Hjson1) as [Hall1 _].
      split; [ | discriminate ].
      intros [Hhead _]%Forall_cons. specialize (Hall1 Hhead). discriminate.
Qed.

Lemma log_failed_tests_run (failed_tests : list TestSpec) (s : disk) :
  ∃ s',
    for_each
      (fun (_ : ()) failed_test_spec =>
         log ERROR (Text (pipe_str failed_test_spec ++ " ("
                          ++ _spec_file failed_test_spec ++ ")")))
      failed_tests () s = Some (Ok (), s')
    ∧ files s' = files s
    ∧ disk_log s'
      = (disk_log s
           ++ map (fun t => (ERROR, Text (pipe_str t ++ " (" ++ _spec_file t ++ ")")))
                failed_tests)%list.
Proof.
  revert s. induction failed_tests as [ | t rest IH ]; intros s.
  - exists s. cbn. rewrite app_nil_r. auto.
  - cbn [for_each]. prog_simpl.
    match goal with |- context [ for_each _ rest () ?s1 ] =>
      destruct (IH s1) as (s' & -> & Hfiles & Hlog)
    end.
    exists s'. split; [ reflexivity | ]. split; [ exact Hfiles | ].
    rewrite Hlog. cbn. rewrite <- app_assoc. reflexivity.
Qed.

Lemma output_pipe_ids_reads pipes (s : disk) r s' :
  output_pipe_ids pipes s = Some (r, s') → s' = s.
Proof.
  unfold output_pipe_ids.
  destruct (get_output_pipes pipes); [ destruct (get_endpoint_pipes pipes) | ];
    intros [= _ <-]; reflexivity.
Qed.

(** What [verify] comes to once the pipes are told and the test specs
    loaded. *)
Lemma verify_runs pipes entities d ids test_specs d0 d1 :
  output_pipe_ids pipes
    (emit (INFO, Text "Verifying that expected output matches current output...") d)
  = Some (Ok ids, d0) →
  load_test_specs ids false d0 = Some (Ok test_specs, d1) →
  test_specs ≠ ∅ →
  ∃ r d2 d',
    for_each (verify_pipe entities test_specs) ids [] d1 = Some (r, d2)
    ∧ files d2 = files d
    ∧ files d' = files d
    ∧ verify pipes entities d
      = Some (match r with
              | Ok [] => Ok ()
              | Ok (_ :: _) => Raise (RuntimeError "Verify failed")
              | Raise e => Raise e
              end, d')
    ∧ ∀ failed_tests t,
        r = Ok failed_tests → t ∈ failed_tests →
        (ERROR, Text (pipe_str t ++ " (" ++ _spec_file t ++ ")")) ∈ disk_log d'.
Proof.
  intros Hids Hload Hsome.
  pose proof (output_pipe_ids_reads _ _ _ _ Hids) as ->.
  pose proof (load_test_specs_reads _ _ _ _ Hload) as Hfiles1.
  cbn [files emit disk_logger] in Hfiles1.
  destruct (verify_pipes_loop entities test_specs ids [] d1)
    as (r & d2 & Hloop & Hfiles2 & _).
  unfold verify.
  unfold mbind at 1, prog_bind at 1, log at 1, modify at 1.
  unfold mbind at 1, prog_bind at 1. rewrite Hids.
  unfold mbind at 1, prog_bind at 1. rewrite Hload.
  rewrite bool_decide_eq_false_2 by exact Hsome.
  unfold mbind at 1, prog_bind at 1. rewrite Hloop.
  destruct r as [ [ | t0 failed_tests ] | e ].
  - eexists _, d2, _. split; [ reflexivity | ]. split; [ congruence | ].
    split; [ | split; [ reflexivity | ] ].
    + cbn [files emit disk_logger]. congruence.
    + intros failed t [= <-] Ht. inversion Ht.
  - unfold mbind at 1, prog_bind at 1, log at 1, modify at 1.
    unfold mbind at 1, prog_bind at 1, log at 1, modify at 1.
    unfold mbind at 1, prog_bind at 1.
    match goal with |- context [ for_each _ (t0 :: failed_tests) () ?s ] =>
      destruct (log_failed_tests_run (t0 :: failed_tests) s) as (d3 & -> & Hfiles3 & Hlog)
    end.
    cbn [files emit disk_logger] in Hfiles3.
    eexists _, d2, d3. split; [ reflexivity | ]. split; [ congruence | ].
    split; [ congruence | ]. split; [ reflexivity | ].
    intros failed t [= <-] Ht. rewrite Hlog. apply elem_of_app. right.
    apply (list_elem_of_fmap_2
             (fun t => (ERROR, Text (pipe_str t ++ " (" ++ _spec_file t ++ ")")))).
    exact Ht.
  - eexists _, d2, d2. split; [ reflexivity | ]. split; [ congruence | ].
    split; [ congruence | ]. split; [ reflexivity | discriminate ].
Qed.

(** X25. [verify] only reads: however a run ends, every file is as it
    was. This is stated of the runs that stay within what is embedded:
    a run ends in [NotModelled] when it comes to an xml or a raw spec,
    to a pipe whose type cannot be told, or to a spec entry or an
    identity that is not a string, and of those runs nothing is said. *)
Theorem verify_keeps_files pipes entities d r d' :
  verify pipes entities d = Some (r, d') →
  (∀ what, r ≠ Raise (NotModelled what)) →
  files d' = files d.
Proof.
  intros Hrun _. unfold verify in Hrun.
  unfold mbind at 1, prog_bind at 1, log at 1, modify at 1 in Hrun.
  unfold mbind at 1, prog_bind at 1 in Hrun.
  destruct (output_pipe_ids pipes
              (emit (INFO, Text "Verifying that expected output matches current output...") d))
    as [ [ [ ids | e ] d0 ] | ] eqn:Hids; [ | | discriminate ].
  2: { apply output_pipe_ids_reads in Hids as ->. injection Hrun as _ <-. reflexivity. }
  unfold mbind at 1, prog_bind at 1 in Hrun.
  destruct (load_test_specs ids false d0) as [ [ [ test_specs | e ] d1 ] | ] eqn:Hload;
    [ | | discriminate ].
  2: { apply load_test_specs_reads in Hload.
       apply output_pipe_ids_reads in Hids as ->. injection Hrun as _ <-.
       exact Hload. }
  destruct (decide (test_specs = ∅)) as [ Hnone | Hsome ].
  - rewrite bool_decide_eq_true_2 in Hrun by exact Hnone.
    apply load_test_specs_reads in Hload.
    apply output_pipe_ids_reads in Hids as ->. injection Hrun as _ <-. exact Hload.
  - destruct (verify_runs pipes entities d ids test_specs d0 d1 Hids Hload Hsome)
      as (r' & d2 & d'' & _ & _ & Hfiles & Hverify & _).
    unfold verify in Hverify.
    unfold mbind at 1, prog_bind at 1, log at 1, modify at 1 in Hverify.
    unfold mbind at 1, prog_bind at 1 in Hverify. rewrite Hids in Hverify.
    unfold mbind at 1, prog_bind at 1 in Hverify. rewrite Hload in Hverify.
    rewrite Hverify in Hrun. injection Hrun as _ <-. exact Hfiles.
Qed.

Lemma verify_keeps_files_witness :
  ∃ d',
    verify VerifyScenario.pipes VerifyScenario.entities
      (VerifyScenario.baselines (JList [Scenario.b]) (JList []))
    = Some (Raise (RuntimeError "Verify failed"), d')
    ∧ files d' = files (VerifyScenario.baselines (JList [Scenario.b]) (JList [])).
Proof.
  eexists. split; [ vm_compute; reflexivity | ].
  eapply (verify_keeps_files VerifyScenario.pipes VerifyScenario.entities
            (VerifyScenario.baselines (JList [Scenario.b]) (JList []))
            (Raise (RuntimeError "Verify failed"))).
  - vm_compute. reflexivity.
  - intros what. discriminate.
Defined.

Lemma flat_map_filter_nil {A B} (f : A → B → bool) (specs_of : A → list B) ids :
  flat_map (fun x => List.filter (f x) (specs_of x)) ids = []
  ↔ ∀ x y, x ∈ ids → y ∈ specs_of x → f x y = false.
Proof.
  induction ids as [ | x rest IH ]; cbn [flat_map].
  - split; [ intros _ x y Hx; inversion Hx | reflexivity ].
  - split.
    + intros [Hhead Hrest]%app_eq_nil x' y [ -> | Hx ]%elem_of_cons Hy.
      * destruct (f x y) eqn:Hf; [ | reflexivity ].
        assert (Hin : In y (List.filter (f x) (specs_of x))).
        { apply filter_In. split; [ apply list_elem_of_In, Hy | exact Hf ]. }
        rewrite Hhead in Hin. destruct Hin.
      * exact (proj1 IH Hrest x' y Hx Hy).
    + intros Hall. rewrite (proj2 IH); [ | intros x' y Hx; apply Hall; right; exact Hx ].
      rewrite app_nil_r.
      destruct (List.filter (f x) (specs_of x)) as [ | y l ] eqn:Hfilter; [ reflexivity | ].
      assert (Hin : In y (List.filter (f x) (specs_of x))) by (rewrite Hfilter; left; reflexivity).
      apply filter_In in Hin as [Hy Hf].
      rewrite (Hall x y) in Hf; [ discriminate | left | apply list_elem_of_In, Hy ].
Qed.

Lemma spec_embedded_json entities fs pipe_id test_spec :
  spec_embedded entities fs pipe_id test_spec = true →
  is_json_or_ignored test_spec = true.
Proof.
  unfold spec_embedded, is_json_or_ignored.
  destruct (TestSpec_ignore test_spec); [ reflexivity | ].
  cbn [orb]. intros [Hjson _]%andb_true_iff. exact Hjson.
Qed.

(** X26. Once the pipes are told and test specs are found, each of them
    ignored or a json spec within what is embedded, [verify] returns
    normally exactly when, for every output pipe, every test spec of
    the pipe is ignored or its comparison is made without raising and
    finds no difference. *)
Theorem verify_passes_iff pipes entities d ids test_specs d0 d1 :
  output_pipe_ids pipes
    (emit (INFO, Text "Verifying that expected output matches current output...") d)
  = Some (Ok ids, d0) →
  load_test_specs ids false d0 = Some (Ok test_specs, d1) →
  test_specs ≠ ∅ →
  (∀ pipe_id test_spec,
     pipe_id ∈ ids → test_spec ∈ default [] (test_specs !! pipe_id) →
     spec_embedded entities (files d) pipe_id test_spec = true) →
  (∃ d', verify pipes entities d = Some (Ok (), d'))
  ↔ ∀ pipe_id test_spec,
      pipe_id ∈ ids → test_spec ∈ default [] (test_specs !! pipe_id) →
      spec_runs entities (files d) pipe_id test_spec = true
      ∧ spec_fails entities (files d) pipe_id test_spec = false.
Proof.
  intros Hids Hload Hsome Hjson_specs.
  destruct (verify_runs pipes entities d ids test_specs d0 d1 Hids Hload Hsome)
    as (r & d2 & d' & Hloop & _ & _ & Hverify & _).
  pose proof (load_test_specs_reads _ _ _ _ Hload) as Hfiles1.
  pose proof (output_pipe_ids_reads _ _ _ _ Hids) as ->.
  cbn [files emit disk_logger] in Hfiles1.
  destruct (verify_pipes_loop entities test_specs ids [] d1)
    as (r' & d2' & Hloop' & _ & Hjson_loop).
  destruct Hjson_loop as [Hall Hok].
  { apply Forall_forall. intros pipe_id Hpipe. apply Forall_forall.
    intros t Ht. exact (spec_embedded_json _ _ _ _ (Hjson_specs pipe_id t Hpipe Ht)). }
  rewrite Hloop in Hloop'. injection Hloop' as <- <-.
  rewrite Hfiles1 in Hall, Hok. cbn [app] in Hall.
  rewrite Hverify. split.
  - intros [d'' Hrun]. injection Hrun as Hr _.
    destruct r as [ [ | t0 failed_tests ] | e ]; try discriminate.
    pose proof (Hok _ eq_refl) as Hruns.
    pose proof (Hall Hruns) as Hnone. injection Hnone as Hnone. symmetry in Hnone.
    intros pipe_id test_spec Hpipe Hspec. split.
    + rewrite Forall_forall in Hruns. specialize (Hruns pipe_id Hpipe).
      rewrite Forall_forall in Hruns. exact (Hruns test_spec Hspec).
    + exact (proj1 (flat_map_filter_nil _ _ ids) Hnone pipe_id test_spec Hpipe Hspec).
  - intros Hpass.
    assert (Hruns : Forall (fun pipe_id =>
                      Forall (fun t => spec_runs entities (files d) pipe_id t = true)
                        (default [] (test_specs !! pipe_id))) ids).
    { apply Forall_forall. intros pipe_id Hpipe. apply Forall_forall.
      intros t Ht. exact (proj1 (Hpass pipe_id t Hpipe Ht)). }
    rewrite (Hall Hruns).
    rewrite (proj2 (flat_map_filter_nil (spec_fails entities (files d))
                      (fun pipe_id => default [] (test_specs !! pipe_id)) ids)).
    + exists d'. reflexivity.
    + intros pipe_id t Hpipe Ht. exact (proj2 (Hpass pipe_id t Hpipe Ht)).
Qed.

(** X27. A spec that fails does not end [verify]: when each spec is
    ignored or a json spec within what is embedded, no comparison
    raises and some spec fails, [verify] raises "Verify failed" after
    the last spec, and has logged the line of every spec that fails. *)
Theorem verify_reports_every_failure pipes entities d ids test_specs d0 d1 :
  output_pipe_ids pipes
    (emit (INFO, Text "Verifying that expected output matches current output...") d)
  = Some (Ok ids, d0) →
  load_test_specs ids false d0 = Some (Ok test_specs, d1) →
  test_specs ≠ ∅ →
  (∀ pipe_id test_spec,
     pipe_id ∈ ids → test_spec ∈ default [] (test_specs !! pipe_id) →
     spec_embedded entities (files d) pipe_id test_spec = true) →
  (∀ pipe_id test_spec,
     pipe_id ∈ ids → test_spec ∈ default [] (test_specs !! pipe_id) →
     spec_runs entities (files d) pipe_id test_spec = true) →
  (∃ pipe_id test_spec,
     pipe_id ∈ ids ∧ test_spec ∈ default [] (test_specs !! pipe_id)
     ∧ spec_fails entities (files d) pipe_id test_spec = true) →
  ∃ d',
    verify pipes entities d = Some (Raise (RuntimeError "Verify failed"), d')
    ∧ ∀ pipe_id test_spec,
        pipe_id ∈ ids → test_spec ∈ default [] (test_specs !! pipe_id) →
        spec_fails entities (files d) pipe_id test_spec = true →
        (ERROR, Text (pipe_str test_spec ++ " (" ++ _spec_file test_spec ++ ")"))
        ∈ disk_log d'.
Proof.
  intros Hids Hload Hsome Hjson_specs Hall_run (pipe0 & t0 & Hpipe0 & Ht0 & Hfails0).
  destruct (verify_runs pipes entities d ids test_specs d0 d1 Hids Hload Hsome)
    as (r & d2 & d' & Hloop & _ & _ & Hverify & Hlog).
  pose proof (load_test_specs_reads _ _ _ _ Hload) as Hfiles1.
  pose proof (output_pipe_ids_reads _ _ _ _ Hids) as ->.
  cbn [files emit disk_logger] in Hfiles1.
  destruct (verify_pipes_loop entities test_specs ids [] d1)
    as (r' & d2' & Hloop' & _ & Hjson_loop).
  destruct Hjson_loop as [Hall _].
  { apply Forall_forall. intros pipe_id Hpipe. apply Forall_forall.
    intros t Ht. exact (spec_embedded_json _ _ _ _ (Hjson_specs pipe_id t Hpipe Ht)). }
  rewrite Hloop in Hloop'. injection Hloop' as <- <-.
  rewrite Hfiles1 in Hall. cbn [app] in Hall.
  assert (Hruns : Forall (fun pipe_id =>
                    Forall (fun t => spec_runs entities (files d) pipe_id t = true)
                      (default [] (test_specs !! pipe_id))) ids).
  { apply Forall_forall. intros pipe_id Hpipe. apply Forall_forall.
    intros t Ht. exact (Hall_run pipe_id t Hpipe Ht). }
  specialize (Hall Hruns). subst r.
  assert (Hmem : ∀ pipe_id test_spec,
             pipe_id ∈ ids → test_spec ∈ default [] (test_specs !! pipe_id) →
             spec_fails entities (files d) pipe_id test_spec = true →
             test_spec ∈ flat_map
               (fun pipe_id => List.filter (spec_fails entities (files d) pipe_id)
                                 (default [] (test_specs !! pipe_id))) ids).
  { intros pipe_id t Hpipe Ht Hfails. apply list_elem_of_In, in_flat_map.
    exists pipe_id. split; [ apply list_elem_of_In, Hpipe | ].
    apply filter_In. split; [ apply list_elem_of_In, Ht | exact Hfails ]. }
  exists d'. split.
  - rewrite Hverify.
    destruct (flat_map _ ids) as [ | t failed_tests ] eqn:Hfailed; [ | reflexivity ].
    specialize (Hmem pipe0 t0 Hpipe0 Ht0 Hfails0). inversion Hmem.
  - intros pipe_id t Hpipe Ht Hfails.
    exact (Hlog _ t eq_refl (Hmem pipe_id t Hpipe Ht Hfails)).
Qed.

Lemma verify_passes_iff_witness :
  ∃ d',
    verify VerifyScenario.pipes VerifyScenario.entities
      (VerifyScenario.baselines (JList [Scenario.a]) (JList [Scenario.a]))
    = Some (Ok (), d').
Proof.
  refine (proj2 (verify_passes_iff VerifyScenario.pipes VerifyScenario.entities
                   (VerifyScenario.baselines (JList [Scenario.a]) (JList [Scenario.a]))
                   ["p"; "q"] VerifyScenario.test_specs _ _ _ _ _ _) _).
  - vm_compute. reflexivity.
  - vm_compute. reflexivity.
  - apply insert_non_empty.
  - intros pipe_id test_spec Hpipe Hspec.
    apply elem_of_cons in Hpipe as [ -> | Hpipe ];
      [ | apply list_elem_of_singleton in Hpipe as -> ];
      vm_compute in Hspec; apply list_elem_of_singleton in Hspec as ->;
      vm_compute; reflexivity.
  - intros pipe_id test_spec Hpipe Hspec.
    apply elem_of_cons in Hpipe as [ -> | Hpipe ];
      [ | apply list_elem_of_singleton in Hpipe as -> ];
      vm_compute in Hspec; apply list_elem_of_singleton in Hspec as ->;
      split; vm_compute; reflexivity.
Defined.

Lemma verify_reports_every_failure_witness :
  ∃ d',
    verify VerifyScenario.pipes VerifyScenario.entities
      (VerifyScenario.baselines (JList [Scenario.b]) (JList []))
    = Some (Raise (RuntimeError "Verify failed"), d')
    ∧ (ERROR, Text "p (expected/p.test.json)") ∈ disk_log d'
    ∧ (ERROR, Text "q (expected/q.test.json)") ∈ disk_log d'.
Proof.
  assert (Hfails : ∃ d',
             verify VerifyScenario.pipes VerifyScenario.entities
               (VerifyScenario.baselines (JList [Scenario.b]) (JList []))
             = Some (Raise (RuntimeError "Verify failed"), d')
             ∧ ∀ pipe_id test_spec,
                 pipe_id ∈ ["p"; "q"] →
                 test_spec ∈ default [] (VerifyScenario.test_specs !! pipe_id) →
                 spec_fails VerifyScenario.entities
                   (files (VerifyScenario.baselines (JList [Scenario.b]) (JList [])))
                   pipe_id test_spec = true →
                 (ERROR, Text (pipe_str test_spec ++ " (" ++ _spec_file test_spec ++ ")"))
                 ∈ disk_log d').
  { eapply (verify_reports_every_failure VerifyScenario.pipes VerifyScenario.entities
              (VerifyScenario.baselines (JList [Scenario.b]) (JList []))
              ["p"; "q"] VerifyScenario.test_specs).
    - vm_compute. reflexivity.
    - vm_compute. reflexivity.
    - apply insert_non_empty.
    - intros pipe_id test_spec Hpipe Hspec.
      apply elem_of_cons in Hpipe as [ -> | Hpipe ];
        [ | apply list_elem_of_singleton in Hpipe as -> ];
        vm_compute in Hspec; apply list_elem_of_singleton in Hspec as ->;
        vm_compute; reflexivity.
    - intros pipe_id test_spec Hpipe Hspec.
      apply elem_of_cons in Hpipe as [ -> | Hpipe ];
        [ | apply list_elem_of_singleton in Hpipe as -> ];
        vm_compute in Hspec; apply list_elem_of_singleton in Hspec as ->;
        vm_compute; reflexivity.
    - exists "p", (TestSpec_of "expected/p.test.json" []).
      split; [ left | ]. split; [ vm_compute; left | vm_compute; reflexivity ]. }
  destruct Hfails as (d' & Hrun & Hlog).
  exists d'. split; [ exact Hrun | ]. split.
  - apply (Hlog "p" (TestSpec_of "expected/p.test.json" [])).
    + left.
    + vm_compute. left.
    + vm_compute. reflexivity.
  - apply (Hlog "q" (TestSpec_of "expected/q.test.json" [])).
    + right. left.
    + vm_compute. left.
    + vm_compute. reflexivity.
Defined.

Lemma add_keys_elem key ids :
  ∀ keys, key ∈ fold_left add_key ids keys ↔ key ∈ keys ∨ key ∈ ids.
Proof.
  induction ids as [ | id rest IH ]; intros keys; cbn [fold_left].
  - split; [ auto | intros [ H | H ]; [ exact H | inversion H ] ].
  - rewrite IH. unfold add_key. rewrite elem_of_cons.
    destruct (bool_decide_reflect (id ∈ keys)) as [ Hin | Hout ].
    + split; [ tauto | ]. intros [ H | [ -> | H ] ]; auto.
    + rewrite elem_of_app, list_elem_of_singleton. tauto.
Qed.

Lemma dict_keys_elem key ids : key ∈ dict_keys ids ↔ key ∈ ids.
Proof.
  unfold dict_keys. rewrite add_keys_elem. split; [ | auto ].
  intros [ H | H ]; [ inversion H | exact H ].
Qed.

Lemma load_spec_file_skips existing_output_pipes update test_specs filename spec_dict
  pipe_id d :
  files d !! filename = Some (JsonDoc (JDict spec_dict)) →
  TestSpec_ignore (TestSpec_of filename spec_dict) = false →
  TestSpec_pipe (TestSpec_of filename spec_dict) = Some (JStr pipe_id) →
  pipe_id ∉ existing_output_pipes →
  ∃ d',
    load_spec_file existing_output_pipes update test_specs filename d
    = Some (Ok test_specs, d')
    ∧ files d' = files d.
Proof.
  intros Hfile Hignore Hpipe Hnot.
  unfold load_spec_file, TestSpec_init. prog_simpl.
  cbn [files emit disk_logger]. rewrite Hfile. prog_simpl.
  rewrite Hpipe. unfold as_str. prog_simpl. rewrite Hignore.
  rewrite bool_decide_eq_false_2 by exact Hnot. prog_simpl.
  eexists. split; reflexivity.
Qed.

(** X28. [verify] raises "Found no tests" when the directory holds no spec
    file, and also when every spec file there is for a pipe that is no
    output or endpoint pipe of the node (and does not say [ignore]). *)
Theorem verify_without_tests pipes entities d output endpoint :
  get_output_pipes pipes = Some output →
  get_endpoint_pipes pipes = Some endpoint →
  (∀ filename,
     is_Some (files d !! filename) → is_test_spec_path filename = true →
     ∃ spec_dict pipe_id,
       files d !! filename = Some (JsonDoc (JDict spec_dict))
       ∧ TestSpec_ignore (TestSpec_of filename spec_dict) = false
       ∧ TestSpec_pipe (TestSpec_of filename spec_dict) = Some (JStr pipe_id)
       ∧ pipe_id ∉ map Pipe.id (output ++ endpoint)) →
  ∃ d',
    verify pipes entities d
    = Some (Raise (AssertionError "Found no tests (*.test.json) to run"), d').
Proof.
  intros Houtput Hendpoint Hspecs.
  set (d0 := emit (INFO, Text "Verifying that expected output matches current output...") d).
  set (ids := dict_keys (map Pipe.id (output ++ endpoint))).
  assert (Hloop : ∀ filenames s,
             (∀ filename, filename ∈ filenames →
                          is_Some (files d !! filename)
                          ∧ is_test_spec_path filename = true) →
             files s = files d →
             ∃ s', for_each (load_spec_file ids false) filenames ∅ s = Some (Ok ∅, s')).
  { induction filenames as [ | filename rest IH ]; intros s Hin Hs.
    - exists s. reflexivity.
    - destruct (Hin filename ltac:(left)) as [Hthere Hpath].
      destruct (Hspecs filename Hthere Hpath)
        as (spec_dict & pipe_id & Hfile & Hignore & Hpipe & Hnot).
      destruct (load_spec_file_skips ids false ∅ filename spec_dict pipe_id s)
        as (s1 & Hstep & Hfiles1);
        [ rewrite Hs; exact Hfile | exact Hignore | exact Hpipe | | ].
      { unfold ids. rewrite dict_keys_elem. exact Hnot. }
      cbn [for_each]. unfold mbind, prog_bind. rewrite Hstep.
      apply IH; [ intros f Hf; apply Hin; right; exact Hf | congruence ]. }
  destruct (glob_test_specs d0) as [ [ [ filenames | e ] d0' ] | ] eqn:Hglob;
    [ | discriminate Hglob | discriminate Hglob ].
  apply glob_test_specs_lists in Hglob as Hlist. destruct Hlist as [-> Hfilenames].
  destruct (Hloop filenames d0) as (d1 & Hrun); [ | reflexivity | ].
  { intros filename Hf. apply Hfilenames in Hf. exact Hf. }
  exists d1. unfold verify.
  unfold mbind at 1, prog_bind at 1, log at 1, modify at 1.
  unfold mbind at 1, prog_bind at 1, output_pipe_ids.
  rewrite Houtput, Hendpoint. unfold mret at 1, prog_ret at 1.
  unfold mbind at 1, prog_bind at 1, load_test_specs.
  unfold mbind at 1, prog_bind at 1. fold d0. fold ids. rewrite Hglob.
  unfold mbind at 1, prog_bind at 1. rewrite Hrun.
  reflexivity.
Qed.

Lemma verify_without_tests_witness :
  ∃ d',
    verify [] VerifyScenario.entities
      (VerifyScenario.baselines (JList []) (JList []))
    = Some (Raise (AssertionError "Found no tests (*.test.json) to run"), d').
Proof.
  apply (verify_without_tests [] VerifyScenario.entities
           (VerifyScenario.baselines (JList []) (JList [])) [] []).
  - reflexivity.
  - reflexivity.
  - intros filename [data Hdata] Hpath.
    unfold VerifyScenario.baselines in *. cbn [files] in *.
    apply lookup_insert_Some in Hdata as [ [<- _] | [_ Hdata] ].
    { exists [], "p". repeat split; try (vm_compute; reflexivity). inversion 1. }
    apply lookup_insert_Some in Hdata as [ [<- _] | [_ Hdata] ].
    { vm_compute in Hpath. discriminate. }
    apply lookup_insert_Some in Hdata as [ [<- _] | [_ Hdata] ].
    { exists [], "q". repeat split; try (vm_compute; reflexivity). inversion 1. }
    apply lookup_singleton_Some in Hdata as [<- _].
    vm_compute in Hpath. discriminate.
Defined.

Lemma get_id_fix_dict entity :
  is_dict entity = true →
  (get_id entity = Raise (KeyError "_id")
   ∧ get_id (_fix_decimal_to_ints entity) = Raise (KeyError "_id"))
  ∨ ((∃ v, get_id entity = Ok v) ∧ ∃ v, get_id (_fix_decimal_to_ints entity) = Ok v).
Proof.
  destruct entity as [ | | | | | | entries ]; try discriminate. intros _.
  cbn [_fix_decimal_to_ints get_id]. rewrite dict_get_fix.
  destruct (dict_get "_id" entries) as [ v | ]; cbn.
  - right. split; eexists; reflexivity.
  - left. split; reflexivity.
Qed.

Lemma keyed_by_get_id_raises test_spec fetched filtered :
  Forall2 (fun x y => filter_entity x test_spec = Ok y)
    (map _fix_decimal_to_ints fetched) filtered →
  Forall (fun e => is_dict e = true) fetched →
  Exists (fun e => get_id e = Raise (KeyError "_id")) fetched →
  mapM (fun e => k ← get_id e; Ok (k, e)) filtered = Raise (KeyError "_id").
Proof.
  revert filtered. induction fetched as [ | x rest IH ]; intros filtered Hfiltered Hdicts Hmissing.
  - inversion Hmissing.
  - cbn [map] in Hfiltered.
    apply Forall2_cons_inv_l in Hfiltered as (y & filtered' & Hy & Hrest & ->).
    apply Forall_cons in Hdicts as [Hdict Hdicts].
    rewrite mapM_cons, (filter_entity_get_id _ _ _ Hy).
    destruct (get_id_fix_dict x Hdict) as [ [_ ->] | [ [v0 Hv0] [v ->] ] ];
      [ reflexivity | ].
    exc_simpl.
    apply Exists_cons in Hmissing as [ Hx | Hmissing ]; [ congruence | ].
    rewrite (IH filtered' Hrest Hdicts Hmissing). reflexivity.
Qed.

(** X29. A fetched entity without [_id] makes the comparison raise
    [KeyError], also when it is the only entity of the pipe: the sort
    keys are asked for before anything is compared. *)
Theorem verify_json_missing_id test_spec expected_output fetched :
  blacklist_of_strings test_spec →
  Forall (fun e => is_dict e = true) fetched →
  Exists (fun e => get_id e = Raise (KeyError "_id")) fetched →
  verify_json test_spec expected_output (JList fetched) = Raise (KeyError "_id").
Proof.
  intros Hblacklist Hdicts Hmissing. unfold verify_json.
  cbn [get_pipe_entities _fix_decimal_to_ints py_iter]. exc_simpl.
  destruct (mapM_exists (fun e => filter_entity e test_spec)
              (map _fix_decimal_to_ints fetched)) as [filtered Hfiltered].
  { intros x. apply filter_item_total, Hblacklist. }
  rewrite Hfiltered. exc_simpl. unfold sorted_by_id.
  rewrite (keyed_by_get_id_raises test_spec fetched filtered
             (mapM_Ok _ _ _ Hfiltered) Hdicts Hmissing).
  reflexivity.
Qed.

Lemma verify_json_missing_id_witness :
  verify_json (Scenario.spec []) (JList [JDict [("v", JInt 1)]])
    (JList [JDict [("v", JInt 1)]])
  = Raise (KeyError "_id").
Proof.
  apply verify_json_missing_id.
  - exact I.
  - repeat constructor.
  - left. reflexivity.
Defined.

(** ** Wiping the node *)

Lemma remove_dataset_step env dataset_id s :
  ∃ r s',
    remove_dataset env () dataset_id s = Some (r, s')
    ∧ config_wiped s' = config_wiped s ∧ env_wiped s' = env_wiped s
    ∧ (∀ d, d ∈ datasets s' → d ∈ datasets s)
    ∧ (∀ d, d ∈ datasets s → startswith d "system:" = true → d ∈ datasets s')
    ∧ (r = Ok () → startswith dataset_id "system:" = false → dataset_id ∉ datasets s')
    ∧ (∀ e, r = Raise e → datasets s' = datasets s).
Proof.
  unfold remove_dataset, delete_dataset.
  destruct (startswith dataset_id "system:") eqn:Hsystem; cbn [negb].
  - exists (Ok ()), s. repeat split; auto; discriminate.
  - prog_simpl. destruct (delete_reply env dataset_id) as [ [] | e ].
    + eexists _, _. split; [ reflexivity | ]. cbn.
      split; [ reflexivity | ]. split; [ reflexivity | ].
      split; [ | split; [ | split; [ | discriminate ] ] ].
      * intros d Hd. apply list_elem_of_In, filter_In in Hd as [Hd _].
        apply list_elem_of_In, Hd.
      * intros d Hd Hsys. apply list_elem_of_In, filter_In.
        split; [ apply list_elem_of_In, Hd | ].
        apply negb_true_iff, String.eqb_neq. intros ->. congruence.
      * intros _ _ Hd. apply list_elem_of_In, filter_In in Hd as [_ Hd].
        rewrite String.eqb_refl in Hd. discriminate.
    + eexists _, _. split; [ reflexivity | ]. cbn.
      repeat split; auto; discriminate.
Qed.

Lemma remove_datasets_loop env found :
  ∀ s,
  ∃ r s',
    for_each (remove_dataset env) found () s = Some (r, s')
    ∧ config_wiped s' = config_wiped s ∧ env_wiped s' = env_wiped s
    ∧ (∀ d, d ∈ datasets s' → d ∈ datasets s)
    ∧ (∀ d, d ∈ datasets s → startswith d "system:" = true → d ∈ datasets s')
    ∧ (r = Ok () →
       ∀ d, d ∈ found → startswith d "system:" = false → d ∉ datasets s').
Proof.
  induction found as [ | dataset_id rest IH ]; intros s.
  - exists (Ok ()), s. repeat split; auto. intros _ d Hd. inversion Hd.
  - cbn [for_each]. unfold mbind, prog_bind.
    destruct (remove_dataset_step env dataset_id s)
      as (r1 & s1 & -> & Hc1 & He1 & Hsub1 & Hsys1 & Hgone1 & _).
    destruct r1 as [ [] | e ].
    + destruct (IH s1) as (r & s' & -> & Hc & He & Hsub & Hsys & Hgone).
      exists r, s'. split; [ reflexivity | ].
      split; [ congruence | ]. split; [ congruence | ].
      split; [ auto | ]. split; [ auto | ].
      intros Hr d [ -> | Hd ]%elem_of_cons Hnot.
      * intros Hin. exact (Hgone1 eq_refl Hnot (Hsub _ Hin)).
      * exact (Hgone Hr d Hd Hnot).
    + eexists _, _. split; [ reflexivity | ].
      repeat split; auto; discriminate.
Qed.

(** X30. [wipe] never deletes a dataset whose id starts with [system:]. When
    it returns, the datasets left are the system datasets, and config
    and environment variables have been put to nothing; when the node
    refuses the empty config, nothing else is asked of it: every dataset
    and the environment variables are as they were. *)
Theorem wipe_outcome env s :
  ∃ r s',
    wipe env s = Some (r, s')
    ∧ (∀ d, d ∈ datasets s → startswith d "system:" = true → d ∈ datasets s')
    ∧ (r = Ok () →
       (∀ d, d ∈ datasets s' ↔ d ∈ datasets s ∧ startswith d "system:" = true)
       ∧ config_wiped s' = true ∧ env_wiped s' = true)
    ∧ (∀ e, put_config_reply env = Raise e →
            r = Raise e ∧ datasets s' = datasets s ∧ env_wiped s' = env_wiped s).
Proof.
  unfold wipe, put_config, put_env, remove_all_datasets.
  unfold mbind at 1, prog_bind at 1, log at 1, modify at 1.
  unfold mbind at 1, prog_bind at 1, try_except at 1.
  unfold mbind at 1, prog_bind at 1.
  unfold mbind at 1, prog_bind at 1, log at 1, modify at 1.
  unfold mbind at 1, prog_bind at 1, lift at 1.
  destruct (put_config_reply env) as [ [] | e ].
  2: { prog_simpl. eexists _, _. split; [ reflexivity | ]. cbn.
       split; [ auto | ]. split; [ discriminate | ].
       intros e' [= <-]. auto. }
  unfold modify at 1, log at 1, modify at 1.
  unfold mbind at 1, prog_bind at 1, try_except at 1.
  unfold mbind at 1, prog_bind at 1.
  unfold mbind at 1, prog_bind at 1, log at 1, modify at 1.
  unfold mbind at 1, prog_bind at 1, lift at 1.
  destruct (put_env_reply env) as [ [] | e ].
  2: { prog_simpl. eexists _, _. split; [ reflexivity | ]. cbn.
       split; [ auto | ]. split; [ discriminate | discriminate ]. }
  unfold modify at 1, log at 1, modify at 1.
  unfold mbind at 1, prog_bind at 1, try_except at 1.
  unfold mbind at 1, prog_bind at 1.
  unfold mbind at 1, prog_bind at 1, log at 1, modify at 1.
  unfold mbind at 1, prog_bind at 1, gets at 1.
  match goal with |- context [ for_each (remove_dataset env) ?found () ?s0 ] =>
    destruct (remove_datasets_loop env found s0)
      as (r & s' & -> & Hc & He & Hsub & Hsys & Hgone)
  end.
  cbn [datasets config_wiped env_wiped emit store_logger set_env_wiped set_config_wiped]
    in Hc, He, Hsub, Hsys, Hgone.
  destruct r as [ [] | e ]; prog_simpl.
  - eexists _, _. split; [ reflexivity | ]. cbn.
    split; [ exact Hsys | ]. split; [ | discriminate ].
    intros _. split; [ | split; assumption ].
    intros d. split.
    + intros Hd. split; [ exact (Hsub d Hd) | ].
      destruct (startswith d "system:") eqn:Hsystem; [ reflexivity | ].
      destruct (Hgone eq_refl d (Hsub d Hd) Hsystem Hd).
    + intros [Hd Hsystem]. exact (Hsys d Hd Hsystem).
  - eexists _, _. split; [ reflexivity | ]. cbn.
    split; [ exact Hsys | ]. split; [ discriminate | discriminate ].
Qed.
